(** * Wisal front end: the authentication / session core

    A shallow embedding of the session and role-authorization code of the
    dashboard, the properties of it that the specification states, and
    further properties that the code shows:

    - [src/constants/roles.ts]        the role enum and the landing routes
    - [src/api/httpClient.ts]         the shared axios client, its default
                                      headers and its response interceptor
    - [src/providers/AuthProvider.tsx] token decoding, the persisted session
                                      fields, [applyAuthResponse], [login],
                                      [logout], [refresh] and the boot effect
    - [src/components/ProtectedRoute.tsx] the route guard
    - [src/AppRouter.tsx]             the table of the routes
    - [src/components/Header.tsx]     the links of the header and its logout
                                      button
    - [src/pages/Login.tsx]           the login form
    - [src/pages/RoundDetails.tsx], [src/pages/Delivery.tsx]
                                      the forms of the coupon rounds

    JavaScript values are modelled by [JsValue]; the mutable world (React
    state of the provider, [localStorage], the axios default headers) is one
    record threaded through a state-and-exception monad, so that [try],
    [catch] and [finally] read as they do in the source. *)

From Stdlib Require Import ZArith String Ascii List Bool Lia.
From stdpp Require Import base option gmap strings list.

#[local] Set Warnings "-register-all".
#[local] Open Scope string_scope.

(** ** JavaScript values *)

Module Js.

(** The values that reach this code: what [JSON.parse] produces (the body of
    a response, the payload of a token), [undefined] for a missing property,
    and an opaque function object (a string has methods, and [claims.sub] on
    a string payload is [String.prototype.sub]).

    A string is kept as the UTF-8 bytes of its text.  A number is kept as the
    decimal [m * 10^e] that denotes it; the code only ever asks whether a
    number is truthy and what its [typeof] is. *)
Inductive JsValue : Type :=
  | JUndefined
  | JNull
  | JBool (b : bool)
  | JNum (m e : Z)
  | JStr (s : string)
  | JArr (items : list JsValue)
  | JObj (props : gmap string JsValue)
  | JFunction.

(** [typeof v] *)
Definition typeof (v : JsValue) : string :=
  match v with
  | JUndefined => "undefined"
  | JNull => "object"
  | JBool _ => "boolean"
  | JNum _ _ => "number"
  | JStr _ => "string"
  | JArr _ => "object"
  | JObj _ => "object"
  | JFunction => "function"
  end.

(** Whether the binary64 value nearest to [m * 10^e] is zero: either the
    decimal is zero, or it is so small that it rounds to zero (at most half
    of the least subnormal, [2^-1075]; the tie goes to the even neighbour,
    which is zero). *)
Definition rounds_to_zero (m e : Z) : bool :=
  if (m =? 0)%Z then true
  else if (0 <=? e)%Z then false
  else (Z.abs m * 2 ^ 1075 <=? 10 ^ (- e))%Z.

(** ToBoolean: what [if (v)], [!v], [v && _] and [v || _] test. *)
Definition to_boolean (v : JsValue) : bool :=
  match v with
  | JUndefined | JNull => false
  | JBool b => b
  | JNum m e => negb (rounds_to_zero m e)
  | JStr s => negb (String.eqb s "")
  | JArr _ | JObj _ | JFunction => true
  end.

(** [a || b] *)
Definition or (a b : JsValue) : JsValue := if to_boolean a then a else b.

(** [v.k], for a [v] that is neither [undefined] nor [null] (every member
    access of the source is behind a truthiness test or an optional chain,
    see [opt_get]) and for the property names this program reads:
    [accessToken], [institutionId], [institution], [user], [role], [id],
    [sub], [message], [error], [title].  On a plain object these are own
    properties or absent; no built-in prototype defines any of them except
    [String.prototype.sub]. *)
Definition get (v : JsValue) (k : string) : JsValue :=
  match v with
  | JObj props => default JUndefined (props !! k)
  | JStr _ => if String.eqb k "sub" then JFunction else JUndefined
  | _ => JUndefined
  end.

(** [v?.k] *)
Definition opt_get (v : JsValue) (k : string) : JsValue :=
  match v with
  | JUndefined | JNull => JUndefined
  | _ => get v k
  end.

(** [v === 'lit'] for a string literal. *)
Definition strict_eq_str (v : JsValue) (lit : string) : bool :=
  match v with
  | JStr s => String.eqb s lit
  | _ => false
  end.

(** [typeof v === 'string' && v ? v : null], as the string it selects. *)
Definition nonempty_string (v : JsValue) : option string :=
  match v with
  | JStr s => if negb (String.eqb s "") then Some s else None
  | _ => None
  end.

(** Truthiness of a [string | null]. *)
Definition truthy (v : option string) : bool :=
  match v with
  | Some s => negb (String.eqb s "")
  | None => false
  end.

(** Whether [ToString(v)] throws.  An object is converted through its
    [toString] and then its [valueOf] ([OrdinaryToPrimitive]).  A plain
    object inherits [Object.prototype.toString]; an own property [toString],
    which in a value of [JSON.parse] is never callable, hides it, and the
    [valueOf] that is tried next is not callable either or returns the
    object itself: a [TypeError].  An array inherits
    [Array.prototype.toString], which joins its elements, each one other
    than [null] and [undefined] being converted in turn. *)
Fixpoint ToString_throws (v : JsValue) : bool :=
  match v with
  | JArr items => existsb ToString_throws items
  | JObj props =>
      match props !! "toString" with
      | Some _ => true
      | None => false
      end
  | _ => false
  end.

(** Object literals. *)
Definition obj (l : list (string * JsValue)) : JsValue := JObj (list_to_map l).

End Js.
Import Js.

(** ** src/constants/roles.ts *)

(** [ROLE_DEFAULT_ROUTE] *)
Definition ROLE_DEFAULT_ROUTE : gmap string string :=
  <["ADMIN" := "/"]> (<["DISTRIBUTER" := "/distribution"]>
  (<["PUBLISHER" := "/posts"]> (<["DELIVERER" := "/deliver"]> ∅))).

(** [isEmployeeRole(value)] *)
Definition isEmployeeRole (value : JsValue) : bool :=
  strict_eq_str value "ADMIN" ||
  strict_eq_str value "DISTRIBUTER" ||
  strict_eq_str value "PUBLISHER" ||
  strict_eq_str value "DELIVERER".

(** [getDefaultRouteForRole(role)], for a role that respects its type (the
    lookup is among the own properties of [ROLE_DEFAULT_ROUTE]). *)
Definition getDefaultRouteForRole (role : option string) : string :=
  if negb (truthy role) then "/"
  else match role with
       | Some r => default "/" (ROLE_DEFAULT_ROUTE !! r)
       | None => "/"
       end.

(** The type [EmployeeRole], which TypeScript erases: the four literals. *)
Inductive EmployeeRole := ADMIN | DISTRIBUTER | PUBLISHER | DELIVERER.

Definition role_name (r : EmployeeRole) : string :=
  match r with
  | ADMIN => "ADMIN"
  | DISTRIBUTER => "DISTRIBUTER"
  | PUBLISHER => "PUBLISHER"
  | DELIVERER => "DELIVERER"
  end.

(** A runtime role value that respects the declared type
    [EmployeeRole | null]. *)
Definition role_ok (role : option string) : Prop :=
  match role with
  | None => True
  | Some r => isEmployeeRole (JStr r) = true
  end.

(** ** Exceptions *)

(** What a [throw] carries in this program: the three errors the platform
    functions of [decodeJwt] raise, the [TypeError] of a conversion to a
    string, and the [ApiError] of the HTTP client.  An [ApiError] is kept as
    the arguments its constructor received.  The second is not the message
    of the error: the constructor hands it to [Error], which keeps
    [ToString] of it (see [ToString] and [new_ApiError] below). *)
Inductive Exn : Type :=
  | InvalidCharacterError
  | URIError
  | SyntaxError
  | TypeError
  | ApiError (status : option Z) (message : JsValue) (details : JsValue).

(** The outcome of evaluating an expression: a value, or an exception in
    flight. *)
Inductive Completion (A : Type) : Type :=
  | Return (a : A)
  | Throw (e : Exn).
Arguments Return {A} a.
Arguments Throw {A} e.

Definition cbind {A B} (c : Completion A) (k : A -> Completion B) : Completion B :=
  match c with
  | Return a => k a
  | Throw e => Throw e
  end.

(** [try { body } catch { handler }] for pure code. *)
Definition try_catch_pure {A} (body : Completion A) (handler : Exn -> Completion A)
  : Completion A :=
  match body with
  | Return a => Return a
  | Throw e => handler e
  end.

Definition of_option {A} (e : Exn) (o : option A) : Completion A :=
  match o with
  | Some a => Return a
  | None => Throw e
  end.

(** ** [ToString]

    What the standard leaves to the implementation: the digits of a number
    ([Number::toString] asks for the fewest digits that denote the number,
    and does not always fix the last one) and the text of a built-in
    function. *)
Record Engine : Type := mkEngine {
  Number_toString : Z -> Z -> string;
  Function_toString : string
}.

(** [ToString(v)].  [Array.prototype.join] writes nothing for [null] and
    [undefined] and a comma between the elements. *)
Fixpoint ToString (engine : Engine) (v : JsValue) {struct v} : Completion string :=
  match v with
  | JUndefined => Return "undefined"
  | JNull => Return "null"
  | JBool b => Return (if b then "true" else "false")
  | JNum m e => Return (Number_toString engine m e)
  | JStr s => Return s
  | JArr items =>
      (fix join (l : list JsValue) : Completion string :=
         match l with
         | [] => Return ""
         | x :: r =>
             cbind (match x with
                    | JUndefined | JNull => Return ""
                    | _ => ToString engine x
                    end) (fun next =>
             match r with
             | [] => Return next
             | _ => cbind (join r) (fun rest => Return (next ++ "," ++ rest))
             end)
         end) items
  | JObj props =>
      match props !! "toString" with
      | Some _ => Throw TypeError
      | None => Return "[object Object]"
      end
  | JFunction => Return (Function_toString engine)
  end.

(** [new ApiError(status, message, details)]: [super(message)] converts the
    message to a string before anything is assigned, so that the construction
    throws where [ToString] does.  The message is never [undefined] in this
    program. *)
Definition new_ApiError (status : option Z) (message details : JsValue)
  : Completion Exn :=
  if ToString_throws message then Throw TypeError
  else Return (ApiError status message details).

(** ** The platform functions used by [decodeJwt] *)

Module Platform.

Definition code (c : ascii) : Z := Z.of_N (N_of_ascii c).
Definition chr (n : Z) : ascii := ascii_of_N (Z.to_N n).

Definition in_range (lo hi n : Z) : bool := ((lo <=? n) && (n <=? hi))%Z.

Definition is_digit (c : ascii) : bool := in_range 48 57 (code c).
Definition is_lower (c : ascii) : bool := in_range 97 122 (code c).
Definition is_upper (c : ascii) : bool := in_range 65 90 (code c).

Definition hex_value (c : ascii) : option Z :=
  let n := code c in
  if in_range 48 57 n then Some (n - 48)%Z
  else if in_range 65 70 n then Some (n - 55)%Z
  else if in_range 97 102 n then Some (n - 87)%Z
  else None.

(** *** [atob]: the forgiving-base64 decode of the HTML standard.  The result
    is a binary string, kept as the list of its character codes (all below
    256). *)

Definition is_ascii_whitespace (c : ascii) : bool :=
  let n := code c in
  ((n =? 9) || (n =? 10) || (n =? 12) || (n =? 13) || (n =? 32))%Z.

Definition b64_value (c : ascii) : option Z :=
  let n := code c in
  if is_upper c then Some (n - 65)%Z
  else if is_lower c then Some (n - 71)%Z
  else if is_digit c then Some (n + 4)%Z
  else if (n =? 43)%Z then Some 62%Z
  else if (n =? 47)%Z then Some 63%Z
  else None.

(** Two trailing [=], or one, are dropped when the length is a multiple of 4. *)
Definition strip_padding (data : list ascii) : list ascii :=
  if (length data mod 4 =? 0)%nat then
    match rev data with
    | "="%char :: "="%char :: r => rev r
    | "="%char :: r => rev r
    | _ => data
    end
  else data.

Fixpoint sextets (data : list ascii) : option (list Z) :=
  match data with
  | [] => Some []
  | c :: r =>
      match b64_value c, sextets r with
      | Some v, Some vs => Some (v :: vs)
      | _, _ => None
      end
  end.

(** Four sextets give three bytes; a tail of three gives two bytes and a tail
    of two gives one, the unused low bits being dropped. *)
Fixpoint b64_bytes (vs : list Z) : list Z :=
  match vs with
  | a :: b :: c :: d :: r =>
      let n := Z.lor (Z.lor (Z.shiftl a 18) (Z.shiftl b 12)) (Z.lor (Z.shiftl c 6) d) in
      Z.land (Z.shiftr n 16) 255 :: Z.land (Z.shiftr n 8) 255 :: Z.land n 255
        :: b64_bytes r
  | [a; b; c] =>
      let n := Z.lor (Z.lor (Z.shiftl a 12) (Z.shiftl b 6)) c in
      [Z.land (Z.shiftr n 10) 255; Z.land (Z.shiftr n 2) 255]
  | [a; b] =>
      let n := Z.lor (Z.shiftl a 6) b in
      [Z.land (Z.shiftr n 4) 255]
  | _ => []
  end.

Definition atob (s : string) : Completion (list Z) :=
  let data := filter (fun c => negb (is_ascii_whitespace c)) (list_ascii_of_string s) in
  let data := strip_padding data in
  if (length data mod 4 =? 1)%nat then Throw InvalidCharacterError
  else of_option InvalidCharacterError (b64_bytes <$> sextets data).

(** *** [escape] (ECMAScript, Annex B) on a list of character codes. *)

Definition hex_digit (n : Z) : ascii :=
  if (n <? 10)%Z then chr (48 + n) else chr (55 + n).

Definition escape_unreserved (n : Z) : bool :=
  in_range 65 90 n || in_range 97 122 n || in_range 48 57 n ||
  (n =? 64)%Z || (n =? 42)%Z || (n =? 95)%Z || (n =? 43)%Z ||
  (n =? 45)%Z || (n =? 46)%Z || (n =? 47)%Z.

Fixpoint escape (codes : list Z) : list ascii :=
  match codes with
  | [] => []
  | n :: r =>
      if escape_unreserved n then chr n :: escape r
      else if (n <? 256)%Z then
        "%"%char :: hex_digit (Z.shiftr n 4) :: hex_digit (Z.land n 15) :: escape r
      else
        "%"%char :: "u"%char :: hex_digit (Z.land (Z.shiftr n 12) 15)
          :: hex_digit (Z.land (Z.shiftr n 8) 15)
          :: hex_digit (Z.land (Z.shiftr n 4) 15) :: hex_digit (Z.land n 15) :: escape r
  end.

(** *** [decodeURIComponent]: percent-decoding, the decoded octets being
    read as UTF-8.  The text it returns is kept as those UTF-8 bytes. *)

Inductive UriItem := Lit (c : ascii) | Pct (b : Z).

(** Every [%] must be followed by two hexadecimal digits. *)
Fixpoint uri_items (s : list ascii) : option (list UriItem) :=
  match s with
  | [] => Some []
  | "%"%char :: h :: l :: r =>
      match hex_value h, hex_value l, uri_items r with
      | Some a, Some b, Some items => Some (Pct (16 * a + b) :: items)
      | _, _, _ => None
      end
  | "%"%char :: _ => None
  | c :: r => cons (Lit c) <$> uri_items r
  end.

Definition is_cont (b : Z) : bool := in_range 128 191 b.

(** The well-formed UTF-8 byte sequences (Unicode, table 3-7): no overlong
    form, no surrogate, nothing above U+10FFFF. *)
Fixpoint uri_utf8 (items : list UriItem) : option (list ascii) :=
  match items with
  | [] => Some []
  | Lit c :: r => cons c <$> uri_utf8 r
  | Pct b0 :: r =>
      if (b0 <? 128)%Z then cons (chr b0) <$> uri_utf8 r
      else if in_range 194 223 b0 then
        match r with
        | Pct b1 :: r1 =>
            if is_cont b1 then (fun t => chr b0 :: chr b1 :: t) <$> uri_utf8 r1
            else None
        | _ => None
        end
      else if in_range 224 239 b0 then
        match r with
        | Pct b1 :: Pct b2 :: r2 =>
            let lo := if (b0 =? 224)%Z then 160%Z else 128%Z in
            let hi := if (b0 =? 237)%Z then 159%Z else 191%Z in
            if in_range lo hi b1 && is_cont b2
            then (fun t => chr b0 :: chr b1 :: chr b2 :: t) <$> uri_utf8 r2
            else None
        | _ => None
        end
      else if in_range 240 244 b0 then
        match r with
        | Pct b1 :: Pct b2 :: Pct b3 :: r3 =>
            let lo := if (b0 =? 240)%Z then 144%Z else 128%Z in
            let hi := if (b0 =? 244)%Z then 143%Z else 191%Z in
            if in_range lo hi b1 && is_cont b2 && is_cont b3
            then (fun t => chr b0 :: chr b1 :: chr b2 :: chr b3 :: t) <$> uri_utf8 r3
            else None
        | _ => None
        end
      else None
  end.

Definition decodeURIComponent (s : list ascii) : Completion string :=
  of_option URIError
    (string_of_list_ascii <$> (uri_items s ≫= uri_utf8)).

End Platform.

(** ** [JSON.parse]

    The grammar of ECMA-404, read by a lexer that takes one character at a
    time and a parser that keeps the open containers on a stack; both are
    total.  The limits of an engine (the depth of nesting it tolerates) are
    not modelled. *)

Module Json.
Import Platform.

Inductive Token : Type :=
  | TLBrace | TRBrace | TLBracket | TRBracket | TColon | TComma
  | TString (s : string)
  | TNumber (m e : Z)
  | TTrue | TFalse | TNull.

(** *** Numbers: [-? int frac? exp?] *)

Fixpoint span_digits (s : list ascii) : list ascii * list ascii :=
  match s with
  | c :: r =>
      if is_digit c then let '(d, t) := span_digits r in (c :: d, t) else ([], s)
  | [] => ([], [])
  end.

Definition digits_value (d : list ascii) : Z :=
  fold_left (fun acc c => (10 * acc + (code c - 48))%Z) d 0%Z.

Definition number_token (s : list ascii) : option Token :=
  let '(neg, s1) :=
    match s with "-"%char :: r => (true, r) | _ => (false, s) end in
  let '(ip, s2) := span_digits s1 in
  match ip with
  | [] => None
  | d0 :: ds =>
      if (code d0 =? 48)%Z && negb (length ds =? 0)%nat then None
      else
        let frac :=
          match s2 with
          | "."%char :: r =>
              let '(fp, s3) := span_digits r in
              match fp with [] => None | _ => Some (fp, s3) end
          | _ => Some ([], s2)
          end in
        '(fp, s3) ← frac;
        let expo :=
          match s3 with
          | c :: r =>
              if (code c =? 101)%Z || (code c =? 69)%Z then
                let '(sgn, r1) :=
                  match r with
                  | "-"%char :: t => ((-1)%Z, t)
                  | "+"%char :: t => (1%Z, t)
                  | _ => (1%Z, r)
                  end in
                let '(ed, s4) := span_digits r1 in
                match ed, s4 with
                | _ :: _, [] => Some (sgn * digits_value ed)%Z
                | _, _ => None
                end
              else None
          | [] => Some 0%Z
          end in
        ex ← expo;
        let m := digits_value (ip ++ fp)%list in
        Some (TNumber (if neg then (- m)%Z else m) (ex - Z.of_nat (length fp)))
  end.

Definition word_token (s : list ascii) : option Token :=
  let w := string_of_list_ascii s in
  if String.eqb w "true" then Some TTrue
  else if String.eqb w "false" then Some TFalse
  else if String.eqb w "null" then Some TNull
  else None.

(** *** Strings.  A [\uXXXX] escape names a UTF-16 code unit; a high
    surrogate followed by a low one is one code point, and a surrogate that
    stays alone is kept in the three-byte form. *)

Definition utf8_encode (cp : Z) : list ascii :=
  if (cp <? 128)%Z then [chr cp]
  else if (cp <? 2048)%Z then
    [chr (Z.lor 192 (Z.shiftr cp 6)); chr (Z.lor 128 (Z.land cp 63))]
  else if (cp <? 65536)%Z then
    [chr (Z.lor 224 (Z.shiftr cp 12));
     chr (Z.lor 128 (Z.land (Z.shiftr cp 6) 63));
     chr (Z.lor 128 (Z.land cp 63))]
  else
    [chr (Z.lor 240 (Z.shiftr cp 18));
     chr (Z.lor 128 (Z.land (Z.shiftr cp 12) 63));
     chr (Z.lor 128 (Z.land (Z.shiftr cp 6) 63));
     chr (Z.lor 128 (Z.land cp 63))].

(** The characters read so far, most recent first, and a high surrogate
    that still waits for its partner. *)
Record StrAcc := { sa_rev : list ascii; sa_high : option Z }.

Definition push_bytes (bs : list ascii) (acc : list ascii) : list ascii :=
  rev_append bs acc.

Definition flush (a : StrAcc) : list ascii :=
  match sa_high a with
  | Some h => push_bytes (utf8_encode h) (sa_rev a)
  | None => sa_rev a
  end.

Definition add_char (c : ascii) (a : StrAcc) : StrAcc :=
  {| sa_rev := c :: flush a; sa_high := None |}.

Definition add_unit (u : Z) (a : StrAcc) : StrAcc :=
  match sa_high a with
  | Some h =>
      if in_range 56320 57343 u then
        let cp := (65536 + Z.shiftl (h - 55296) 10 + (u - 56320))%Z in
        {| sa_rev := push_bytes (utf8_encode cp) (sa_rev a); sa_high := None |}
      else if in_range 55296 56319 u then
        {| sa_rev := flush a; sa_high := Some u |}
      else
        {| sa_rev := push_bytes (utf8_encode u) (flush a); sa_high := None |}
  | None =>
      if in_range 55296 56319 u then {| sa_rev := sa_rev a; sa_high := Some u |}
      else {| sa_rev := push_bytes (utf8_encode u) (sa_rev a); sa_high := None |}
  end.

(** *** The lexer, one character at a time. *)

Inductive LexState : Type :=
  | LIdle
  | LWord (rev_chars : list ascii)
  | LNumber (rev_chars : list ascii)
  | LString (a : StrAcc)
  | LEscape (a : StrAcc)
  | LUnicode (a : StrAcc) (digits : list Z).

Definition is_json_whitespace (c : ascii) : bool :=
  let n := code c in ((n =? 32) || (n =? 9) || (n =? 10) || (n =? 13))%Z.

Definition is_number_char (c : ascii) : bool :=
  let n := code c in
  is_digit c || ((n =? 43) || (n =? 45) || (n =? 46) || (n =? 101) || (n =? 69))%Z.

Definition lex_idle (c : ascii) : option (LexState * list Token) :=
  let n := code c in
  if is_json_whitespace c then Some (LIdle, [])
  else if (n =? 123)%Z then Some (LIdle, [TLBrace])
  else if (n =? 125)%Z then Some (LIdle, [TRBrace])
  else if (n =? 91)%Z then Some (LIdle, [TLBracket])
  else if (n =? 93)%Z then Some (LIdle, [TRBracket])
  else if (n =? 58)%Z then Some (LIdle, [TColon])
  else if (n =? 44)%Z then Some (LIdle, [TComma])
  else if (n =? 34)%Z then Some (LString {| sa_rev := []; sa_high := None |}, [])
  else if is_digit c || (n =? 45)%Z then Some (LNumber [c], [])
  else if is_lower c then Some (LWord [c], [])
  else None.

Definition escape_char (c : ascii) : option ascii :=
  let n := code c in
  if ((n =? 34) || (n =? 92) || (n =? 47))%Z then Some c
  else if (n =? 98)%Z then Some (chr 8)
  else if (n =? 102)%Z then Some (chr 12)
  else if (n =? 110)%Z then Some (chr 10)
  else if (n =? 114)%Z then Some (chr 13)
  else if (n =? 116)%Z then Some (chr 9)
  else None.

Definition lex_step (st : LexState) (c : ascii) : option (LexState * list Token) :=
  match st with
  | LIdle => lex_idle c
  | LWord w =>
      if is_lower c then Some (LWord (c :: w), [])
      else
        t ← word_token (rev w);
        '(st', ts) ← lex_idle c;
        Some (st', t :: ts)
  | LNumber w =>
      if is_number_char c then Some (LNumber (c :: w), [])
      else
        t ← number_token (rev w);
        '(st', ts) ← lex_idle c;
        Some (st', t :: ts)
  | LString a =>
      let n := code c in
      if (n =? 34)%Z then Some (LIdle, [TString (string_of_list_ascii (rev (flush a)))])
      else if (n =? 92)%Z then Some (LEscape a, [])
      else if (n <? 32)%Z then None
      else Some (LString (add_char c a), [])
  | LEscape a =>
      if (code c =? 117)%Z then Some (LUnicode a [], [])
      else e ← escape_char c; Some (LString (add_char e a), [])
  | LUnicode a ds =>
      h ← hex_value c;
      match ds with
      | [d1; d2; d3] =>
          Some (LString (add_unit (4096 * d1 + 256 * d2 + 16 * d3 + h) a), [])
      | _ => Some (LUnicode a (ds ++ [h])%list, [])
      end
  end.

Definition lex_end (st : LexState) : option (list Token) :=
  match st with
  | LIdle => Some []
  | LWord w => t ← word_token (rev w); Some [t]
  | LNumber w => t ← number_token (rev w); Some [t]
  | _ => None
  end.

Fixpoint lex (st : LexState) (s : list ascii) : option (list Token) :=
  match s with
  | [] => lex_end st
  | c :: r =>
      '(st', ts) ← lex_step st c;
      rest ← lex st' r;
      Some (ts ++ rest)%list
  end.

(** *** The parser: a stack of the containers that are still open. *)

Inductive Frame : Type :=
  | FArr (rev_items : list JsValue)
  | FObj (props : gmap string JsValue) (key : string).

Inductive Expect : Type :=
  | EValue            (* a value *)
  | EFirstItem        (* after [: a value or ] *)
  | EFirstKey         (* after {: a key or } *)
  | EKey (props : gmap string JsValue)    (* after , in an object *)
  | EColon (props : gmap string JsValue) (key : string)
  | ECommaOrClose     (* after a value inside a container *)
  | EDone (v : JsValue).

(** A complete value goes to the innermost open container, or is the
    result. *)
Definition reduce (v : JsValue) (stack : list Frame) : Expect * list Frame :=
  match stack with
  | [] => (EDone v, [])
  | FArr items :: st => (ECommaOrClose, FArr (v :: items) :: st)
  | FObj props key :: st => (ECommaOrClose, FObj (<[key := v]> props) "" :: st)
  end.

Definition scalar (t : Token) : option JsValue :=
  match t with
  | TString s => Some (JStr s)
  | TNumber m e => Some (JNum m e)
  | TTrue => Some (JBool true)
  | TFalse => Some (JBool false)
  | TNull => Some JNull
  | _ => None
  end.

Definition parse_value (t : Token) (stack : list Frame) : option (Expect * list Frame) :=
  match t with
  | TLBracket => Some (EFirstItem, FArr [] :: stack)
  | TLBrace => Some (EFirstKey, stack)
  | _ => v ← scalar t; Some (reduce v stack)
  end.

Definition parse_step (st : Expect * list Frame) (t : Token)
  : option (Expect * list Frame) :=
  let '(e, stack) := st in
  match e with
  | EValue => parse_value t stack
  | EFirstItem =>
      match t, stack with
      | TRBracket, FArr _ :: st' => Some (reduce (JArr []) st')
      | _, _ => parse_value t stack
      end
  | EFirstKey =>
      match t with
      | TRBrace => Some (reduce (JObj ∅) stack)
      | TString k => Some (EColon ∅ k, stack)
      | _ => None
      end
  | EKey props =>
      match t with
      | TString k => Some (EColon props k, stack)
      | _ => None
      end
  | EColon props k =>
      match t with
      | TColon => Some (EValue, FObj props k :: stack)
      | _ => None
      end
  | ECommaOrClose =>
      match t, stack with
      | TComma, FArr _ :: _ => Some (EValue, stack)
      | TRBracket, FArr items :: st' => Some (reduce (JArr (rev items)) st')
      | TComma, FObj props _ :: st' => Some (EKey props, st')
      | TRBrace, FObj props _ :: st' => Some (reduce (JObj props) st')
      | _, _ => None
      end
  | EDone _ => None
  end.

Fixpoint parse (st : Expect * list Frame) (ts : list Token) : option JsValue :=
  match ts with
  | [] => match st with (EDone v, _) => Some v | _ => None end
  | t :: r => st' ← parse_step st t; parse st' r
  end.

(** [JSON.parse(text)] *)
Definition JSON_parse (text : string) : Completion JsValue :=
  of_option SyntaxError
    (lex LIdle (list_ascii_of_string text) ≫= parse (EValue, [])).

End Json.

(** ** The mutable world *)

(** Every mutation the code performs, in program order.  The log is ghost
    state: the program never reads it; it is what "in that order" refers
    to. *)
Inductive Effect : Type :=
  | SetHeader (name value : string)
  | DeleteHeader (name : string)
  | SetIsAuthenticated (b : bool)
  | SetInitializing (b : bool)
  | SetInstitutionId (v : option string)
  | SetRole (v : option string)
  | SetEmployeeId (v : option string)
  | SetItem (key value : string)
  | RemoveItem (key : string).

(** The five [useState] cells of [useAuthProviderState], the browser's
    [localStorage], and [api.defaults.headers.common] of the axios client. *)
Record World : Type := mkWorld {
  isAuthenticated : bool;
  initializing : bool;
  institutionId : option string;
  role : option string;
  employeeId : option string;
  localStorage : gmap string string;
  headers_common : gmap string string;
  effects : list Effect
}.

(** Statements that may mutate the world and may throw.  A [throw] keeps the
    mutations made before it. *)
Definition M (A : Type) : Type := World -> Completion A * World.

Definition ret {A} (a : A) : M A := fun w => (Return a, w).
Definition throw {A} (e : Exn) : M A := fun w => (Throw e, w).
Definition bind {A B} (m : M A) (k : A -> M B) : M B :=
  fun w =>
    match m w with
    | (Return a, w') => k a w'
    | (Throw e, w') => (Throw e, w')
    end.
Definition lift {A} (c : Completion A) : M A := fun w => (c, w).

Declare Scope js_scope.
Delimit Scope js_scope with js.
Notation "x <- m ;; k" := (bind m (fun x => k))
  (at level 100, m at next level, k at level 200, right associativity) : js_scope.
Notation "m ;; k" := (bind m (fun _ => k))
  (at level 100, k at level 200, right associativity) : js_scope.

(** [try { body } catch (error) { handler error }] *)
Definition try_catch {A} (body : M A) (handler : Exn -> M A) : M A :=
  fun w =>
    match body w with
    | (Return a, w') => (Return a, w')
    | (Throw e, w') => handler e w'
    end.

(** [try { body } finally { finalizer }]: the finalizer always runs; when it
    completes normally the outcome of the body stands. *)
Definition try_finally {A} (body : M A) (finalizer : M unit) : M A :=
  fun w =>
    let '(c, w') := body w in
    match finalizer w' with
    | (Return _, w'') => (c, w'')
    | (Throw e, w'') => (Throw e, w'')
    end.

Definition log (e : Effect) (w : World) : list Effect := effects w ++ [e].

(** *** React state setters *)

Definition setIsAuthenticated (b : bool) : M unit := fun w =>
  (Return tt,
   mkWorld b (initializing w) (institutionId w) (role w) (employeeId w)
     (localStorage w) (headers_common w) (log (SetIsAuthenticated b) w)).

Definition setInitializing (b : bool) : M unit := fun w =>
  (Return tt,
   mkWorld (isAuthenticated w) b (institutionId w) (role w) (employeeId w)
     (localStorage w) (headers_common w) (log (SetInitializing b) w)).

Definition setInstitutionId (v : option string) : M unit := fun w =>
  (Return tt,
   mkWorld (isAuthenticated w) (initializing w) v (role w) (employeeId w)
     (localStorage w) (headers_common w) (log (SetInstitutionId v) w)).

Definition setRole (v : option string) : M unit := fun w =>
  (Return tt,
   mkWorld (isAuthenticated w) (initializing w) (institutionId w) v (employeeId w)
     (localStorage w) (headers_common w) (log (SetRole v) w)).

Definition setEmployeeId (v : option string) : M unit := fun w =>
  (Return tt,
   mkWorld (isAuthenticated w) (initializing w) (institutionId w) (role w) v
     (localStorage w) (headers_common w) (log (SetEmployeeId v) w)).

(** *** [localStorage].  The storage is taken to be available and to have
    room: [getItem], [setItem] and [removeItem] do not throw. *)

Definition localStorage_setItem (key value : string) : M unit := fun w =>
  (Return tt,
   mkWorld (isAuthenticated w) (initializing w) (institutionId w) (role w)
     (employeeId w) (<[key := value]> (localStorage w)) (headers_common w)
     (log (SetItem key value) w)).

Definition localStorage_removeItem (key : string) : M unit := fun w =>
  (Return tt,
   mkWorld (isAuthenticated w) (initializing w) (institutionId w) (role w)
     (employeeId w) (delete key (localStorage w)) (headers_common w)
     (log (RemoveItem key) w)).

(** ToString of a [string | null] argument. *)
Definition to_string (v : option string) : string := default "null" v.

(** ** src/api/httpClient.ts *)

(** [api.defaults.headers.common.Authorization = value] *)
Definition set_default_header (name value : string) : M unit := fun w =>
  (Return tt,
   mkWorld (isAuthenticated w) (initializing w) (institutionId w) (role w)
     (employeeId w) (localStorage w) (<[name := value]> (headers_common w))
     (log (SetHeader name value) w)).

(** [delete api.defaults.headers.common.Authorization] *)
Definition delete_default_header (name : string) : M unit := fun w =>
  (Return tt,
   mkWorld (isAuthenticated w) (initializing w) (institutionId w) (role w)
     (employeeId w) (localStorage w) (delete name (headers_common w))
     (log (DeleteHeader name) w)).

(** [setAuthToken(token)] *)
Definition setAuthToken (token : option string) : M unit :=
  if truthy token
  then set_default_header "Authorization" ("Bearer " ++ to_string token)
  else delete_default_header "Authorization".

(** What the server did with a request: a response that axios resolves, a
    response that axios rejects ([error.response] is set), or no response. *)
Inductive HttpOutcome : Type :=
  | Resolved (data : JsValue)
  | ErrorResponse (status : Z) (data : JsValue)
  | NoResponse.

(** [api.interceptors.response.use(response => response, error => ...)].
    The request interceptor, which only sets [Accept-Language] on the
    outgoing request, changes none of the state modelled here. *)
Definition response_interceptor (o : HttpOutcome) : M JsValue :=
  match o with
  | Resolved data => ret data
  | ErrorResponse status data =>
      let message :=
        or (or (or (opt_get data "message") (opt_get data "error"))
               (opt_get data "title"))
           (JStr "حدث خطأ غير متوقع") in
      ((if (status =? 401)%Z then setAuthToken None else ret tt) ;;
       error <- lift (new_ApiError (Some status) message data) ;;
       throw error)%js
  | NoResponse =>
      (error <- lift (new_ApiError None (JStr "تعذر الاتصال بالخادم") JUndefined) ;;
       throw error)%js
  end.

(** [BaseService.post]: [const { data } = await api.post(url, body); return
    data].  The answer of the server is the parameter [o]. *)
Definition post (url : string) (o : HttpOutcome) : M JsValue :=
  response_interceptor o.

(** Any other call of a resource service goes through the same client. *)
Definition request (o : HttpOutcome) : M JsValue := response_interceptor o.

(** [institutionAuthService] *)
Definition institutionAuthService_login (payload : JsValue) (o : HttpOutcome) : M JsValue :=
  post "/InstitutionAuth/Login" o.
Definition institutionAuthService_refresh (o : HttpOutcome) : M JsValue :=
  post "/InstitutionAuth/Refresh" o.
Definition institutionAuthService_logout (o : HttpOutcome) : M JsValue :=
  post "/InstitutionAuth/Logout" o.

(** ** src/providers/AuthProvider.tsx *)

(** [s.split(sep)] for a one-character separator. *)
Fixpoint split (sep : ascii) (s : string) : list string :=
  match s with
  | EmptyString => [""]
  | String c r =>
      if Ascii.eqb c sep then "" :: split sep r
      else match split sep r with
           | h :: t => String c h :: t
           | [] => [String c ""]
           end
  end.

(** [s.replace(/a/g, 'b')] for single characters. *)
Fixpoint replace_all (a b : ascii) (s : string) : string :=
  match s with
  | EmptyString => EmptyString
  | String c r => String (if Ascii.eqb c a then b else c) (replace_all a b r)
  end.

(** The [try] block of [decodeJwt].  [const [, payload] = token.split('.')]
    takes the second segment, [undefined] when there is none. *)
Definition decodeJwt_try (token : string) : Completion JsValue :=
  match split "." token with
  | _ :: payload :: _ =>
      if String.eqb payload "" then Return JNull
      else
        let normalized := replace_all "_" "/" (replace_all "-" "+" payload) in
        cbind (Platform.atob normalized) (fun decoded =>
        cbind (Platform.decodeURIComponent (Platform.escape decoded)) (fun text =>
        Json.JSON_parse text))
  | _ => Return JNull
  end.

(** [decodeJwt(token)] *)
Definition decodeJwt (token : string) : Completion JsValue :=
  try_catch_pure (decodeJwt_try token) (fun _ => Return JNull).

#[local] Open Scope js_scope.

(** [persistInstitutionId(value)] *)
Definition persistInstitutionId (value : option string) : M unit :=
  setInstitutionId value ;;
  if truthy value
  then localStorage_setItem "institutionId" (to_string value)
  else localStorage_removeItem "institutionId".

(** [persistRole(value)] *)
Definition persistRole (value : option string) : M unit :=
  setRole value ;;
  if truthy value
  then localStorage_setItem "employeeRole" (to_string value)
  else localStorage_removeItem "employeeRole".

(** [persistEmployeeId(value)] *)
Definition persistEmployeeId (value : option string) : M unit :=
  setEmployeeId value ;;
  if truthy value
  then localStorage_setItem "employeeId" (to_string value)
  else localStorage_removeItem "employeeId".

(** The object [applyAuthResponse] returns. *)
Record Derived : Type := mkDerived {
  d_role : option string;
  d_institutionId : option string;
  d_employeeId : option string
}.

(** [isEmployeeRole(v) ? v : null]: a value that passes the type guard, at
    its type [EmployeeRole]. *)
Definition as_role (v : JsValue) : option string :=
  match v with
  | JStr s => if isEmployeeRole v then Some s else None
  | _ => None
  end.

(** The part of [applyAuthResponse] that reads the decoded claims; it yields
    the three [next...] variables. *)
Definition apply_claims (claims : JsValue) : M Derived :=
  let derivedInstitutionId := nonempty_string (get claims "institutionId") in
  nextInstitutionId <-
    (if truthy derivedInstitutionId
     then persistInstitutionId derivedInstitutionId ;; ret derivedInstitutionId
     else ret None) ;;
  let derivedRole := as_role (get claims "role") in
  nextRole <-
    (if truthy derivedRole
     then persistRole derivedRole ;; ret derivedRole
     else ret None) ;;
  let derivedEmployeeId := nonempty_string (get claims "sub") in
  nextEmployeeId <-
    (if truthy derivedEmployeeId
     then persistEmployeeId derivedEmployeeId ;; ret derivedEmployeeId
     else ret None) ;;
  ret (mkDerived nextRole nextInstitutionId nextEmployeeId).

(** [applyAuthResponse(response)] *)
Definition applyAuthResponse (response : JsValue) : M Derived :=
  if negb (to_boolean response) || negb (String.eqb (typeof response) "object")
  then ret (mkDerived None None None)
  else
    let payload := response in
    let maybeToken := get payload "accessToken" in
    next <-
      (match nonempty_string maybeToken with
       | Some token =>
           setAuthToken (Some token) ;;
           claims <- lift (decodeJwt token) ;;
           if to_boolean claims then apply_claims claims
           else ret (mkDerived None None None)
       | None => ret (mkDerived None None None)
       end) ;;
    let maybeInstitutionId :=
      or (or (get payload "institutionId")
             (opt_get (get payload "institution") "id"))
         (opt_get (get payload "user") "institutionId") in
    nextInstitutionId <-
      (match nonempty_string maybeInstitutionId with
       | Some v =>
           persistInstitutionId (Some v) ;;
           ret (if negb (truthy (d_institutionId next)) then Some v
                else d_institutionId next)
       | None => ret (d_institutionId next)
       end) ;;
    let maybeRole := or (get payload "role") (opt_get (get payload "user") "role") in
    nextRole <-
      (match as_role maybeRole with
       | Some v =>
           if negb (truthy (d_role next))
           then persistRole (Some v) ;; ret (Some v)
           else ret (d_role next)
       | None => ret (d_role next)
       end) ;;
    let maybeEmployeeId := or (get payload "id") (opt_get (get payload "user") "id") in
    nextEmployeeId <-
      (match nonempty_string maybeEmployeeId with
       | Some v =>
           if negb (truthy (d_employeeId next))
           then persistEmployeeId (Some v) ;; ret (Some v)
           else ret (d_employeeId next)
       | None => ret (d_employeeId next)
       end) ;;
    ret (mkDerived nextRole nextInstitutionId nextEmployeeId).

(** The cleanup shared by the [catch] of [refresh] and [login] and by the
    [finally] of [logout]. *)
Definition clear_session : M unit :=
  setAuthToken None ;;
  setIsAuthenticated false ;;
  persistInstitutionId None ;;
  persistRole None ;;
  persistEmployeeId None.

(** [refresh()] *)
Definition refresh (o : HttpOutcome) : M unit :=
  try_catch
    (response <- institutionAuthService_refresh o ;;
     applyAuthResponse response ;;
     setIsAuthenticated true)
    (fun error => clear_session ;; throw error).

(** The boot effect: [try { await refresh() } catch { console.info(...) }
    finally { setInitializing(false) }]. *)
Definition boot (o : HttpOutcome) : M unit :=
  try_finally
    (try_catch (refresh o) (fun error => ret tt))
    (setInitializing false).

(** [login(payload)] *)
Definition login (payload : JsValue) (o : HttpOutcome) : M unit :=
  try_catch
    (response <- institutionAuthService_login payload o ;;
     applyAuthResponse response ;;
     setIsAuthenticated true)
    (fun error => clear_session ;; throw error).

(** [logout()] *)
Definition logout (o : HttpOutcome) : M unit :=
  try_finally
    (institutionAuthService_logout o ;; ret tt)
    clear_session.

(** The first render of the provider: the [useState] initializers, over the
    [localStorage] the browser kept ([stored !! key] is
    [localStorage.getItem(key)]).  The axios client was just created: of its
    default headers only those the program sets are modelled, and
    [Authorization] is not among the ones axios presets. *)
Definition mount (stored : gmap string string) : World :=
  {| isAuthenticated := false;
     initializing := true;
     institutionId := stored !! "institutionId";
     role :=
       (let s := stored !! "employeeRole" in
        if truthy s && isEmployeeRole (JStr (to_string s)) then s else None);
     employeeId := stored !! "employeeId";
     localStorage := stored;
     headers_common := ∅;
     effects := [] |}.

(** ** src/components/ProtectedRoute.tsx *)

Inductive Element : Type :=
  | LoadingPlaceholder
  | Navigate (to : string) (replace : bool)
  | Outlet.

(** [allowedRoles.includes(role)] *)
Definition includes (l : list string) (x : string) : bool :=
  existsb (String.eqb x) l.

(** The data fields of [AuthContextValue]. *)
Record AuthContextValue : Type := mkAuthContextValue {
  ctx_isAuthenticated : bool;
  ctx_initializing : bool;
  ctx_institutionId : option string;
  ctx_role : option string;
  ctx_employeeId : option string
}.

(** [useAuth()] *)
Definition useAuth (w : World) : AuthContextValue :=
  {| ctx_isAuthenticated := isAuthenticated w;
     ctx_initializing := initializing w;
     ctx_institutionId := institutionId w;
     ctx_role := role w;
     ctx_employeeId := employeeId w |}.

(** [ProtectedRoute({ allowedRoles })], over the value of [useAuth()]. *)
Definition ProtectedRoute (allowedRoles : option (list string)) (auth : AuthContextValue)
  : Element :=
  let role := ctx_role auth in
  if ctx_initializing auth then LoadingPlaceholder
  else if negb (ctx_isAuthenticated auth) then Navigate "/login" true
  else
    match allowedRoles with
    | Some roles =>
        if (0 <? length roles)%nat then
          if negb (truthy role) || negb (includes roles (to_string role))
          then
            let fallback :=
              if truthy role then getDefaultRouteForRole role
              else "/unauthorized" in
            Navigate fallback true
          else Outlet
        else Outlet
    | None => Outlet
    end.

(** ** src/AppRouter.tsx *)

(** The pages the router mounts. *)
Inductive Page : Type :=
  | LoginPage | UnauthorizedPage
  | InstitutionPage | EmployeesPage | BeneficiariesPage | BeneficiaryDetailsPage
  | NotificationsPage | DeliveryPage | PostsPage
  | DistributerPage | DistributionDetailsPage | RoundDetailsPage.

(** The [element] of a [<Route>]: a page, the guard with its allow-list, or
    [<Navigate>]. *)
Inductive RouteElement : Type :=
  | PageElement (page : Page)
  | ProtectedRouteElement (allowedRoles : option (list string))
  | NavigateElement (to : string) (replace : bool).

(** [<Route path=... element=... />], and the layout route
    [<Route element=...> children </Route>], which has no path. *)
Inductive RouteObject : Type :=
  | Route (path : string) (element : RouteElement)
  | Layout (element : RouteElement) (children : list RouteObject).

(** [AppRouter()] *)
Definition AppRouter : list RouteObject :=
  [ Route "/login" (PageElement LoginPage);
    Route "/unauthorized" (PageElement UnauthorizedPage);
    Layout (ProtectedRouteElement (Some ["ADMIN"]))
      [ Route "/" (PageElement InstitutionPage);
        Route "/employees" (PageElement EmployeesPage);
        Route "/beneficiaries" (PageElement BeneficiariesPage);
        Route "/beneficiaries/:beneficiaryId" (PageElement BeneficiaryDetailsPage);
        Route "/notifications" (PageElement NotificationsPage) ];
    Layout (ProtectedRouteElement (Some ["DELIVERER"]))
      [ Route "/deliver" (PageElement DeliveryPage) ];
    Layout (ProtectedRouteElement (Some ["PUBLISHER"]))
      [ Route "/posts" (PageElement PostsPage) ];
    Layout (ProtectedRouteElement (Some ["DISTRIBUTER"]))
      [ Route "/distribution" (PageElement DistributerPage);
        Route "/distribution/:distributionId" (PageElement DistributionDetailsPage);
        Route "/distribution/:distributionId/round/:roundId"
          (PageElement RoundDetailsPage) ];
    Route "*" (NavigateElement "/login" true) ].

(** A route with the elements of the layout routes around it, outermost
    first. *)
Record Branch : Type := mkBranch {
  branch_path : string;
  branch_layouts : list RouteElement;
  branch_element : RouteElement
}.

(** The branches of a route tree, in the order of declaration. *)
Fixpoint branches_of (layouts : list RouteElement) (r : RouteObject) : list Branch :=
  match r with
  | Route path element => [mkBranch path layouts element]
  | Layout element children =>
      (fix go (l : list RouteObject) : list Branch :=
         match l with
         | [] => []
         | c :: l' => (branches_of (layouts ++ [element]) c ++ go l')%list
         end) children
  end.

Definition branches (routes : list RouteObject) : list Branch :=
  flat_map (branches_of []) routes.

(** What a location shows once its elements have rendered and their effects
    have run: the loading placeholder, a page, a navigation to another
    location, or nothing (an outlet with no route below it). *)
Inductive View : Type :=
  | ViewLoading
  | ViewPage (page : Page)
  | ViewNavigate (to : string) (replace : bool)
  | ViewNothing.

(** The component of the login page, [Login()] of src/pages/Login.tsx, over
    the value of [useAuth()]: its effect navigates to the landing route of
    the role, replacing the location, as soon as the session is
    authenticated and no longer initializing; the component returns the
    loading placeholder while the session initializes and the form
    otherwise. *)
Definition Login_view (auth : AuthContextValue) : View :=
  if negb (ctx_initializing auth) && ctx_isAuthenticated auth
  then ViewNavigate (getDefaultRouteForRole (ctx_role auth)) true
  else if ctx_initializing auth then ViewLoading
  else ViewPage LoginPage.

(** The other pages render their content and navigate nowhere by
    themselves. *)
Definition page_view (page : Page) (auth : AuthContextValue) : View :=
  match page with
  | LoginPage => Login_view auth
  | _ => ViewPage page
  end.

(** An element, [outlet] being what the route below it shows. *)
Definition element_view (e : RouteElement) (auth : AuthContextValue) (outlet : View)
  : View :=
  match e with
  | PageElement page => page_view page auth
  | NavigateElement to replace => ViewNavigate to replace
  | ProtectedRouteElement allowedRoles =>
      match ProtectedRoute allowedRoles auth with
      | LoadingPlaceholder => ViewLoading
      | Navigate to replace => ViewNavigate to replace
      | Outlet => outlet
      end
  end.

(** What a matched branch shows. *)
Definition branch_view (b : Branch) (auth : AuthContextValue) : View :=
  fold_right (fun e outlet => element_view e auth outlet)
    (element_view (branch_element b) auth ViewNothing) (branch_layouts b).

(** The route a navigation to a static path lands on: the route declared
    with that path.  Every navigation the program makes by itself names such
    a path ([/login], [/unauthorized] and the landing routes); a location
    with parameters is not resolved here. *)
Definition route_at (routes : list RouteObject) (to : string) : option Branch :=
  List.find (fun b => String.eqb (branch_path b) to) (branches routes).

(** Following the navigations from a matched route until a location shows
    something else, at most [fuel] times: the route reached and what it
    shows. *)
Fixpoint settle (fuel : nat) (auth : AuthContextValue) (b : Branch)
  : option (Branch * View) :=
  match branch_view b auth with
  | ViewNavigate to _ =>
      match fuel with
      | O => None
      | S n => b' ← route_at AppRouter to; settle n auth b'
      end
  | v => Some (b, v)
  end.

(** ** src/components/Header.tsx *)

Record NavItem : Type := mkNavItem {
  nav_to : string;
  nav_label : string;
  nav_roles : list string
}.

(** [NAV_ITEMS] *)
Definition NAV_ITEMS : list NavItem :=
  [ mkNavItem "/" "الرئيسية" ["ADMIN"];
    mkNavItem "/employees" "الموظفون" ["ADMIN"];
    mkNavItem "/beneficiaries" "المستفيدون" ["ADMIN"];
    mkNavItem "/notifications" "الرسائل" ["ADMIN"];
    mkNavItem "/posts" "المنشورات" ["PUBLISHER"];
    mkNavItem "/distribution" "التوزيعات" ["DISTRIBUTER"];
    mkNavItem "/deliver" "تسليم القسائم" ["DELIVERER"] ].

(** [showPrivateSection] *)
Definition showPrivateSection (auth : AuthContextValue) : bool :=
  ctx_isAuthenticated auth && negb (ctx_initializing auth).

(** [allowedNavItems] *)
Definition allowedNavItems (role : option string) : list NavItem :=
  if negb (truthy role) then []
  else List.filter (fun item => includes (nav_roles item) (to_string role)) NAV_ITEMS.

(** [activePath]: [location.pathname || '/'] *)
Definition activePath (pathname : string) : string :=
  if negb (String.eqb pathname "") then pathname else "/".

(** [isActive], for one item: [item.to === '/' ? activePath === '/' :
    activePath.startsWith(item.to)]. *)
Definition isActive (item : NavItem) (active : string) : bool :=
  if String.eqb (nav_to item) "/" then String.eqb active "/"
  else String.prefix (nav_to item) active.

(** The links of the [<nav>] of the header, each with its target, its label
    and whether it is drawn as active; [None] when the [<nav>] is not
    rendered. *)
Definition Header_nav (auth : AuthContextValue) (pathname : string)
  : option (list (string * string * bool)) :=
  let items := allowedNavItems (ctx_role auth) in
  if showPrivateSection auth && (0 <? length items)%nat
  then Some (map (fun item =>
                    (nav_to item, nav_label item, isActive item (activePath pathname)))
               items)
  else None.

(** *** The state of the components

    The session, and what the components keep on top of it: the
    [loggingOut] state of the header; the [error] and [rememberMe] states of
    the login page and the email field of its form; and the calls of
    [navigate], in order, each with its [replace] option.  A handler reads
    the state of the render it belongs to, which is taken to be the current
    one. *)
Record Screen : Type := mkScreen {
  session : World;
  loggingOut : bool;
  login_error : string;
  rememberMe : bool;
  email_field : option string;
  navigations : list (string * bool)
}.

(** Statements of a component: they may change the screen and may throw. *)
Definition UI (A : Type) : Type := Screen -> Completion A * Screen.

Definition ui_ret {A} (a : A) : UI A := fun s => (Return a, s).
Definition ui_bind {A B} (m : UI A) (k : A -> UI B) : UI B :=
  fun s =>
    match m s with
    | (Return a, s') => k a s'
    | (Throw e, s') => (Throw e, s')
    end.
Definition ui_try_catch {A} (body : UI A) (handler : Exn -> UI A) : UI A :=
  fun s =>
    match body s with
    | (Return a, s') => (Return a, s')
    | (Throw e, s') => handler e s'
    end.
Definition ui_try_finally {A} (body : UI A) (finalizer : UI unit) : UI A :=
  fun s =>
    let '(c, s') := body s in
    match finalizer s' with
    | (Return _, s'') => (c, s'')
    | (Throw e, s'') => (Throw e, s'')
    end.

Declare Scope ui_scope.
Delimit Scope ui_scope with ui.
Notation "x <- m ;; k" := (ui_bind m (fun x => k))
  (at level 100, m at next level, k at level 200, right associativity) : ui_scope.
Notation "m ;; k" := (ui_bind m (fun _ => k))
  (at level 100, k at level 200, right associativity) : ui_scope.

(** A statement of the provider or of the storage, run on the session. *)
Definition in_session {A} (m : M A) : UI A := fun s =>
  let '(c, w) := m (session s) in
  (c, mkScreen w (loggingOut s) (login_error s) (rememberMe s) (email_field s)
        (navigations s)).

Definition setLoggingOut (b : bool) : UI unit := fun s =>
  (Return tt,
   mkScreen (session s) b (login_error s) (rememberMe s) (email_field s)
     (navigations s)).

Definition setError (msg : string) : UI unit := fun s =>
  (Return tt,
   mkScreen (session s) (loggingOut s) msg (rememberMe s) (email_field s)
     (navigations s)).

Definition setRememberMe (b : bool) : UI unit := fun s =>
  (Return tt,
   mkScreen (session s) (loggingOut s) (login_error s) b (email_field s)
     (navigations s)).

(** [setValue('email', value)] *)
Definition setValue_email (value : string) : UI unit := fun s =>
  (Return tt,
   mkScreen (session s) (loggingOut s) (login_error s) (rememberMe s) (Some value)
     (navigations s)).

(** [navigate(to)] and [navigate(to, { replace: true })] *)
Definition navigate (to : string) (replace : bool) : UI unit := fun s =>
  (Return tt,
   mkScreen (session s) (loggingOut s) (login_error s) (rememberMe s)
     (email_field s) (navigations s ++ [(to, replace)])).

(** [handleLogout()], [o] being what the server does with the logout
    request. *)
Definition handleLogout (o : HttpOutcome) : UI unit := fun s =>
  if loggingOut s then (Return tt, s)
  else
    (setLoggingOut true ;;
     ui_try_finally
       (in_session (logout o) ;; navigate "/login" false)
       (setLoggingOut false))%ui s.

(** ** src/pages/Login.tsx *)

(** The first effect of the login page: it restores the remembered email. *)
Definition Login_restore : UI unit := fun s =>
  let stored := localStorage (session s) in
  let remembered := bool_decide (stored !! "rememberMe" = Some "true") in
  let rememberedEmail :=
    if truthy (stored !! "rememberEmail")
    then to_string (stored !! "rememberEmail") else "" in
  if remembered && negb (String.eqb rememberedEmail "")
  then (setValue_email rememberedEmail ;; setRememberMe true)%ui s
  else (Return tt, s).

(** The object [{ email, password }] that [onSubmit] passes to [login]. *)
Definition credentials (email password : string) : JsValue :=
  obj [("email", JStr email); ("password", JStr password)].

(** [onSubmit({ email, password })], [o] being what the server does with
    the login request. *)
Definition onSubmit (email password : string) (o : HttpOutcome) : UI unit :=
  (setError "" ;;
   ui_try_catch
     (in_session (login (credentials email password) o) ;;
      fun s =>
        (if rememberMe s
         then in_session (localStorage_setItem "rememberMe" "true") ;;
              in_session (localStorage_setItem "rememberEmail" email)
         else in_session (localStorage_removeItem "rememberMe") ;;
              in_session (localStorage_removeItem "rememberEmail")) s)
     (fun _ => setError "فشل تسجيل الدخول، تأكد من صحة بياناتك"))%ui.

(** The login page as it mounts over a session: its states at their
    initial values, and the first effect run. *)
Definition Login_mount (w : World) : Screen :=
  (Login_restore (mkScreen w false "" false None [])).2.

(** ** src/pages/RoundDetails.tsx and src/pages/Delivery.tsx

    The two forms of the coupon rounds.  Their handlers use [split] and
    [trim], which look at the UTF-16 code units of a string one by one: the
    text of a field is kept as the list of its code units. *)

Definition Text := list Z.

(** The code units of [WhiteSpace] and [LineTerminator] (ECMAScript, 12.2 and
    12.3): what [\s] matches and what [trim] removes. *)
Definition is_white_space (u : Z) : bool :=
  ((u =? 9) || (u =? 10) || (u =? 11) || (u =? 12) || (u =? 13) || (u =? 32)
   || (u =? 160) || (u =? 5760) || ((8192 <=? u) && (u <=? 8202))
   || (u =? 8232) || (u =? 8233) || (u =? 8239) || (u =? 8287)
   || (u =? 12288) || (u =? 65279))%Z.

Fixpoint trimStart (s : Text) : Text :=
  match s with
  | u :: r => if is_white_space u then trimStart r else s
  | [] => []
  end.

Definition trimEnd (s : Text) : Text := rev (trimStart (rev s)).

(** [s.trim()] *)
Definition trim (s : Text) : Text := trimEnd (trimStart s).

(** The class [[,\s]]. *)
Definition separator (u : Z) : bool := (u =? 44)%Z || is_white_space u.

(** [s.split(/[,\s]+/)]: the pieces between the maximal runs of separators,
    an empty piece before a run that opens the string and after one that
    closes it.  [in_run] tells that the code unit before was part of a
    match, which the greedy [+] then extends. *)
Fixpoint split_runs (in_run : bool) (s : Text) : list Text :=
  match s with
  | [] => [[]]
  | u :: r =>
      if separator u then
        if in_run then split_runs true r else [] :: split_runs true r
      else
        match split_runs false r with
        | piece :: pieces => (u :: piece) :: pieces
        | [] => [[u]]
        end
  end.

(** [Boolean(s)] for a string. *)
Definition nonempty (s : Text) : bool :=
  match s with [] => false | _ => true end.

(** What the submit handler of the round page does: it shows a message, or
    starts the mutation with the identifiers. *)
Inductive Submission :=
  | SetAllocationFeedback (message : string)
  | AllocateMutate (beneficiaryIds : list Text).

(** [allocationInput.split(/[,\s]+/).map((id) => id.trim()).filter(Boolean)] *)
Definition allocation_ids (allocationInput : Text) : list Text :=
  List.filter nonempty (trim <$> split_runs false allocationInput).

(** [handleAllocationSubmit(event)] *)
Definition handleAllocationSubmit (allocationInput : Text) : Submission :=
  let ids := allocation_ids allocationInput in
  if (length ids =? 0)%nat
  then SetAllocationFeedback "يرجى إدخال معرف مستفيد واحد على الأقل"
  else AllocateMutate ids.

(** What the submit handler of the delivery page does: it shows a message,
    or starts the mutation, whose [mutationFn] posts the two fields. *)
Inductive Verification :=
  | SetError (message : string)
  | Deliver (roundId couponCode : Text).

(** [mutationFn] of [deliverMutation] *)
Definition deliverMutation (roundId couponCode : Text) : Verification :=
  Deliver (trim roundId) (trim couponCode).

(** [handleVerify(event)] *)
Definition handleVerify (roundId couponCode : Text) : Verification :=
  if negb (nonempty (trim roundId)) || negb (nonempty (trim couponCode))
  then SetError "يرجى إدخال رقم الجولة ورمز القسيمة"
  else deliverMutation roundId couponCode.

(** * The vocabulary of the properties *)

(** ** Statements and their outcomes *)

(** [wp m Q w]: running [m] in [w] ends in a completion and a world that
    satisfy [Q]. *)
Definition wp {A} (m : M A) (Q : Completion A -> World -> Prop) (w : World) : Prop :=
  Q (m w).1 (m w).2.

(** [maintains I m]: [m] keeps the invariant [I], however it completes. *)
Definition maintains {A} (I : World -> Prop) (m : M A) : Prop :=
  forall w, I w -> I (m w).2.

(** ** What a response supplies *)

(** [!response || typeof response !== 'object'] is false. *)
Definition is_object (v : JsValue) : bool :=
  to_boolean v && String.eqb (typeof v) "object".

(** The bearer token of a response: a non-empty string under
    [accessToken]. *)
Definition token_of (R : JsValue) : option string :=
  nonempty_string (get R "accessToken").

(** The decoded claims of the token of a response, [null] when there is no
    token or it does not decode. *)
Definition claims_of (R : JsValue) : JsValue :=
  match token_of R with
  | Some token =>
      match decodeJwt token with
      | Return claims => claims
      | Throw _ => JNull
      end
  | None => JNull
  end.

Definition claim_institutionId (R : JsValue) : option string :=
  nonempty_string (get (claims_of R) "institutionId").
Definition claim_role (R : JsValue) : option string :=
  as_role (get (claims_of R) "role").
Definition claim_employeeId (R : JsValue) : option string :=
  nonempty_string (get (claims_of R) "sub").

(** The sources of the institution id fallback, in the declared order. *)
Definition institutionId_sources (R : JsValue) : list JsValue :=
  [get R "institutionId";
   opt_get (get R "institution") "id";
   opt_get (get R "user") "institutionId"].

Definition fallback_institutionId (R : JsValue) : option string :=
  nonempty_string
    (or (or (get R "institutionId") (opt_get (get R "institution") "id"))
        (opt_get (get R "user") "institutionId")).
Definition fallback_role (R : JsValue) : option string :=
  as_role (or (get R "role") (opt_get (get R "user") "role")).
Definition fallback_employeeId (R : JsValue) : option string :=
  nonempty_string (or (get R "id") (opt_get (get R "user") "id")).

(** The first of two optional values that is present. *)
Definition first_some {A} (a b : option A) : option A :=
  match a with Some _ => a | None => b end.

(** The first value of a list that is truthy: what a chain of [||] selects
    when one of its operands is truthy. *)
Definition first_truthy (l : list JsValue) : option JsValue := List.find to_boolean l.

(** The state a response leaves behind, field by field.  Claims come first
    for the value returned and for the role and the employee id that are
    stored; for the institution id the fallback is stored over the claim. *)
Record applied (R : JsValue) (w : World) (d : Derived) (w' : World) : Prop := {
  ap_derived :
    d = mkDerived (first_some (claim_role R) (fallback_role R))
          (first_some (claim_institutionId R) (fallback_institutionId R))
          (first_some (claim_employeeId R) (fallback_employeeId R));
  ap_isAuthenticated : isAuthenticated w' = isAuthenticated w;
  ap_initializing : initializing w' = initializing w;
  ap_institutionId :
    institutionId w' =
    first_some (fallback_institutionId R)
      (first_some (claim_institutionId R) (institutionId w));
  ap_role :
    role w' = first_some (claim_role R) (first_some (fallback_role R) (role w));
  ap_employeeId :
    employeeId w' =
    first_some (claim_employeeId R)
      (first_some (fallback_employeeId R) (employeeId w));
  ap_stored_institutionId :
    localStorage w' !! "institutionId" =
    first_some (fallback_institutionId R)
      (first_some (claim_institutionId R) (localStorage w !! "institutionId"));
  ap_stored_role :
    localStorage w' !! "employeeRole" =
    first_some (claim_role R)
      (first_some (fallback_role R) (localStorage w !! "employeeRole"));
  ap_stored_employeeId :
    localStorage w' !! "employeeId" =
    first_some (claim_employeeId R)
      (first_some (fallback_employeeId R) (localStorage w !! "employeeId"));
  ap_headers :
    headers_common w' =
    match token_of R with
    | Some t => <["Authorization" := "Bearer " ++ t]> (headers_common w)
    | None => headers_common w
    end
}.

(** A session with nothing stored under the three keys and no credential. *)
Definition fresh (w : World) : Prop :=
  localStorage w !! "institutionId" = None
  /\ localStorage w !! "employeeRole" = None
  /\ localStorage w !! "employeeId" = None
  /\ headers_common w !! "Authorization" = None.

(** ** The settled worlds *)

(** The world after the cleanup: the credential goes first, then the
    authenticated flag, then the three session fields, each from the React
    state and from [localStorage]. *)
Definition cleared (w : World) : World :=
  mkWorld false (initializing w) None None None
    (delete "employeeId"
       (delete "employeeRole" (delete "institutionId" (localStorage w))))
    (delete "Authorization" (headers_common w))
    (effects w ++
     [DeleteHeader "Authorization"; SetIsAuthenticated false;
      SetInstitutionId None; RemoveItem "institutionId";
      SetRole None; RemoveItem "employeeRole";
      SetEmployeeId None; RemoveItem "employeeId"]).

(** The world after the interceptor dropped the credential. *)
Definition without_credential (w : World) : World :=
  mkWorld (isAuthenticated w) (initializing w) (institutionId w) (role w)
    (employeeId w) (localStorage w) (delete "Authorization" (headers_common w))
    (effects w ++ [DeleteHeader "Authorization"]).

(** The message the interceptor extracts from the body of an error. *)
Definition error_message (data : JsValue) : JsValue :=
  or (or (or (opt_get data "message") (opt_get data "error"))
         (opt_get data "title"))
     (JStr "حدث خطأ غير متوقع").

(** The rejection a failed call surfaces as: the [ApiError] of the
    interceptor, or the [TypeError] of its construction. *)
Definition rejection (status : option Z) (data : JsValue) : Exn :=
  match status with
  | Some st =>
      if ToString_throws (error_message data) then TypeError
      else ApiError (Some st) (error_message data) data
  | None => ApiError None (JStr "تعذر الاتصال بالخادم") JUndefined
  end.

(** The world the interceptor leaves, and the error it rejects with, for an
    outcome that is not a success. *)
Definition intercepted (o : HttpOutcome) (w : World) : World :=
  match o with
  | ErrorResponse status _ => if (status =? 401)%Z then without_credential w else w
  | _ => w
  end.

Definition rejection_of (o : HttpOutcome) : Exn :=
  match o with
  | ErrorResponse status data => rejection (Some status) data
  | _ => rejection None JUndefined
  end.

Definition failed (o : HttpOutcome) : Prop :=
  match o with Resolved _ => False | _ => True end.

(** The world after a successful [login] or [refresh]. *)
Definition signed_in (data : JsValue) (w : World) : World :=
  (setIsAuthenticated true (applyAuthResponse data w).2).2.

(** The world after the boot effect settled. *)
Definition booted (w : World) : World := (setInitializing false w).2.

(** ** The session over time *)

(** What can happen to the session: the boot effect, the three operations
    of the context, and any other request through the HTTP client; each
    with the answer of the server.  [applyAuthResponse] is not exported by
    the provider: it runs inside [login] and [refresh] only. *)
Inductive Op : Type :=
  | Boot (o : HttpOutcome)
  | Login (payload : JsValue) (o : HttpOutcome)
  | Logout (o : HttpOutcome)
  | Refresh (o : HttpOutcome)
  | Request (o : HttpOutcome).

(** The world once the operation has settled. *)
Definition run (op : Op) (w : World) : World :=
  match op with
  | Boot o => (boot o w).2
  | Login payload o => (login payload o w).2
  | Logout o => (logout o w).2
  | Refresh o => (refresh o w).2
  | Request o => (request o w).2
  end.

(** The world after the provider mounted over [stored] and the operations
    settled one after the other. *)
Definition after (stored : gmap string string) (ops : list Op) : World :=
  fold_left (fun w op => run op w) ops (mount stored).

(** ** The route guard as the specification words it *)

Inductive GuardOutcome : Type :=
  | Loading
  | RedirectLogin
  | RedirectRoleDefault (r : EmployeeRole)
  | RedirectUnauthorized
  | Render.

(** The default landing route of each role. *)
Definition landing_route (r : EmployeeRole) : string :=
  match r with
  | ADMIN => "/"
  | DISTRIBUTER => "/distribution"
  | PUBLISHER => "/posts"
  | DELIVERER => "/deliver"
  end.

(** The four rules of the guard, in order. *)
Definition guard_rule (initializing authenticated : bool)
    (role : option EmployeeRole) (allowedRoles : option (list string)) : GuardOutcome :=
  if initializing then Loading
  else if negb authenticated then RedirectLogin
  else
    match allowedRoles with
    | Some (a :: l) =>
        match role with
        | None => RedirectUnauthorized
        | Some r =>
            if bool_decide (role_name r ∈ a :: l) then Render
            else RedirectRoleDefault r
        end
    | _ => Render
    end.

(** What each outcome is on the screen. *)
Definition element_of (o : GuardOutcome) : Element :=
  match o with
  | Loading => LoadingPlaceholder
  | RedirectLogin => Navigate "/login" true
  | RedirectRoleDefault r => Navigate (landing_route r) true
  | RedirectUnauthorized => Navigate "/unauthorized" true
  | Render => Outlet
  end.

(** ** The claims the code does not meet, as the specification states them *)

(** The claim as the specification states it: the header is attached when
    the flag is true and absent when it is false. *)
Definition credential_follows_flag (w : World) : Prop :=
  (isAuthenticated w = true -> is_Some (headers_common w !! "Authorization"))
  /\ (isAuthenticated w = false -> headers_common w !! "Authorization" = None).

(** The claim as the specification states it: a response that holds a role
    value outside the enum, in the claims of its token, at its top level or
    in its nested user object, results in no derived role and in no
    persisted role. *)
Definition role_positions (R : JsValue) : list JsValue :=
  [get (claims_of R) "role"; get R "role"; opt_get (get R "user") "role"].
Definition invalid_role_yields_null (R : JsValue) (w : World) : Prop :=
  (exists v, v ∈ role_positions R /\ v <> JUndefined /\ isEmployeeRole v = false) ->
  forall d w',
    applyAuthResponse R w = (Return d, w') ->
    d_role d = None /\ role w' = None /\ localStorage w' !! "employeeRole" = None.

(** The claim as the specification states it: a 401 on any request, in the
    authenticated state, clears the credential and the three session fields
    and sends the next navigation to the login route. *)
Definition unauthorized_signs_out (w : World) (data : JsValue) : Prop :=
  isAuthenticated w = true ->
  let w' := (request (ErrorResponse 401 data) w).2 in
  headers_common w' !! "Authorization" = None
  /\ institutionId w' = None /\ role w' = None /\ employeeId w' = None
  /\ isAuthenticated w' = false
  /\ (initializing w' = false ->
      forall allowedRoles,
        ProtectedRoute allowedRoles (useAuth w') = Navigate "/login" true).

Definition is_mapping (v : JsValue) : Prop := exists props, v = JObj props.

(** The claim as the specification states it: the result is the parsed
    mapping or null, and it is null when the token does not have exactly
    three segments. *)
Definition decodes_strictly (token : string) : Prop :=
  (length (split "." token) <> 3%nat -> decodeJwt token = Return JNull)
  /\ (forall v, decodeJwt token = Return v -> v = JNull \/ is_mapping v).

(** The first value of a list that is a non-empty string: what the
    specification says the fallback selects. *)
Fixpoint first_nonempty_string (l : list JsValue) : option string :=
  match l with
  | [] => None
  | v :: r =>
      match nonempty_string v with
      | Some s => Some s
      | None => first_nonempty_string r
      end
  end.

(** The claim as the specification states it, in a session that stores no
    institution id yet: when the claims set none, the first non-empty string
    among the three sources is derived and persisted. *)
Definition institution_fallback_first_string (R : JsValue) (w : World) : Prop :=
  claim_institutionId R = None ->
  exists d w',
    applyAuthResponse R w = (Return d, w')
    /\ d_institutionId d = first_nonempty_string (institutionId_sources R)
    /\ localStorage w' !! "institutionId"
       = first_nonempty_string (institutionId_sources R).

(** ** Notions of the invariants *)

(** [payload.replace(/-/g, '+').replace(/_/g, '/')] *)
Definition normalized (payload : string) : string :=
  replace_all "_" "/" (replace_all "-" "+" payload).

(** The mutations that concern the role. *)
Definition is_role_effect (e : Effect) : bool :=
  match e with
  | SetRole _ => true
  | SetItem key _ | RemoveItem key => String.eqb key "employeeRole"
  | _ => false
  end.

(** The three keys of the session store. *)
Definition session_keys : list string := ["institutionId"; "employeeRole"; "employeeId"].

(** No value under the three keys is the empty string. *)
Definition stored_nonempty (m : gmap string string) : Prop :=
  forall k v, k ∈ session_keys -> m !! k = Some v -> v <> "".

(** A write to [localStorage] with a non-empty value. *)
Definition writes_nonempty (e : Effect) : Prop :=
  match e with
  | SetItem _ v => v <> ""
  | _ => True
  end.

(** ** Notions of the further properties *)

(** [stored && isEmployeeRole(stored) ? stored : null]: the role that the
    first render takes from a stored value. *)
Definition stored_role (s : option string) : option string :=
  match s with
  | Some v => if isEmployeeRole (JStr v) then Some v else None
  | None => None
  end.

(** The state holds what the store holds. *)
Definition mirrors_storage (w : World) : Prop :=
  institutionId w = localStorage w !! "institutionId"
  /\ role w = stored_role (localStorage w !! "employeeRole")
  /\ employeeId w = localStorage w !! "employeeId".

Definition is_boot (op : Op) : bool :=
  match op with Boot _ => true | _ => false end.

(** What the operations leave alone: the entries of [localStorage] other
    than the three keys, and the default headers other than
    [Authorization]. *)
Definition untouched (m m' : gmap string string) (w : World) : Prop :=
  (forall k, k ∉ session_keys -> localStorage w !! k = m !! k)
  /\ (forall h, h <> "Authorization" -> headers_common w !! h = m' !! h).

(** The bearer token that an operation receives, if any. *)
Definition supplied_token (op : Op) : option string :=
  match op with
  | Boot (Resolved data) | Login _ (Resolved data) | Refresh (Resolved data) =>
      token_of data
  | _ => None
  end.

(** The candidates for the message of an error, in the order of the [||]
    chain of the response interceptor. *)
Definition message_sources (data : JsValue) : list JsValue :=
  [opt_get data "message"; opt_get data "error"; opt_get data "title"].

(** No character of the string is a dot. *)
Definition dot_free (s : string) : bool :=
  forallb (fun c => negb (Ascii.eqb c ".")) (list_ascii_of_string s).

(** What [decodeJwt] makes of the second segment of the token. *)
Definition decode_segment (payload : option string) : Completion JsValue :=
  match payload with
  | Some p =>
      if String.eqb p "" then Return JNull
      else
        try_catch_pure
          (cbind (Platform.atob (normalized p)) (fun decoded =>
           cbind (Platform.decodeURIComponent (Platform.escape decoded)) (fun text =>
           Json.JSON_parse text)))
          (fun _ => Return JNull)
  | None => Return JNull
  end.

(** The store after [onSubmit] recorded or forgot the email. *)
Definition remembered (remember : bool) (email : string) (m : gmap string string)
  : gmap string string :=
  if remember then <["rememberEmail" := email]> (<["rememberMe" := "true"]> m)
  else delete "rememberEmail" (delete "rememberMe" m).

(** ** Notions of the token encoding *)

(** The character of a 6-bit value in the URL-safe alphabet (RFC 4648,
    table 2). *)
Definition base64url_char (v : Z) : ascii :=
  if (v <? 26)%Z then Platform.chr (65 + v)
  else if (v <? 52)%Z then Platform.chr (71 + v)
  else if (v <? 62)%Z then Platform.chr (v - 4)
  else if (v =? 62)%Z then "-"%char
  else "_"%char.

(** The 6-bit groups of a sequence of octets (RFC 4648, section 4); the
    last group is completed with zero bits. *)
Fixpoint sextets_of (bytes : list Z) : list Z :=
  match bytes with
  | a :: b :: c :: r =>
      Z.shiftr a 2
        :: Z.lor (Z.shiftl (Z.land a 3) 4) (Z.shiftr b 4)
        :: Z.lor (Z.shiftl (Z.land b 15) 2) (Z.shiftr c 6)
        :: Z.land c 63
        :: sextets_of r
  | [a; b] =>
      [Z.shiftr a 2;
       Z.lor (Z.shiftl (Z.land a 3) 4) (Z.shiftr b 4);
       Z.shiftl (Z.land b 15) 2]
  | [a] => [Z.shiftr a 2; Z.shiftl (Z.land a 3) 4]
  | [] => []
  end.

(** The base64url form of a sequence of octets, without padding (RFC 7515,
    section 2): how the issuer of a token writes its segments. *)
Definition base64url (bytes : list Z) : string :=
  string_of_list_ascii (base64url_char <$> sextets_of bytes).

(** The scalar values of Unicode: the code points that are not
    surrogates. *)
Definition scalar_value (cp : Z) : Prop :=
  (0 <= cp < 55296 \/ 57344 <= cp < 1114112)%Z.

(** The UTF-8 octets of a text, given by its code points. *)
Definition utf8 (cps : list Z) : list ascii := flat_map Json.utf8_encode cps.

Definition octets (bytes : list Z) : Prop :=
  Forall (fun b => (0 <= b < 256)%Z) bytes.

(** What the two [replace] calls of [decodeJwt] make of a character. *)
Definition norm_char (c : ascii) : ascii :=
  let c := if Ascii.eqb c "-" then "+"%char else c in
  if Ascii.eqb c "_" then "/"%char else c.

(** The character of a 6-bit value is neither a dot, nor white space, nor
    the padding sign, and [atob] reads the value back. *)
Definition alphabet_ok (v : Z) : bool :=
  let c := norm_char (base64url_char v) in
  bool_decide (Platform.b64_value c = Some v)
  && negb (Platform.is_ascii_whitespace c)
  && negb (Ascii.eqb c "=")
  && negb (Ascii.eqb (base64url_char v) ".").

(** What [escape] writes for one character of a binary string, and the item
    that [decodeURIComponent] reads back. *)
Definition escaped (c : ascii) : list ascii :=
  if Platform.escape_unreserved (Platform.code c) then [c]
  else ["%"%char;
        Platform.hex_digit (Z.shiftr (Platform.code c) 4);
        Platform.hex_digit (Z.land (Platform.code c) 15)].

Definition item (c : ascii) : Platform.UriItem :=
  if Platform.escape_unreserved (Platform.code c)
  then Platform.Lit c else Platform.Pct (Platform.code c).

(** ** Notions of the forms *)

(** An identifier as it is typed: some characters, none of them a comma or
    white space. *)
Definition identifier (s : Text) : Prop :=
  s <> [] /\ Forall (fun u => separator u = false) s.

(** Nothing but white space. *)
Definition blank (s : Text) : Prop := Forall (fun u => is_white_space u = true) s.

(** No white space at either end. *)
Definition unpadded (s : Text) : Prop :=
  is_white_space <$> head s <> Some true
  /\ is_white_space <$> last s <> Some true.

(** [r] is [s] without the white space around it. *)
Definition trimmed (s r : Text) : Prop :=
  exists lead trail : Text,
    s = (lead ++ r ++ trail)%list /\ blank lead /\ blank trail /\ unpadded r.

(** The pieces of [split] that are not empty. *)
Definition ids_from (in_run : bool) (s : Text) : list Text :=
  List.filter nonempty (split_runs in_run s).

(** ** Sample responses, tokens and sessions *)

(** Scenario A: a token whose payload is
    [{"sub":"emp-1","role":"ADMIN","institutionId":"inst-9"}]. *)
Definition scenario_A : JsValue :=
  obj [("accessToken",
        JStr "h.eyJzdWIiOiJlbXAtMSIsInJvbGUiOiJBRE1JTiIsImluc3RpdHV0aW9uSWQiOiJpbnN0LTkifQ.s")].

(** Scenario B: no token, the fields at the top level and in [institution]. *)
Definition scenario_B : JsValue :=
  obj [("id", JStr "emp-2"); ("role", JStr "PUBLISHER");
       ("institution", obj [("id", JStr "inst-3")])].

(** The session of an administrator signed in by the boot refresh of
    scenario A, and the same session after a request of a resource service
    received a 401. *)
Definition admin_session : World := after ∅ [Boot (Resolved scenario_A)].
Definition admin_session_after_401 : World :=
  (request (ErrorResponse 401 JNull) admin_session).2.

(** The session after the login of scenario B, whose response has no
    token. *)
Definition tokenless_session : World :=
  after ∅ [Login JNull (Resolved scenario_B)].

(** A token of two segments whose second is the base64 of
    [{"role":"PUBLISHER"}], and a token of three segments whose second is
    the base64 of [5]. *)
Definition two_segment_token : string := "h.eyJyb2xlIjoiUFVCTElTSEVSIn0".
Definition number_payload_token : string := "h.NQ.s".

(** The bytes and the text of the payload [{"sub":"emp-1"}]. *)
Definition sub_claim_bytes : list Z :=
  [123; 34; 115; 117; 98; 34; 58; 34; 101; 109; 112; 45; 49; 34; 125]%Z.
Definition sub_claim_text : string :=
  string_of_list_ascii (Platform.chr <$> sub_claim_bytes).

(** The token whose claims are [{"role":"PUBLISHER"}], next to a top-level
    [role: "ADMIN"]: the derived role is PUBLISHER. *)
Definition precedence_response : JsValue :=
  obj [("accessToken", JStr "h.eyJyb2xlIjoiUFVCTElTSEVSIn0.s");
       ("role", JStr "ADMIN")].

(** A token whose claims are [{"institutionId":"inst-A"}], next to a
    top-level [institutionId: "inst-B"]. *)
Definition conflicting_institution_response : JsValue :=
  obj [("accessToken", JStr "h.eyJpbnN0aXR1dGlvbklkIjoiaW5zdC1BIn0.s");
       ("institutionId", JStr "inst-B")].

(** A response whose top-level [institutionId] is the number 5 and whose
    [institution] object has the id [inst-3]. *)
Definition numeric_institution_response : JsValue :=
  obj [("institutionId", JNum 5 0); ("institution", obj [("id", JStr "inst-3")])].

(** A response that holds the role [SUPERADMIN] in the claims of its token,
    at the top level and in its [user] object. *)
Definition superadmin_response : JsValue :=
  obj [("accessToken", JStr "h.eyJyb2xlIjoiU1VQRVJBRE1JTiJ9.s");
       ("role", JStr "SUPERADMIN");
       ("user", obj [("role", JStr "SUPERADMIN")])].

(** A response that holds the role [PUBLISHER] in the claims of its token
    ([{"role":"PUBLISHER"}]) and the role [SUPERADMIN] at the top level. *)
Definition mixed_role_response : JsValue :=
  obj [("accessToken", JStr "h.eyJyb2xlIjoiUFVCTElTSEVSIn0.s");
       ("role", JStr "SUPERADMIN")].

(** A session that is authenticated without a role, and the catch-all
    route. *)
Definition roleless_auth : AuthContextValue :=
  mkAuthContextValue true false None None None.
Definition catch_all : Branch := mkBranch "*" [] (NavigateElement "/login" true).

(** An error response whose body has an [error] and a [title] but no
    [message]. *)
Definition unprocessable : HttpOutcome :=
  ErrorResponse 422 (obj [("error", JStr "bad input"); ("title", JStr "t")]).

(** An error response whose [message] is an empty array, and one whose
    [message] is an object with a [toString] of its own. *)
Definition empty_array_message : HttpOutcome :=
  ErrorResponse 500 (obj [("message", JArr [])]).
Definition unprintable_message : HttpOutcome :=
  ErrorResponse 500 (obj [("message", obj [("toString", JNum 1 0)])]).

(** An implementation, for samples that hold no number and no function. *)
Definition sample_engine : Engine := mkEngine (fun _ _ => "") "".

(** The code points of a payload with Arabic text, a three-byte and a
    four-byte character:
    [{"name":"نبيل","role":"PUBLISHER","mark":"€😀"}]. *)
Definition sample_text : list Z :=
  [123; 34; 110; 97; 109; 101; 34; 58; 34; 1606; 1576; 1610; 1604; 34; 44;
   34; 114; 111; 108; 101; 34; 58; 34; 80; 85; 66; 76; 73; 83; 72; 69; 82;
   34; 44; 34; 109; 97; 114; 107; 34; 58; 34; 8364; 128512; 34; 125]%Z.

(** The identifiers [b-1] and [b-2], and a text area that holds them with a
    comma, blanks and line ends around: [ b-1, b-2] and a line feed. *)
Definition id_1 : Text := [98; 45; 49]%Z.
Definition id_2 : Text := [98; 45; 50]%Z.
Definition typed_ids : Text :=
  ([32%Z] ++ id_1 ++ [44%Z; 32%Z] ++ id_2 ++ [10%Z])%list.

(** * Properties *)

(** ** Roles *)

Lemma isEmployeeRole_spec (v : JsValue) :
  isEmployeeRole v = true <-> exists r, v = JStr (role_name r).
Proof.
  split.
  - destruct v as [| | | | s | | |]; try discriminate.
    unfold isEmployeeRole, strict_eq_str. intros H.
    repeat (apply orb_prop in H; destruct H as [H | H]);
      apply String.eqb_eq in H; subst s.
    + by exists ADMIN.
    + by exists DISTRIBUTER.
    + by exists PUBLISHER.
    + by exists DELIVERER.
  - intros [[] ->]; reflexivity.
Qed.

Lemma role_name_truthy (r : EmployeeRole) : truthy (Some (role_name r)) = true.
Proof. by destruct r. Qed.

Lemma getDefaultRouteForRole_landing (r : EmployeeRole) :
  getDefaultRouteForRole (Some (role_name r)) = landing_route r.
Proof. by destruct r. Qed.

Lemma includes_spec (l : list string) (x : string) :
  includes l x = bool_decide (x ∈ l).
Proof.
  unfold includes. induction l as [| y l IH]; cbn [existsb].
  - symmetry. apply bool_decide_eq_false_2. by intros ?%elem_of_nil.
  - rewrite IH. destruct (String.eqb_spec x y) as [-> | Hne]; cbn [orb].
    + symmetry. apply bool_decide_eq_true_2. left.
    + apply bool_decide_ext. rewrite elem_of_cons. tauto.
Qed.

Lemma element_of_inj (o1 o2 : GuardOutcome) : element_of o1 = element_of o2 -> o1 = o2.
Proof.
  destruct o1 as [| | r1 | |], o2 as [| | r2 | |]; simpl;
    try discriminate; try reflexivity;
    try (destruct r1; discriminate); try (destruct r2; discriminate).
  intros H. f_equal. by destruct r1, r2.
Qed.

(** ** The route guard *)

(** C8. For every value of the initializing flag, of the authenticated flag,
    of the role (absent or one of the four) and of the allow-list (absent, or
    any list), the guard renders the one outcome that the four rules select
    in order: loading while initializing; else the login redirect when not
    authenticated; else, under a non-empty allow-list that the role is not
    in, the redirect to the role's landing route, or to the unauthorized
    route when there is no role; else the requested content.  The five
    outcomes are distinct on the screen, so it is exactly one of them. *)
Theorem route_guard_matrix :
  (forall (init auth : bool) (r : option EmployeeRole)
          (allowedRoles : option (list string)) inst emp,
      ProtectedRoute allowedRoles
        (mkAuthContextValue auth init inst (role_name <$> r) emp)
      = element_of (guard_rule init auth r allowedRoles))
  /\ (forall o1 o2, element_of o1 = element_of o2 -> o1 = o2)
  /\ (forall r, getDefaultRouteForRole (Some (role_name r)) = landing_route r).
Proof.
  split; [| split; [exact element_of_inj | exact getDefaultRouteForRole_landing]].
  intros init auth r allowedRoles inst emp.
  unfold ProtectedRoute, guard_rule.
  cbn [ctx_initializing ctx_isAuthenticated ctx_role].
  destruct init; [reflexivity |].
  destruct auth; [| reflexivity]. cbn [negb].
  destruct allowedRoles as [[| a l] |]; [reflexivity | | reflexivity].
  change (0 <? length (a :: l))%nat with true. cbv iota.
  destruct r as [r |]; [| reflexivity].
  change (role_name <$> Some r) with (Some (role_name r)).
  rewrite role_name_truthy.
  change (to_string (Some (role_name r))) with (role_name r).
  rewrite includes_spec. cbn [negb orb].
  destruct (bool_decide (role_name r ∈ a :: l)); cbn [negb element_of];
    [reflexivity |].
  by rewrite getDefaultRouteForRole_landing.
Qed.

(** ** Reasoning about statements *)

Section Rules.
Context {A B : Type}.
Implicit Types (m : M A) (k : A -> M B) (w : World).

Lemma wp_ret (a : A) (Q : Completion A -> World -> Prop) w :
  Q (Return a) w -> wp (ret a) Q w.
Proof. done. Qed.

Lemma wp_throw e (Q : Completion A -> World -> Prop) w :
  Q (Throw e) w -> wp (throw e) Q w.
Proof. done. Qed.

Lemma wp_lift (c : Completion A) (Q : Completion A -> World -> Prop) w :
  Q c w -> wp (lift c) Q w.
Proof. done. Qed.

Lemma wp_bind m k (Q : Completion B -> World -> Prop) w :
  wp m (fun c w' =>
          match c with
          | Return a => wp (k a) Q w'
          | Throw e => Q (Throw e) w'
          end) w ->
  wp (bind m k) Q w.
Proof. unfold wp, bind. by destruct (m w) as [[a | e] w']. Qed.

Lemma wp_try_catch m (h : Exn -> M A) (Q : Completion A -> World -> Prop) w :
  wp m (fun c w' =>
          match c with
          | Return a => Q (Return a) w'
          | Throw e => wp (h e) Q w'
          end) w ->
  wp (try_catch m h) Q w.
Proof. unfold wp, try_catch. by destruct (m w) as [[a | e] w']. Qed.

Lemma wp_try_finally m (f : M unit) (Q : Completion A -> World -> Prop) w :
  wp m (fun c w' =>
          wp f (fun c' w'' =>
                  match c' with
                  | Return _ => Q c w''
                  | Throw e => Q (Throw e) w''
                  end) w') w ->
  wp (try_finally m f) Q w.
Proof.
  unfold wp, try_finally. destruct (m w) as [c w']; simpl.
  by destruct (f w') as [[[] | e] w''].
Qed.

Lemma maintains_ret I (a : A) : maintains I (ret a).
Proof. by intros w. Qed.

Lemma maintains_throw I e : maintains I (@throw A e).
Proof. by intros w. Qed.

Lemma maintains_lift I (c : Completion A) : maintains I (lift c).
Proof. by intros w. Qed.

Lemma maintains_bind I m k :
  maintains I m -> (forall a, maintains I (k a)) -> maintains I (bind m k).
Proof.
  intros Hm Hk w Hw. specialize (Hm w Hw). unfold bind.
  destruct (m w) as [[a | e] w']; simpl in *; [by apply Hk | done].
Qed.

Lemma maintains_try_catch I m (h : Exn -> M A) :
  maintains I m -> (forall e, maintains I (h e)) -> maintains I (try_catch m h).
Proof.
  intros Hm Hh w Hw. specialize (Hm w Hw). unfold try_catch.
  destruct (m w) as [[a | e] w']; simpl in *; [done | by apply Hh].
Qed.

Lemma maintains_try_finally I m (f : M unit) :
  maintains I m -> maintains I f -> maintains I (try_finally m f).
Proof.
  intros Hm Hf w Hw. specialize (Hm w Hw). unfold try_finally.
  destruct (m w) as [c w']; simpl in *. specialize (Hf w' Hm).
  by destruct (f w') as [[[] | e] w''].
Qed.

Lemma maintains_if I (b : bool) m1 m2 :
  (b = true -> maintains I m1) -> (b = false -> maintains I m2) ->
  maintains I (if b then m1 else m2).
Proof. destruct b; auto. Qed.

End Rules.

Create HintDb maintains discriminated.
#[global] Hint Resolve maintains_ret maintains_throw maintains_lift : maintains.

(** Splits a composite statement into its parts. *)
Ltac maintains_split :=
  repeat lazymatch goal with
    | |- maintains _ (bind _ _) => apply maintains_bind; [| intros ?]
    | |- maintains _ (try_catch _ _) => apply maintains_try_catch; [| intros ?]
    | |- maintains _ (try_finally _ _) => apply maintains_try_finally
    | |- maintains _ (if _ then _ else _) => apply maintains_if; intros ?
    | |- maintains _ (match ?x with _ => _ end) => destruct x eqn:?
    end.

Lemma nonempty_string_Some (v : JsValue) (s : string) :
  nonempty_string v = Some s <-> v = JStr s /\ s <> "".
Proof.
  destruct v as [| | | | t | | |]; simpl; try (split; [done | by intros [? _]]).
  destruct (String.eqb_spec t "") as [-> | Hne]; simpl.
  - split; [done | by intros [[= ->] ?]].
  - split; [by intros [= ->] | by intros [[= ->] _]].
Qed.

Lemma truthy_Some (s : string) : truthy (Some s) = true <-> s <> "".
Proof.
  simpl. destruct (String.eqb_spec s "") as [-> | Hne]; simpl; split; done.
Qed.

Lemma nonempty_string_truthy (v : JsValue) (s : string) :
  nonempty_string v = Some s -> truthy (Some s) = true.
Proof. intros [_ ?]%nonempty_string_Some. by apply truthy_Some. Qed.

Lemma as_role_Some (v : JsValue) (s : string) :
  as_role v = Some s <-> v = JStr s /\ isEmployeeRole (JStr s) = true.
Proof.
  destruct v as [| | | | t | | |]; simpl; try (split; [done | by intros [? _]]).
  destruct (isEmployeeRole (JStr t)) eqn:E.
  - split; [by intros [= ->] | by intros [[= ->] _]].
  - split; [done | intros [[= ->] ?]; congruence].
Qed.

Lemma as_role_truthy (v : JsValue) (s : string) :
  as_role v = Some s -> truthy (Some s) = true.
Proof.
  intros [_ [r [= ->]]%isEmployeeRole_spec]%as_role_Some. apply role_name_truthy.
Qed.

Lemma as_role_role_name (r : EmployeeRole) :
  as_role (JStr (role_name r)) = Some (role_name r).
Proof. by destruct r. Qed.

(** [decodeJwt] completes normally on every input. *)
Lemma decodeJwt_returns (token : string) : exists v, decodeJwt token = Return v.
Proof.
  unfold decodeJwt, try_catch_pure.
  destruct (decodeJwt_try token) as [v | e]; eauto.
Qed.

(** A test is settled by a hypothesis that decides it, or else split. *)
Ltac settle b :=
  lazymatch b with
  | true => idtac
  | false => idtac
  | negb ?c => settle c
  | andb ?c _ => settle c
  | orb ?c _ => settle c
  | truthy None => change (truthy None) with false
  | truthy (Some ?s) =>
      first [ match goal with H : b = _ |- _ => rewrite H end
            | match goal with
              | H : nonempty_string _ = Some s |- _ =>
                  rewrite (nonempty_string_truthy _ _ H)
              | H : as_role _ = Some s |- _ =>
                  rewrite (as_role_truthy _ _ H)
              end
            | rewrite role_name_truthy
            | destruct b eqn:? ]
  | truthy ?o =>
      first [ match goal with H : o = _ |- _ => rewrite H end
            | destruct o eqn:? ]
  | _ =>
      first [ match goal with H : b = _ |- _ => rewrite H end
            | destruct b eqn:? ]
  end;
  cbn [negb andb orb].

(** Symbolic execution of one statement under [wp]. *)
Ltac wp_step :=
  lazymatch goal with
  | |- wp (bind _ _) _ _ => apply wp_bind
  | |- wp (ret _) _ _ => apply wp_ret
  | |- wp (throw _) _ _ => apply wp_throw
  | |- wp (lift _) _ _ => apply wp_lift
  | |- wp (try_catch _ _) _ _ => apply wp_try_catch
  | |- wp (try_finally _ _) _ _ => apply wp_try_finally
  | |- wp (if ?b then _ else _) _ _ => settle b
  | |- wp (match ?x with _ => _ end) _ _ =>
      first [ match goal with H : x = _ |- _ => rewrite H end
            | destruct x eqn:? ]
  | |- match decodeJwt ?t with _ => _ end =>
      first [ match goal with H : decodeJwt t = _ |- _ => rewrite H end
            | let claims := fresh "claims" in
              let H := fresh "Hdecode" in
              destruct (decodeJwt_returns t) as [claims H]; rewrite H ]
  end.

Lemma wp_eval {A} (m : M A) (Q : Completion A -> World -> Prop) w c w' :
  m w = (c, w') -> Q c w' -> wp m Q w.
Proof. unfold wp. by intros ->. Qed.

(** The primitive mutations run by computation. *)
Ltac wp_prim :=
  lazymatch goal with
  | |- wp (setIsAuthenticated _) _ _ => idtac
  | |- wp (setInitializing _) _ _ => idtac
  | |- wp (setInstitutionId _) _ _ => idtac
  | |- wp (setRole _) _ _ => idtac
  | |- wp (setEmployeeId _) _ _ => idtac
  | |- wp (localStorage_setItem _ _) _ _ => idtac
  | |- wp (localStorage_removeItem _) _ _ => idtac
  | |- wp (set_default_header _ _) _ _ => idtac
  | |- wp (delete_default_header _) _ _ => idtac
  end;
  eapply wp_eval; [reflexivity |];
  unfold log;
  cbn [isAuthenticated initializing institutionId role employeeId
       localStorage headers_common effects];
  rewrite <- ?app_assoc; cbn [app].

(** The statements of the program unfold to their bodies. *)
Ltac wp_unfold :=
  lazymatch goal with
  | |- wp (setAuthToken _) _ _ => unfold setAuthToken
  | |- wp (persistInstitutionId _) _ _ => unfold persistInstitutionId
  | |- wp (persistRole _) _ _ => unfold persistRole
  | |- wp (persistEmployeeId _) _ _ => unfold persistEmployeeId
  | |- wp clear_session _ _ => unfold clear_session
  | |- wp (apply_claims _) _ _ => unfold apply_claims
  | |- wp (applyAuthResponse _) _ _ => unfold applyAuthResponse
  | |- wp (response_interceptor _) _ _ => unfold response_interceptor
  | |- wp (post _ _) _ _ => unfold post
  | |- wp (request _) _ _ => unfold request
  | |- wp (institutionAuthService_login _ _) _ _ => unfold institutionAuthService_login
  | |- wp (institutionAuthService_refresh _) _ _ => unfold institutionAuthService_refresh
  | |- wp (institutionAuthService_logout _) _ _ => unfold institutionAuthService_logout
  | |- wp (refresh _) _ _ => unfold refresh
  | |- wp (login _ _) _ _ => unfold login
  | |- wp (logout _) _ _ => unfold logout
  | |- wp (boot _) _ _ => unfold boot
  end.

Ltac wp_run :=
  repeat (first [wp_prim | wp_unfold | wp_step];
          cbv beta iota; cbn [d_role d_institutionId d_employeeId]).

Ltac map_lookup :=
  repeat first
    [ rewrite lookup_insert_eq
    | rewrite lookup_insert_ne by done
    | rewrite lookup_delete_eq
    | rewrite lookup_delete_ne by done ].

(** ** What a response supplies *)

Lemma get_falsy (v : JsValue) (k : string) :
  to_boolean v = false ->
  nonempty_string (get v k) = None /\ as_role (get v k) = None.
Proof.
  destruct v; simpl; try done. by destruct (String.eqb k "sub").
Qed.

Lemma is_object_true (v : JsValue) :
  is_object v = true <-> to_boolean v = true /\ typeof v = "object".
Proof.
  unfold is_object. rewrite andb_true_iff, String.eqb_eq. tauto.
Qed.

(** ** What [applyAuthResponse] does *)

Lemma applyAuthResponse_not_object (R : JsValue) (w : World) :
  is_object R = false ->
  applyAuthResponse R w = (Return (mkDerived None None None), w).
Proof.
  intros H. unfold applyAuthResponse.
  replace (negb (to_boolean R) || negb (String.eqb (typeof R) "object"))
    with (negb (is_object R)) by (unfold is_object; by destruct (to_boolean R)).
  by rewrite H.
Qed.

Lemma applyAuthResponse_object (R : JsValue) (w : World) :
  is_object R = true ->
  wp (applyAuthResponse R)
     (fun c w' => exists d, c = Return d /\ applied R w d w') w.
Proof.
  intros [HR Hty]%is_object_true. destruct w.
  unfold applyAuthResponse. rewrite HR, Hty.
  cbn [negb orb String.eqb Ascii.eqb Bool.eqb].
  wp_run.
  all: repeat match goal with
              | H : nonempty_string _ = Some ?s |- context [truthy (Some ?s)] =>
                  rewrite (nonempty_string_truthy _ _ H)
              end.
  all: cbn [negb].
  all: eexists; split; [reflexivity |].
  all: split;
    unfold claim_role, claim_institutionId, claim_employeeId, claims_of,
      fallback_role, fallback_institutionId, fallback_employeeId, token_of;
    cbn [isAuthenticated initializing institutionId role employeeId
         localStorage headers_common effects].
  all: repeat match goal with
              | H : nonempty_string _ = _ |- _ => rewrite !H; clear H
              | H : as_role _ = _ |- _ => rewrite !H; clear H
              | H : decodeJwt _ = _ |- _ => rewrite !H; clear H
              end.
  all: try match goal with
           | H : to_boolean ?c = false |- _ =>
               rewrite ?(proj1 (get_falsy c "institutionId" H)),
                 ?(proj1 (get_falsy c "sub" H)), ?(proj2 (get_falsy c "role" H))
           end.
  all: cbn [first_some to_string default id]; map_lookup; reflexivity.
Qed.

(** [applyAuthResponse] runs to a value in every world. *)
Lemma applyAuthResponse_runs (R : JsValue) (w : World) :
  exists d w', applyAuthResponse R w = (Return d, w')
               /\ (is_object R = true -> applied R w d w')
               /\ (is_object R = false -> d = mkDerived None None None /\ w' = w).
Proof.
  destruct (is_object R) eqn:E.
  - pose proof (applyAuthResponse_object R w E) as H. unfold wp in H.
    destruct (applyAuthResponse R w) as [c w']; simpl in H.
    destruct H as (d & -> & H). exists d, w'.
    split; [reflexivity |]. split; [done | discriminate].
  - rewrite applyAuthResponse_not_object by done.
    eexists _, _. split; [reflexivity |]. split; [discriminate | done].
Qed.

(** ** What the operations do *)

Lemma clear_session_run (w : World) : clear_session w = (Return tt, cleared w).
Proof.
  assert (wp clear_session (fun c w' => (c, w') = (Return tt, cleared w)) w) as H.
  { destruct w. wp_run. reflexivity. }
  unfold wp in H. by destruct (clear_session w).
Qed.

Lemma response_interceptor_resolved (data : JsValue) (w : World) :
  response_interceptor (Resolved data) w = (Return data, w).
Proof. reflexivity. Qed.

Lemma response_interceptor_401 (data : JsValue) (w : World) :
  response_interceptor (ErrorResponse 401 data) w
  = (Throw (rejection (Some 401%Z) data), without_credential w).
Proof.
  unfold response_interceptor, rejection, error_message, new_ApiError, bind, lift.
  destruct (ToString_throws _); by destruct w.
Qed.

Lemma response_interceptor_error (status : Z) (data : JsValue) (w : World) :
  status <> 401%Z ->
  response_interceptor (ErrorResponse status data) w
  = (Throw (rejection (Some status) data), w).
Proof.
  intros H.
  unfold response_interceptor, rejection, error_message, new_ApiError, bind, lift.
  destruct (Z.eqb_spec status 401) as [? | _]; [done |].
  by destruct (ToString_throws _).
Qed.

Lemma response_interceptor_failed (o : HttpOutcome) (w : World) :
  failed o -> response_interceptor o w = (Throw (rejection_of o), intercepted o w).
Proof.
  destruct o as [data | status data |]; [done | | done]. intros _.
  unfold intercepted. destruct (Z.eqb_spec status 401) as [-> | Hne].
  - apply response_interceptor_401.
  - by apply response_interceptor_error.
Qed.

Lemma refresh_resolved (data : JsValue) (w : World) :
  refresh (Resolved data) w = (Return tt, signed_in data w).
Proof.
  unfold refresh, try_catch, bind, institutionAuthService_refresh, post, signed_in.
  rewrite response_interceptor_resolved.
  destruct (applyAuthResponse_runs data w) as (d & w' & -> & _). reflexivity.
Qed.

Lemma refresh_failed (o : HttpOutcome) (w : World) :
  failed o -> refresh o w = (Throw (rejection_of o), cleared (intercepted o w)).
Proof.
  intros H.
  unfold refresh, try_catch, bind, institutionAuthService_refresh, post.
  rewrite response_interceptor_failed by done.
  by rewrite clear_session_run.
Qed.

Lemma login_resolved (payload data : JsValue) (w : World) :
  login payload (Resolved data) w = (Return tt, signed_in data w).
Proof.
  unfold login, try_catch, bind, institutionAuthService_login, post, signed_in.
  rewrite response_interceptor_resolved.
  destruct (applyAuthResponse_runs data w) as (d & w' & -> & _). reflexivity.
Qed.

Lemma login_failed (payload : JsValue) (o : HttpOutcome) (w : World) :
  failed o -> login payload o w = (Throw (rejection_of o), cleared (intercepted o w)).
Proof.
  intros H.
  unfold login, try_catch, bind, institutionAuthService_login, post.
  rewrite response_interceptor_failed by done.
  by rewrite clear_session_run.
Qed.

Lemma logout_resolved (data : JsValue) (w : World) :
  logout (Resolved data) w = (Return tt, cleared w).
Proof.
  unfold logout, try_finally, bind, institutionAuthService_logout, post.
  rewrite response_interceptor_resolved. cbn [ret]. by rewrite clear_session_run.
Qed.

Lemma logout_failed (o : HttpOutcome) (w : World) :
  failed o -> logout o w = (Throw (rejection_of o), cleared (intercepted o w)).
Proof.
  intros H.
  unfold logout, try_finally, bind, institutionAuthService_logout, post.
  rewrite response_interceptor_failed by done. by rewrite clear_session_run.
Qed.

Lemma boot_run (o : HttpOutcome) (w : World) :
  boot o w = (Return tt, booted (refresh o w).2).
Proof.
  unfold boot, try_finally, try_catch, booted.
  by destruct (refresh o w) as [[[] | e] w'].
Qed.

Lemma request_resolved (data : JsValue) (w : World) :
  request (Resolved data) w = (Return data, w).
Proof. reflexivity. Qed.

Lemma request_failed (o : HttpOutcome) (w : World) :
  failed o -> request o w = (Throw (rejection_of o), intercepted o w).
Proof. apply response_interceptor_failed. Qed.

Lemma outcome_cases (o : HttpOutcome) : (exists data, o = Resolved data) \/ failed o.
Proof. destruct o; simpl; eauto. Qed.

Lemma cleared_no_credential (w : World) :
  headers_common (cleared w) !! "Authorization" = None.
Proof. apply lookup_delete_eq. Qed.

Lemma cleared_stored (w : World) :
  localStorage (cleared w) !! "institutionId" = None
  /\ localStorage (cleared w) !! "employeeRole" = None
  /\ localStorage (cleared w) !! "employeeId" = None.
Proof. cbn [cleared localStorage]. repeat split; by map_lookup. Qed.

Lemma cleared_effects (w : World) :
  effects (cleared w) =
  (effects w ++
   [DeleteHeader "Authorization"; SetIsAuthenticated false;
    SetInstitutionId None; RemoveItem "institutionId";
    SetRole None; RemoveItem "employeeRole";
    SetEmployeeId None; RemoveItem "employeeId"])%list.
Proof. reflexivity. Qed.

(** ** The session over time *)

Lemma after_snoc stored ops op :
  after stored (ops ++ [op])%list = run op (after stored ops).
Proof. unfold after. by rewrite fold_left_app. Qed.

(** An invariant of the mounted world that every operation keeps holds
    after any sequence of operations. *)
Lemma after_ind (I : World -> Prop) (stored : gmap string string) :
  I (mount stored) ->
  (forall op w, I w -> I (run op w)) ->
  forall ops, I (after stored ops).
Proof.
  intros H0 Hstep ops. induction ops as [| op ops IH] using rev_ind; [done |].
  rewrite after_snoc. by apply Hstep.
Qed.

(** The settled world of each operation, by the answer it got. *)
Lemma run_cases (op : Op) (w : World) :
  (exists data, run op w = signed_in data w)
  \/ (exists data, run op w = booted (signed_in data w))
  \/ (exists o, run op w = cleared (intercepted o w))
  \/ (exists o, run op w = booted (cleared (intercepted o w)))
  \/ (exists o, run op w = intercepted o w).
Proof.
  destruct op as [o | payload o | o | o | o]; simpl;
    destruct (outcome_cases o) as [[data ->] | Hf].
  - rewrite boot_run, refresh_resolved. eauto.
  - rewrite boot_run, refresh_failed by done. eauto 6.
  - rewrite login_resolved. eauto.
  - rewrite login_failed by done. eauto 6.
  - rewrite logout_resolved. right. right. left. by exists (Resolved data).
  - rewrite logout_failed by done. eauto 6.
  - rewrite refresh_resolved. eauto.
  - rewrite refresh_failed by done. eauto 6.
  - rewrite request_resolved. do 4 right. by exists (Resolved data).
  - rewrite request_failed by done. eauto 6.
Qed.

(** ** The scenarios of the specification *)

Example scenario_A_applied :
  let w := (login JNull (Resolved scenario_A) (mount ∅)).2 in
  role w = Some "ADMIN" /\ institutionId w = Some "inst-9"
  /\ employeeId w = Some "emp-1" /\ isAuthenticated w = true
  /\ headers_common w !! "Authorization"
     = Some "Bearer h.eyJzdWIiOiJlbXAtMSIsInJvbGUiOiJBRE1JTiIsImluc3RpdHV0aW9uSWQiOiJpbnN0LTkifQ.s".
Proof. vm_compute. repeat split. Qed.

Example scenario_B_applied :
  let w := (login JNull (Resolved scenario_B) (mount ∅)).2 in
  role w = Some "PUBLISHER" /\ institutionId w = Some "inst-3"
  /\ employeeId w = Some "emp-2" /\ isAuthenticated w = true
  /\ headers_common w !! "Authorization" = None.
Proof. vm_compute. repeat split. Qed.

(** ** Logout *)

(** C7. Whatever the remote logout call does, succeed, be rejected with a
    status, or get no answer at all, when [logout()] settles the credential
    is gone from the default headers, [isAuthenticated] is false, and the
    three session fields are null in the state and absent from
    [localStorage]; the cleanup runs in the order credential, flag,
    institution id, role, employee id.  A failure of the remote call is still
    surfaced to the caller. *)
Theorem logout_always_cleans_up (o : HttpOutcome) (w : World) :
  let w' := (logout o w).2 in
  headers_common w' !! "Authorization" = None
  /\ isAuthenticated w' = false
  /\ institutionId w' = None /\ role w' = None /\ employeeId w' = None
  /\ localStorage w' !! "institutionId" = None
  /\ localStorage w' !! "employeeRole" = None
  /\ localStorage w' !! "employeeId" = None
  /\ (exists before,
        effects w' =
        (before ++
         [DeleteHeader "Authorization"; SetIsAuthenticated false;
          SetInstitutionId None; RemoveItem "institutionId";
          SetRole None; RemoveItem "employeeRole";
          SetEmployeeId None; RemoveItem "employeeId"])%list)
  /\ (logout o w).1 =
     match o with
     | Resolved _ => Return tt
     | _ => Throw (rejection_of o)
     end.
Proof.
  assert (exists w0, logout o w
                     = (match o with
                        | Resolved _ => Return tt
                        | _ => Throw (rejection_of o)
                        end, cleared w0)) as [w0 ->].
  { destruct (outcome_cases o) as [[data ->] | Hf].
    - exists w. apply logout_resolved.
    - exists (intercepted o w). rewrite logout_failed by done. by destruct o. }
  cbv zeta. cbn [fst snd].
  destruct (cleared_stored w0) as (? & ? & ?).
  split; [apply cleared_no_credential |].
  repeat (split; [done |]).
  split; [| done]. exists (effects w0). apply cleared_effects.
Qed.

(** ** A 401 on a request *)

(** C2, counterexample. An administrator is signed in through the boot
    refresh of scenario A; a request of a resource service then receives a
    401.  The header is dropped, but the session still says authenticated,
    the role is still ADMIN, and the guard of the administrator's routes
    renders their content instead of redirecting to the login route. *)
Lemma unauthorized_request_keeps_session :
  isAuthenticated admin_session = true
  /\ headers_common admin_session_after_401 !! "Authorization" = None
  /\ isAuthenticated admin_session_after_401 = true
  /\ role admin_session_after_401 = Some "ADMIN"
  /\ institutionId admin_session_after_401 = Some "inst-9"
  /\ ProtectedRoute (Some ["ADMIN"]) (useAuth admin_session_after_401) = Outlet
  /\ ~ unauthorized_signs_out admin_session JNull.
Proof.
  repeat (split; [by vm_compute |]).
  intros H. specialize (H ltac:(by vm_compute)). cbv zeta in H.
  destruct H as (_ & _ & H & _). by vm_compute in H.
Qed.

Lemma ProtectedRoute_signed_out (allowedRoles : option (list string)) (w : World) :
  isAuthenticated w = false ->
  ProtectedRoute allowedRoles (useAuth w)
  = if initializing w then LoadingPlaceholder else Navigate "/login" true.
Proof.
  intros H. unfold ProtectedRoute, useAuth; cbn.
  rewrite H. by destruct (initializing w).
Qed.

(** C2, as the code has it. A 401 on a request makes the HTTP client drop
    the [Authorization] default header and nothing else: [isAuthenticated],
    the three session fields and [localStorage] are as before, so the guard
    decides as before.  The session is cleared only when the request that
    got the 401 is [refresh] or [login] itself: then the credential, the
    flag, the institution id, the role and the employee id are cleared in
    that order, and, once initializing is over, the guard redirects to the
    login route. *)
Theorem unauthorized_clears_credential_only (data : JsValue) (w : World) :
  (let w' := (request (ErrorResponse 401 data) w).2 in
   headers_common w' !! "Authorization" = None
   /\ isAuthenticated w' = isAuthenticated w
   /\ initializing w' = initializing w
   /\ institutionId w' = institutionId w
   /\ role w' = role w
   /\ employeeId w' = employeeId w
   /\ localStorage w' = localStorage w
   /\ effects w' = (effects w ++ [DeleteHeader "Authorization"])%list
   /\ forall allowedRoles,
        ProtectedRoute allowedRoles (useAuth w')
        = ProtectedRoute allowedRoles (useAuth w))
  /\ (forall payload,
        let cleanup w' :=
          headers_common w' !! "Authorization" = None
          /\ isAuthenticated w' = false
          /\ institutionId w' = None /\ role w' = None /\ employeeId w' = None
          /\ localStorage w' !! "institutionId" = None
          /\ localStorage w' !! "employeeRole" = None
          /\ localStorage w' !! "employeeId" = None
          /\ effects w' =
             (effects w ++
              [DeleteHeader "Authorization";
               DeleteHeader "Authorization"; SetIsAuthenticated false;
               SetInstitutionId None; RemoveItem "institutionId";
               SetRole None; RemoveItem "employeeRole";
               SetEmployeeId None; RemoveItem "employeeId"])%list
          /\ forall allowedRoles,
               ProtectedRoute allowedRoles (useAuth w')
               = if initializing w then LoadingPlaceholder
                 else Navigate "/login" true in
        cleanup (refresh (ErrorResponse 401 data) w).2
        /\ cleanup (login payload (ErrorResponse 401 data) w).2).
Proof.
  split.
  - rewrite request_failed by done. cbn [intercepted Z.eqb Pos.eqb snd].
    cbv zeta. split; [apply lookup_delete_eq |]. by repeat split.
  - intros payload cleanup.
    rewrite refresh_failed, login_failed by done.
    cbn [intercepted Z.eqb Pos.eqb snd].
    assert (cleanup (cleared (without_credential w))) as H; [| done].
    unfold cleanup. destruct (cleared_stored (without_credential w)) as (? & ? & ?).
    split; [apply cleared_no_credential |].
    repeat (split; [done |]).
    split.
    + rewrite cleared_effects. cbn [without_credential effects].
      by rewrite <- app_assoc.
    + intros allowedRoles. by rewrite ProtectedRoute_signed_out.
Qed.

(** ** The credential and the authenticated flag *)

Lemma applied_run (R : JsValue) (w : World) :
  is_object R = true ->
  exists d, applyAuthResponse R w = (Return d, (applyAuthResponse R w).2)
            /\ applied R w d (applyAuthResponse R w).2.
Proof.
  intros H. destruct (applyAuthResponse_runs R w) as (d & w' & E & Ha & _).
  rewrite E. exists d. split; [done | by apply Ha].
Qed.

Lemma signed_in_fields (data : JsValue) (w : World) :
  let w1 := (applyAuthResponse data w).2 in
  let w' := signed_in data w in
  isAuthenticated w' = true
  /\ initializing w' = initializing w1
  /\ institutionId w' = institutionId w1
  /\ role w' = role w1
  /\ employeeId w' = employeeId w1
  /\ localStorage w' = localStorage w1
  /\ headers_common w' = headers_common w1
  /\ effects w' = (effects w1 ++ [SetIsAuthenticated true])%list.
Proof. by repeat split. Qed.

Lemma intercepted_fields (o : HttpOutcome) (w : World) :
  isAuthenticated (intercepted o w) = isAuthenticated w
  /\ initializing (intercepted o w) = initializing w
  /\ institutionId (intercepted o w) = institutionId w
  /\ role (intercepted o w) = role w
  /\ employeeId (intercepted o w) = employeeId w
  /\ localStorage (intercepted o w) = localStorage w.
Proof.
  destruct o as [| status data |]; try by repeat split.
  unfold intercepted. by destruct (status =? 401)%Z.
Qed.

Lemma intercepted_no_credential (o : HttpOutcome) (w : World) :
  headers_common w !! "Authorization" = None ->
  headers_common (intercepted o w) !! "Authorization" = None.
Proof.
  intros H. destruct o as [| status data |]; try done.
  unfold intercepted. destruct (status =? 401)%Z; [apply lookup_delete_eq | done].
Qed.

(** C1, counterexample. After the login of scenario B settled the session
    is authenticated and no [Authorization] default header is set.  And
    after [applyAuthResponse] returned for the response of scenario A, in a
    session that has just mounted, the header is set while the session is
    not authenticated: [login] and [refresh] set the flag only afterwards. *)
Lemma tokenless_login_has_no_credential :
  isAuthenticated tokenless_session = true
  /\ headers_common tokenless_session !! "Authorization" = None
  /\ ~ credential_follows_flag tokenless_session
  /\ isAuthenticated (applyAuthResponse scenario_A (mount ∅)).2 = false
  /\ headers_common (applyAuthResponse scenario_A (mount ∅)).2 !! "Authorization"
     = Some "Bearer h.eyJzdWIiOiJlbXAtMSIsInJvbGUiOiJBRE1JTiIsImluc3RpdHV0aW9uSWQiOiJpbnN0LTkifQ.s"
  /\ ~ credential_follows_flag (applyAuthResponse scenario_A (mount ∅)).2.
Proof.
  split; [by vm_compute |]. split; [by vm_compute |]. split.
  { intros [H _]. specialize (H ltac:(by vm_compute)).
    destruct H as [v H]. by vm_compute in H. }
  split; [by vm_compute |]. split; [by vm_compute |].
  intros [_ H]. specialize (H ltac:(by vm_compute)). by vm_compute in H.
Qed.

Lemma credential_absent_step (op : Op) (w : World) :
  (isAuthenticated w = false -> headers_common w !! "Authorization" = None) ->
  isAuthenticated (run op w) = false ->
  headers_common (run op w) !! "Authorization" = None.
Proof.
  intros IH.
  destruct (run_cases op w)
    as [[data ->] | [[data ->] | [[o ->] | [[o ->] | [o ->]]]]].
  - discriminate.
  - discriminate.
  - intros _. apply cleared_no_credential.
  - intros _. apply cleared_no_credential.
  - destruct (intercepted_fields o w) as (-> & _).
    intros H. by apply intercepted_no_credential, IH.
Qed.

(** C1, as the code has it. After the boot refresh, [login], [logout],
    [refresh] or a request that the HTTP client answered settle, in any
    number and order: when [isAuthenticated] is false there is no
    [Authorization] default header.  When it is true the header need not be
    there; what holds is that a [login] or [refresh] whose response carries
    a non-empty string [accessToken] leaves the flag true and the header
    [Bearer <token>], and that one whose response carries no such token
    leaves the flag true and the default headers as they were.
    [applyAuthResponse] is a step of [login] and [refresh], not an operation
    that settles by itself: it never touches the flag, so that when it
    returns for a response with a token the header is set whatever the flag
    is. *)
Theorem credential_absent_when_signed_out :
  (forall (stored : gmap string string) (ops : list Op),
      isAuthenticated (after stored ops) = false ->
      headers_common (after stored ops) !! "Authorization" = None)
  /\ (forall (w : World) (payload data : JsValue) (token : string),
        is_object data = true ->
        token_of data = Some token ->
        forall w',
          w' = (login payload (Resolved data) w).2
          \/ w' = (refresh (Resolved data) w).2 ->
          isAuthenticated w' = true
          /\ headers_common w' !! "Authorization" = Some ("Bearer " ++ token))
  /\ (forall (w : World) (payload data : JsValue),
        token_of data = None ->
        forall w',
          w' = (login payload (Resolved data) w).2
          \/ w' = (refresh (Resolved data) w).2 ->
          isAuthenticated w' = true
          /\ headers_common w' = headers_common w)
  /\ (forall (w : World) (data : JsValue),
        isAuthenticated (applyAuthResponse data w).2 = isAuthenticated w
        /\ forall token : string,
             token_of data = Some token ->
             headers_common (applyAuthResponse data w).2 !! "Authorization"
             = Some ("Bearer " ++ token)).
Proof.
  split; [| split; [| split]].
  - intros stored.
    apply (after_ind
             (fun w => isAuthenticated w = false ->
                       headers_common w !! "Authorization" = None)).
    + intros _. apply lookup_empty.
    + intros op w. apply credential_absent_step.
  - intros w payload data token Hobj Htok w' Hw'.
    assert (w' = signed_in data w) as ->.
    { destruct Hw' as [-> | ->]; [by rewrite login_resolved | by rewrite refresh_resolved]. }
    destruct (signed_in_fields data w) as (-> & _ & _ & _ & _ & _ & -> & _).
    destruct (applied_run data w Hobj) as (d & _ & Ha).
    rewrite (ap_headers _ _ _ _ Ha), Htok. split; [done | apply lookup_insert_eq].
  - intros w payload data Htok w' Hw'.
    assert (w' = signed_in data w) as ->.
    { destruct Hw' as [-> | ->]; [by rewrite login_resolved | by rewrite refresh_resolved]. }
    destruct (signed_in_fields data w) as (-> & _ & _ & _ & _ & _ & -> & _).
    split; [done |].
    destruct (applyAuthResponse_runs data w) as (d & w1 & E & Hobj & Hnot).
    rewrite E. cbn [snd]. destruct (is_object data).
    + by rewrite (ap_headers _ _ _ _ (Hobj eq_refl)), Htok.
    + by destruct (Hnot eq_refl) as [_ ->].
  - intros w data.
    destruct (applyAuthResponse_runs data w) as (d & w1 & E & Hobj & Hnot).
    rewrite E. cbn [snd]. destruct (is_object data) eqn:EO.
    + specialize (Hobj eq_refl). split; [apply (ap_isAuthenticated _ _ _ _ Hobj) |].
      intros token Htok. rewrite (ap_headers _ _ _ _ Hobj), Htok.
      apply lookup_insert_eq.
    + destruct (Hnot eq_refl) as [_ ->]. split; [done |].
      intros token Htok. by destruct data.
Qed.

(** A session that signs in with the token of scenario A and is then
    signed out by a logout whose remote call gets no answer; the login of
    scenario B, which has no token, over the session of the administrator:
    the credential of the administrator stays. *)
Lemma credential_absent_when_signed_out_witness :
  (isAuthenticated
     (after ∅ [Login JNull (Resolved scenario_A); Logout NoResponse]) = false
   /\ headers_common
        (after ∅ [Login JNull (Resolved scenario_A); Logout NoResponse])
      !! "Authorization" = None)
  /\ (is_object scenario_A = true
      /\ token_of scenario_A
         = Some "h.eyJzdWIiOiJlbXAtMSIsInJvbGUiOiJBRE1JTiIsImluc3RpdHV0aW9uSWQiOiJpbnN0LTkifQ.s"
      /\ isAuthenticated (login JNull (Resolved scenario_A) (mount ∅)).2 = true
      /\ headers_common (login JNull (Resolved scenario_A) (mount ∅)).2
         !! "Authorization"
         = Some "Bearer h.eyJzdWIiOiJlbXAtMSIsInJvbGUiOiJBRE1JTiIsImluc3RpdHV0aW9uSWQiOiJpbnN0LTkifQ.s")
  /\ (token_of scenario_B = None
      /\ isAuthenticated (login JNull (Resolved scenario_B) admin_session).2 = true
      /\ headers_common (login JNull (Resolved scenario_B) admin_session).2
         = headers_common admin_session)
  /\ (isAuthenticated (applyAuthResponse scenario_A (mount ∅)).2
      = isAuthenticated (mount ∅)
      /\ headers_common (applyAuthResponse scenario_A (mount ∅)).2
         !! "Authorization"
         = Some "Bearer h.eyJzdWIiOiJlbXAtMSIsInJvbGUiOiJBRE1JTiIsImluc3RpdHV0aW9uSWQiOiJpbnN0LTkifQ.s").
Proof.
  destruct credential_absent_when_signed_out as (Hout & Htoken & Hnone & Hstep).
  split; [| split; [| split]].
  - split; [vm_compute; reflexivity |].
    apply Hout. vm_compute; reflexivity.
  - split; [vm_compute; reflexivity |]. split; [vm_compute; reflexivity |].
    apply (Htoken (mount ∅) JNull scenario_A);
      [vm_compute; reflexivity | vm_compute; reflexivity | by left].
  - assert (token_of scenario_B = None) as H by (vm_compute; reflexivity).
    split; [assumption |].
    apply (Hnone admin_session JNull scenario_B H). by left.
  - destruct (Hstep (mount ∅) scenario_A) as [Hflag Hheader].
    split; [exact Hflag |]. apply Hheader. vm_compute; reflexivity.
Defined.

(** ** The token decoder *)

(** C5, counterexample. The two-segment token is decoded to its claims, not
    to null; the payload [5], which is not an object, is returned as the
    number it is. *)
Lemma decodeJwt_accepts_two_segments_and_numbers :
  length (split "." two_segment_token) = 2%nat
  /\ decodeJwt two_segment_token = Return (obj [("role", JStr "PUBLISHER")])
  /\ length (split "." number_payload_token) = 3%nat
  /\ decodeJwt number_payload_token = Return (JNum 5 0)
  /\ ~ decodes_strictly two_segment_token
  /\ ~ decodes_strictly number_payload_token.
Proof.
  repeat (split; [by vm_compute |]). split.
  - intros [H _]. specialize (H ltac:(by vm_compute)). by vm_compute in H.
  - intros [_ H]. destruct (H (JNum 5 0) ltac:(by vm_compute)) as [? | [props ?]]; done.
Qed.

(** C5, as the code has it. For every input string [decodeJwt] completes
    normally, with the value parsed from the second dot-separated segment or
    with null.  It is null when there is no second segment or it is empty,
    when the segment is not base64, when the decoded bytes are not UTF-8, and
    when the text is not JSON: every exception of the [try] block is turned
    into null.  Otherwise the result is the parsed value as it is, whatever
    the number of segments after the second and whether or not the value is
    an object. *)
Theorem decodeJwt_never_throws (token : string) :
  (exists v, decodeJwt token = Return v)
  /\ (forall e, decodeJwt_try token = Throw e -> decodeJwt token = Return JNull)
  /\ (forall h, split "." token = [h] -> decodeJwt token = Return JNull)
  /\ (forall h rest, split "." token = h :: "" :: rest ->
        decodeJwt token = Return JNull)
  /\ (forall h payload rest,
        split "." token = h :: payload :: rest -> payload <> "" ->
        (forall e, Platform.atob (normalized payload) = Throw e ->
           decodeJwt token = Return JNull)
        /\ (forall bytes,
              Platform.atob (normalized payload) = Return bytes ->
              (forall e, Platform.decodeURIComponent (Platform.escape bytes) = Throw e ->
                 decodeJwt token = Return JNull)
              /\ (forall text,
                    Platform.decodeURIComponent (Platform.escape bytes) = Return text ->
                    (forall e, Json.JSON_parse text = Throw e ->
                       decodeJwt token = Return JNull)
                    /\ (forall v, Json.JSON_parse text = Return v ->
                          decodeJwt token = Return v)))).
Proof.
  split; [apply decodeJwt_returns |].
  split; [by unfold decodeJwt; intros e -> |].
  split; [by unfold decodeJwt, decodeJwt_try; intros h -> |].
  split; [by unfold decodeJwt, decodeJwt_try; intros h rest -> |].
  intros h payload rest Hs Hne.
  unfold decodeJwt, decodeJwt_try. rewrite Hs.
  destruct (String.eqb_spec payload "") as [? | _]; [done |].
  fold (normalized payload).
  split; [by intros e -> |]. intros bytes ->. cbn [cbind].
  split; [by intros e -> |]. intros text ->. cbn [cbind].
  split; [by intros e -> | by intros v ->].
Qed.

(** A token of three segments whose second is the base64 of
    [{"sub":"emp-1"}] decodes to that mapping. *)
Lemma decodeJwt_never_throws_witness :
  split "." "h.eyJzdWIiOiJlbXAtMSJ9.s" = ["h"; "eyJzdWIiOiJlbXAtMSJ9"; "s"]
  /\ "eyJzdWIiOiJlbXAtMSJ9" <> EmptyString
  /\ Platform.atob (normalized "eyJzdWIiOiJlbXAtMSJ9") = Return sub_claim_bytes
  /\ Platform.decodeURIComponent (Platform.escape sub_claim_bytes)
     = Return sub_claim_text
  /\ Json.JSON_parse sub_claim_text = Return (obj [("sub", JStr "emp-1")])
  /\ decodeJwt "h.eyJzdWIiOiJlbXAtMSJ9.s" = Return (obj [("sub", JStr "emp-1")]).
Proof.
  assert (split "." "h.eyJzdWIiOiJlbXAtMSJ9.s" = ["h"; "eyJzdWIiOiJlbXAtMSJ9"; "s"])
    as Hs by (vm_compute; reflexivity).
  assert ("eyJzdWIiOiJlbXAtMSJ9" <> EmptyString) as Hne by discriminate.
  assert (Platform.atob (normalized "eyJzdWIiOiJlbXAtMSJ9") = Return sub_claim_bytes)
    as Ha by (vm_compute; reflexivity).
  assert (Platform.decodeURIComponent (Platform.escape sub_claim_bytes)
          = Return sub_claim_text) as Hd by (vm_compute; reflexivity).
  assert (Json.JSON_parse sub_claim_text = Return (obj [("sub", JStr "emp-1")]))
    as Hj by (vm_compute; reflexivity).
  repeat (split; [assumption |]).
  destruct (decodeJwt_never_throws "h.eyJzdWIiOiJlbXAtMSJ9.s") as (_ & _ & _ & _ & H).
  destruct (H _ _ _ Hs Hne) as (_ & H1).
  destruct (H1 _ Ha) as (_ & H2).
  destruct (H2 _ Hd) as (_ & H3).
  exact (H3 _ Hj).
Defined.

(** ** Precedence of the claims *)

Lemma get_string_truthy (v : JsValue) (k s : string) :
  get v k = JStr s -> to_boolean v = true.
Proof.
  destruct v; simpl; try discriminate; try done.
  by destruct (String.eqb k "sub").
Qed.

(** C4. A response carries a token whose decoded claims have a role of the
    enum and, at the top level, a different role of the enum.  Then
    [applyAuthResponse] returns the role of the claims, and the role of the
    claims is what the state and [localStorage] hold afterwards; the role is
    persisted once, from the claims: the fallback is not applied. *)
Theorem claims_role_wins (R : JsValue) (w : World) (token : string)
    (claims : JsValue) (r r' : EmployeeRole) :
  is_object R = true ->
  token_of R = Some token ->
  decodeJwt token = Return claims ->
  get claims "role" = JStr (role_name r) ->
  get R "role" = JStr (role_name r') ->
  r <> r' ->
  exists d w',
    applyAuthResponse R w = (Return d, w')
    /\ d_role d = Some (role_name r)
    /\ role w' = Some (role_name r)
    /\ localStorage w' !! "employeeRole" = Some (role_name r)
    /\ exists new,
         effects w' = (effects w ++ new)%list
         /\ List.filter is_role_effect new
            = [SetRole (Some (role_name r)); SetItem "employeeRole" (role_name r)].
Proof.
  intros [HR Hty]%is_object_true Htok Hdec Hrole Hrole' _.
  unfold token_of in Htok.
  pose proof (get_string_truthy _ _ _ Hrole) as Hclaims.
  assert (as_role (get claims "role") = Some (role_name r)) as Hcr
    by (rewrite Hrole; apply as_role_role_name).
  assert (as_role (or (get R "role") (opt_get (get R "user") "role"))
          = Some (role_name r')) as Hfr.
  { rewrite Hrole'. unfold or.
    replace (to_boolean (JStr (role_name r'))) with true by (by destruct r').
    apply as_role_role_name. }
  clear Hrole Hrole'.
  cut (wp (applyAuthResponse R)
          (fun c w' =>
             exists d, c = Return d
               /\ d_role d = Some (role_name r)
               /\ role w' = Some (role_name r)
               /\ localStorage w' !! "employeeRole" = Some (role_name r)
               /\ exists new,
                    effects w' = (effects w ++ new)%list
                    /\ List.filter is_role_effect new
                       = [SetRole (Some (role_name r));
                          SetItem "employeeRole" (role_name r)]) w).
  { unfold wp. destruct (applyAuthResponse R w) as [c w']; cbn [fst snd].
    intros (d & -> & H). by exists d, w'. }
  destruct w. unfold applyAuthResponse. rewrite HR, Hty.
  cbn [negb orb String.eqb Ascii.eqb Bool.eqb].
  wp_run.
  all: eexists; split; [reflexivity |].
  all: cbn [isAuthenticated initializing institutionId role employeeId
            localStorage headers_common effects d_role to_string default id].
  all: split; [reflexivity |]; split; [reflexivity |].
  all: split; [by map_lookup |].
  all: eexists; split; [reflexivity |].
  all: reflexivity.
Qed.

Lemma claims_role_wins_witness :
  is_object precedence_response = true
  /\ token_of precedence_response = Some "h.eyJyb2xlIjoiUFVCTElTSEVSIn0.s"
  /\ decodeJwt "h.eyJyb2xlIjoiUFVCTElTSEVSIn0.s"
     = Return (obj [("role", JStr "PUBLISHER")])
  /\ get (obj [("role", JStr "PUBLISHER")]) "role" = JStr (role_name PUBLISHER)
  /\ get precedence_response "role" = JStr (role_name ADMIN)
  /\ PUBLISHER <> ADMIN
  /\ exists d w',
       applyAuthResponse precedence_response (mount ∅) = (Return d, w')
       /\ d_role d = Some "PUBLISHER"
       /\ role w' = Some "PUBLISHER"
       /\ localStorage w' !! "employeeRole" = Some "PUBLISHER".
Proof.
  assert (is_object precedence_response = true) as H1 by (vm_compute; reflexivity).
  assert (token_of precedence_response = Some "h.eyJyb2xlIjoiUFVCTElTSEVSIn0.s")
    as H2 by (vm_compute; reflexivity).
  assert (decodeJwt "h.eyJyb2xlIjoiUFVCTElTSEVSIn0.s"
          = Return (obj [("role", JStr "PUBLISHER")])) as H3
    by (vm_compute; reflexivity).
  assert (get (obj [("role", JStr "PUBLISHER")]) "role" = JStr (role_name PUBLISHER))
    as H4 by (vm_compute; reflexivity).
  assert (get precedence_response "role" = JStr (role_name ADMIN)) as H5
    by (vm_compute; reflexivity).
  assert (PUBLISHER <> ADMIN) as H6 by discriminate.
  repeat (split; [assumption |]).
  destruct (claims_role_wins precedence_response (mount ∅) _ _ _ _ H1 H2 H3 H4 H5 H6)
    as (d & w' & E & Hd & Hr & Hs & _).
  exists d, w'. by repeat split.
Defined.

(** ** What is persisted and what is returned *)

Lemma first_some_None_r {A} (a : option A) : first_some a None = a.
Proof. by destruct a. Qed.

(** In a fresh session, the role and the employee id that are stored are
    those that are returned, and the header is set exactly when the response
    has a token.  The institution id that is stored is the one returned
    unless the claims and the fallback both supply one: then the claim is
    returned and the fallback is stored. *)
Lemma applyAuthResponse_fresh (R : JsValue) (w : World) :
  is_object R = true -> fresh w ->
  exists d w',
    applyAuthResponse R w = (Return d, w')
    /\ localStorage w' !! "employeeRole" = d_role d
    /\ localStorage w' !! "employeeId" = d_employeeId d
    /\ (is_Some (headers_common w' !! "Authorization") <-> is_Some (token_of R))
    /\ d_institutionId d
       = first_some (claim_institutionId R) (fallback_institutionId R)
    /\ localStorage w' !! "institutionId"
       = first_some (fallback_institutionId R) (claim_institutionId R).
Proof.
  intros Hobj (Hi & Hr & He & Hh).
  destruct (applied_run R w Hobj) as (d & E & Ha). exists d, (applyAuthResponse R w).2.
  split; [done |]. destruct Ha as [-> _ _ _ _ _ -> -> -> ->]. cbn [d_role d_employeeId d_institutionId].
  rewrite Hi, Hr, He, !first_some_None_r.
  split; [by destruct (claim_role R) |].
  split; [by destruct (claim_employeeId R) |].
  split; [| done].
  destruct (token_of R) as [t |].
  - rewrite lookup_insert_eq. split; eauto.
  - rewrite Hh. split; intros [? ?]; done.
Qed.

(** Whenever the claims and the fallback both supply an institution id, the
    claim is returned and the fallback is what the state and [localStorage]
    hold. *)
Lemma institution_fallback_stored_over_claim (R : JsValue) (w : World) (a b : string) :
  is_object R = true ->
  claim_institutionId R = Some a ->
  fallback_institutionId R = Some b ->
  exists d w',
    applyAuthResponse R w = (Return d, w')
    /\ d_institutionId d = Some a
    /\ institutionId w' = Some b
    /\ localStorage w' !! "institutionId" = Some b.
Proof.
  intros Hobj Hc Hf.
  destruct (applied_run R w Hobj) as (d & E & Ha). exists d, (applyAuthResponse R w).2.
  split; [done |]. destruct Ha as [-> _ _ -> _ _ -> _ _ _].
  by rewrite Hc, Hf.
Qed.

(** C3, at the failing input. In a fresh session the response above makes
    [applyAuthResponse] return the institution id of the claims, [inst-A],
    while the state and [localStorage] hold the fallback, [inst-B]: the
    fallback block persists before it tests [nextInstitutionId], where the
    role and employee id blocks test first. *)
Theorem institution_fallback_overwrites_claim :
  is_object conflicting_institution_response = true
  /\ fresh (mount ∅)
  /\ (applyAuthResponse conflicting_institution_response (mount ∅)).1
     = Return (mkDerived None (Some "inst-A") None)
  /\ institutionId (applyAuthResponse conflicting_institution_response (mount ∅)).2
     = Some "inst-B"
  /\ localStorage (applyAuthResponse conflicting_institution_response (mount ∅)).2
     !! "institutionId" = Some "inst-B".
Proof.
  split; [by vm_compute |]. split; [by repeat split |].
  repeat split; by vm_compute.
Qed.

(** ** The institution id fallback *)

Lemma falsy_not_nonempty_string (v : JsValue) :
  to_boolean v = false -> nonempty_string v = None.
Proof. destruct v; simpl; try done. by intros ->. Qed.

Lemma fallback_institutionId_first_truthy (R : JsValue) :
  fallback_institutionId R
  = first_truthy (institutionId_sources R) ≫= nonempty_string.
Proof.
  unfold fallback_institutionId, institutionId_sources, first_truthy, or.
  cbn [List.find].
  destruct (to_boolean (get R "institutionId")) eqn:E1; cbn [to_boolean]; rewrite ?E1; [done |].
  destruct (to_boolean (opt_get (get R "institution") "id")) eqn:E2; [done |].
  destruct (to_boolean (opt_get (get R "user") "institutionId")) eqn:E3; [done |].
  by apply falsy_not_nonempty_string.
Qed.

(** When no value of the list is a truthy non-string, the first truthy value
    is the first non-empty string. *)
Lemma first_truthy_nonempty_string (l : list JsValue) :
  Forall (fun v => to_boolean v = true -> exists s, v = JStr s) l ->
  first_truthy l ≫= nonempty_string = first_nonempty_string l.
Proof.
  unfold first_truthy. induction 1 as [| v l Hv _ IH]; [done |].
  cbn [List.find first_nonempty_string].
  destruct (to_boolean v) eqn:E.
  - destruct (Hv eq_refl) as [s ->]. simpl in *. by rewrite E.
  - by rewrite (falsy_not_nonempty_string v E).
Qed.

Lemma not_object_sources (R : JsValue) :
  is_object R = false -> first_truthy (institutionId_sources R) = None.
Proof. by destruct R. Qed.

(** C9, counterexample. The number is truthy, so the [||] chain stops at
    it; it is not a string, so no institution id is derived or persisted,
    although the second source holds the non-empty string [inst-3]. *)
Lemma truthy_number_blocks_institution_fallback :
  claim_institutionId numeric_institution_response = None
  /\ first_nonempty_string (institutionId_sources numeric_institution_response)
     = Some "inst-3"
  /\ (applyAuthResponse numeric_institution_response (mount ∅)).1
     = Return (mkDerived None None None)
  /\ localStorage (applyAuthResponse numeric_institution_response (mount ∅)).2
     !! "institutionId" = None
  /\ ~ institution_fallback_first_string numeric_institution_response (mount ∅).
Proof.
  repeat (split; [by vm_compute |]).
  intros H. destruct (H ltac:(by vm_compute)) as (d & w' & E & Hd & _).
  assert (d = mkDerived None None None) as ->.
  { apply (f_equal fst) in E. vm_compute in E. by injection E as <-. }
  by vm_compute in Hd.
Qed.

(** C9, as the code has it. When the claims set no institution id, the
    fallback takes the first truthy value among the top-level
    [institutionId], the [id] of [institution] and the [institutionId] of
    [user], in that order.  If that value is a non-empty string it is
    derived and persisted; otherwise, and when no source is truthy, nothing is
    derived and the stored institution id is left as it was.  So the falsy
    values (undefined, null, false, 0, the empty string) at an earlier
    position are passed over, and when no source is a truthy non-string the
    value is the first non-empty string; but a truthy non-string at an
    earlier position ends the search. *)
Theorem institution_fallback_first_truthy (R : JsValue) (w : World) :
  claim_institutionId R = None ->
  exists d w',
    applyAuthResponse R w = (Return d, w')
    /\ d_institutionId d
       = first_truthy (institutionId_sources R) ≫= nonempty_string
    /\ match first_truthy (institutionId_sources R) ≫= nonempty_string with
       | Some v =>
           institutionId w' = Some v
           /\ localStorage w' !! "institutionId" = Some v
       | None =>
           institutionId w' = institutionId w
           /\ localStorage w' !! "institutionId" = localStorage w !! "institutionId"
       end
    /\ (Forall (fun v => to_boolean v = true -> exists s, v = JStr s)
          (institutionId_sources R) ->
        first_truthy (institutionId_sources R) ≫= nonempty_string
        = first_nonempty_string (institutionId_sources R)).
Proof.
  intros Hc.
  destruct (applyAuthResponse_runs R w) as (d & w' & E & Hobj & Hnot).
  exists d, w'. split; [done |].
  split; [| split; [| apply first_truthy_nonempty_string]].
  - destruct (is_object R) eqn:EO.
    + destruct (Hobj eq_refl) as [-> _ _ _ _ _ _ _ _ _]. cbn [d_institutionId].
      rewrite Hc. apply fallback_institutionId_first_truthy.
    + destruct (Hnot eq_refl) as [-> _]. by rewrite not_object_sources.
  - destruct (is_object R) eqn:EO.
    + destruct (Hobj eq_refl) as [_ _ _ Hi _ _ Hs _ _ _].
      rewrite Hi, Hs, Hc, <- fallback_institutionId_first_truthy.
      by destruct (fallback_institutionId R).
    + destruct (Hnot eq_refl) as [_ ->]. by rewrite not_object_sources.
Qed.

(** Scenario B: the top-level [institutionId] is missing, which is falsy, and
    the [id] of [institution] is taken. *)
Lemma institution_fallback_first_truthy_witness :
  claim_institutionId scenario_B = None
  /\ exists d w',
       applyAuthResponse scenario_B (mount ∅) = (Return d, w')
       /\ d_institutionId d = Some "inst-3"
       /\ institutionId w' = Some "inst-3"
       /\ localStorage w' !! "institutionId" = Some "inst-3".
Proof.
  assert (claim_institutionId scenario_B = None) as Hc by (vm_compute; reflexivity).
  split; [assumption |].
  destruct (institution_fallback_first_truthy scenario_B (mount ∅) Hc)
    as (d & w' & E & Hd & Hs & _).
  assert (first_truthy (institutionId_sources scenario_B) ≫= nonempty_string
          = Some "inst-3") as Hv by (vm_compute; reflexivity).
  rewrite Hv in Hd, Hs. exists d, w'. by repeat split; try apply Hs.
Defined.

(** ** Invariants of the stored values *)

Lemma truthy_to_string (v : option string) :
  truthy v = true -> to_string v <> "".
Proof. destruct v as [s |]; [| done]. by intros ?%truthy_Some. Qed.

Lemma truthy_false (v : option string) :
  truthy v = false <-> v = None \/ v = Some "".
Proof.
  destruct v as [s |]; simpl.
  - destruct (String.eqb_spec s "") as [-> | Hne]; simpl.
    + split; auto.
    + split; [done | intros [? | [= ?]]; done].
  - split; auto.
Qed.

(** An invariant that every mutation keeps, a write to [localStorage] being
    required to keep it only for a non-empty value, is kept by every
    statement of the provider and by every operation. *)
Section Discipline.
Variable I : World -> Prop.
Hypothesis I_setIsAuthenticated : forall b, maintains I (setIsAuthenticated b).
Hypothesis I_setInitializing : forall b, maintains I (setInitializing b).
Hypothesis I_setInstitutionId : forall v, maintains I (setInstitutionId v).
Hypothesis I_setRole : forall v, maintains I (setRole v).
Hypothesis I_setEmployeeId : forall v, maintains I (setEmployeeId v).
Hypothesis I_removeItem : forall k, maintains I (localStorage_removeItem k).
Hypothesis I_setItem :
  forall k v, v <> "" -> maintains I (localStorage_setItem k v).
Hypothesis I_set_header : forall k v, maintains I (set_default_header k v).
Hypothesis I_delete_header : forall k, maintains I (delete_default_header k).

#[local] Hint Resolve I_setIsAuthenticated I_setInitializing I_setInstitutionId
  I_setRole I_setEmployeeId I_removeItem I_set_header I_delete_header
  : maintains.

Lemma setAuthToken_maintains token : maintains I (setAuthToken token).
Proof. unfold setAuthToken. maintains_split; auto with maintains. Qed.

Lemma persistInstitutionId_maintains v : maintains I (persistInstitutionId v).
Proof.
  unfold persistInstitutionId. maintains_split; auto with maintains.
  by apply I_setItem, truthy_to_string.
Qed.

Lemma persistRole_maintains v : maintains I (persistRole v).
Proof.
  unfold persistRole. maintains_split; auto with maintains.
  by apply I_setItem, truthy_to_string.
Qed.

Lemma persistEmployeeId_maintains v : maintains I (persistEmployeeId v).
Proof.
  unfold persistEmployeeId. maintains_split; auto with maintains.
  by apply I_setItem, truthy_to_string.
Qed.

#[local] Hint Resolve setAuthToken_maintains persistInstitutionId_maintains
  persistRole_maintains persistEmployeeId_maintains : maintains.

Lemma apply_claims_maintains claims : maintains I (apply_claims claims).
Proof. unfold apply_claims. cbv zeta. maintains_split; auto with maintains. Qed.

#[local] Hint Resolve apply_claims_maintains : maintains.

Lemma applyAuthResponse_maintains R : maintains I (applyAuthResponse R).
Proof. unfold applyAuthResponse. cbv zeta. maintains_split; auto with maintains. Qed.

Lemma clear_session_maintains : maintains I clear_session.
Proof. unfold clear_session. maintains_split; auto with maintains. Qed.

Lemma response_interceptor_maintains o : maintains I (response_interceptor o).
Proof.
  unfold response_interceptor. cbv zeta. maintains_split; auto with maintains.
Qed.

#[local] Hint Resolve applyAuthResponse_maintains clear_session_maintains
  response_interceptor_maintains : maintains.

Lemma refresh_maintains o : maintains I (refresh o).
Proof.
  unfold refresh, institutionAuthService_refresh, post.
  maintains_split; auto with maintains.
Qed.

Lemma login_maintains payload o : maintains I (login payload o).
Proof.
  unfold login, institutionAuthService_login, post.
  maintains_split; auto with maintains.
Qed.

Lemma logout_maintains o : maintains I (logout o).
Proof.
  unfold logout, institutionAuthService_logout, post.
  maintains_split; auto with maintains.
Qed.

#[local] Hint Resolve refresh_maintains : maintains.

Lemma boot_maintains o : maintains I (boot o).
Proof. unfold boot. maintains_split; auto with maintains. Qed.

Lemma run_maintains op w : I w -> I (run op w).
Proof.
  destruct op; simpl.
  - apply boot_maintains.
  - apply login_maintains.
  - apply logout_maintains.
  - apply refresh_maintains.
  - apply response_interceptor_maintains.
Qed.

Lemma after_maintains stored ops : I (mount stored) -> I (after stored ops).
Proof. intros H. apply after_ind; [done | apply run_maintains]. Qed.
End Discipline.

Lemma writes_nonempty_after stored ops :
  Forall writes_nonempty (effects (after stored ops)).
Proof.
  apply (after_maintains (fun w => Forall writes_nonempty (effects w)));
    try (intros; intros w Hw; apply Forall_app; split;
         [exact Hw | by constructor]).
  constructor.
Qed.

Lemma stored_nonempty_after stored ops :
  stored_nonempty stored -> stored_nonempty (localStorage (after stored ops)).
Proof.
  intros H.
  apply (after_maintains (fun w => stored_nonempty (localStorage w)));
    try (intros; intros w Hw; exact Hw); try exact H.
  - intros k w Hw k' v Hk. cbn [localStorage_removeItem snd localStorage].
    destruct (decide (k = k')) as [-> | Hne].
    + by rewrite lookup_delete_eq.
    + rewrite lookup_delete_ne by done. by apply Hw.
  - intros k v Hv w Hw k' v' Hk. cbn [localStorage_setItem snd localStorage].
    destruct (decide (k = k')) as [-> | Hne].
    + rewrite lookup_insert_eq. by intros [= <-].
    + rewrite lookup_insert_ne by done. by apply Hw.
Qed.

(** C10. Each of [persistInstitutionId], [persistRole] and
    [persistEmployeeId], called with null or with the empty string, sets the
    state and removes its key from [localStorage]; it writes nothing.  So
    every write the provider ever makes to [localStorage] has a non-empty
    value, and, the three keys holding no empty string when the provider
    mounts, they never hold one after any sequence of operations. *)
Theorem persist_empty_removes_key :
  (forall (v : option string) (w : World),
      v = None \/ v = Some "" ->
      (localStorage (persistInstitutionId v w).2 = delete "institutionId" (localStorage w)
       /\ effects (persistInstitutionId v w).2
          = (effects w ++ [SetInstitutionId v; RemoveItem "institutionId"])%list)
      /\ (localStorage (persistRole v w).2 = delete "employeeRole" (localStorage w)
          /\ effects (persistRole v w).2
             = (effects w ++ [SetRole v; RemoveItem "employeeRole"])%list)
      /\ (localStorage (persistEmployeeId v w).2 = delete "employeeId" (localStorage w)
          /\ effects (persistEmployeeId v w).2
             = (effects w ++ [SetEmployeeId v; RemoveItem "employeeId"])%list))
  /\ (forall stored ops, Forall writes_nonempty (effects (after stored ops)))
  /\ (forall stored ops,
        stored_nonempty stored -> stored_nonempty (localStorage (after stored ops))).
Proof.
  split; [| split; [apply writes_nonempty_after | apply stored_nonempty_after]].
  intros v w Hv%truthy_false.
  unfold persistInstitutionId, persistRole, persistEmployeeId, bind.
  cbn [setInstitutionId setRole setEmployeeId]. rewrite Hv.
  cbn [localStorage_removeItem snd localStorage effects log].
  unfold log; cbn [effects]. by rewrite <- !app_assoc.
Qed.

(** The login of scenario A from an empty store, and a call with the empty
    string. *)
Lemma persist_empty_removes_key_witness :
  (Some "" = None \/ Some "" = Some "")
  /\ localStorage (persistRole (Some "") (mount {["employeeRole" := "ADMIN"]})).2
     !! "employeeRole" = None
  /\ stored_nonempty ∅
  /\ stored_nonempty
       (localStorage (after ∅ [Login JNull (Resolved scenario_A)])).
Proof.
  assert (Some "" = None \/ Some "" = Some "") as H1 by (by right).
  assert (stored_nonempty ∅) as H2 by (by intros k v _ ?).
  split; [assumption |]. split; [| split; [assumption |]].
  - destruct (proj1 persist_empty_removes_key (Some "")
                (mount {["employeeRole" := "ADMIN"]}) H1) as (_ & (-> & _) & _).
    apply lookup_delete_eq.
  - by apply (proj2 (proj2 persist_empty_removes_key)).
Defined.

(** ** The role *)

Lemma role_ok_as_role (v : JsValue) : role_ok (as_role v).
Proof.
  destruct (as_role v) as [s |] eqn:E; [| done].
  by apply as_role_Some in E as [_ ?].
Qed.

Lemma as_role_None (v : JsValue) : isEmployeeRole v = false -> as_role v = None.
Proof. destruct v; simpl; try done. by intros ->. Qed.

Lemma role_ok_first_some (a b : option string) :
  role_ok a -> role_ok b -> role_ok (first_some a b).
Proof. by destruct a. Qed.

Lemma mount_role (stored : gmap string string) :
  role (mount stored)
  = match stored !! "employeeRole" with
    | Some s => if isEmployeeRole (JStr s) then Some s else None
    | None => None
    end.
Proof.
  cbn [mount role]. destruct (stored !! "employeeRole") as [s |]; [| done].
  cbn [to_string default]. destruct (truthy (Some s)) eqn:E; cbn [andb]; [done |].
  apply truthy_false in E as [[=] | [= ->]]. done.
Qed.

Lemma applyAuthResponse_role (R : JsValue) (w : World) :
  exists d w',
    applyAuthResponse R w = (Return d, w')
    /\ d_role d = first_some (claim_role R) (fallback_role R)
    /\ role w' = first_some (d_role d) (role w)
    /\ localStorage w' !! "employeeRole"
       = first_some (d_role d) (localStorage w !! "employeeRole").
Proof.
  destruct (applyAuthResponse_runs R w) as (d & w' & E & Hobj & Hnot).
  exists d, w'. split; [done |].
  destruct (is_object R) eqn:EO.
  - destruct (Hobj eq_refl) as [-> _ _ _ -> _ _ -> _ _]. cbn [d_role].
    by destruct (claim_role R), (fallback_role R).
  - destruct (Hnot eq_refl) as [-> ->].
    assert (claim_role R = None /\ fallback_role R = None) as [-> ->]; [| done].
    unfold claim_role, fallback_role, claims_of, token_of.
    by destruct R.
Qed.

Lemma role_ok_step (op : Op) (w : World) : role_ok (role w) -> role_ok (role (run op w)).
Proof.
  intros H.
  assert (forall data, role_ok (role (signed_in data w))) as Hs.
  { intros data. destruct (signed_in_fields data w) as (_ & _ & _ & -> & _).
    destruct (applyAuthResponse_role data w) as (d & w' & E & Hd & Hr & _).
    rewrite E. cbn [snd]. rewrite Hr, Hd.
    repeat apply role_ok_first_some; try apply role_ok_as_role. done. }
  destruct (run_cases op w)
    as [[data ->] | [[data ->] | [[o ->] | [[o ->] | [o ->]]]]];
    try apply Hs; try done.
  by destruct (intercepted_fields o w) as (_ & _ & _ & -> & _).
Qed.

Lemma stored_role_step (stored : gmap string string) (op : Op) (w : World) :
  (forall v, localStorage w !! "employeeRole" = Some v ->
             isEmployeeRole (JStr v) = true \/ stored !! "employeeRole" = Some v) ->
  forall v, localStorage (run op w) !! "employeeRole" = Some v ->
            isEmployeeRole (JStr v) = true \/ stored !! "employeeRole" = Some v.
Proof.
  intros H.
  assert (forall data v,
             localStorage (signed_in data w) !! "employeeRole" = Some v ->
             isEmployeeRole (JStr v) = true \/ stored !! "employeeRole" = Some v) as Hs.
  { intros data v. destruct (signed_in_fields data w) as (_ & _ & _ & _ & _ & -> & _).
    destruct (applyAuthResponse_role data w) as (d & w' & E & Hd & _ & Hs).
    rewrite E. cbn [snd]. rewrite Hs, Hd.
    pose proof (role_ok_as_role (get (claims_of data) "role")) as H1.
    pose proof (role_ok_as_role
                  (or (get data "role") (opt_get (get data "user") "role"))) as H2.
    fold (claim_role data) in H1. fold (fallback_role data) in H2.
    destruct (claim_role data) as [a |]; [intros [= <-]; by left |].
    destruct (fallback_role data) as [b |]; [intros [= <-]; by left |].
    apply H. }
  intros v.
  destruct (run_cases op w)
    as [[data ->] | [[data ->] | [[o ->] | [[o ->] | [o ->]]]]];
    try apply Hs.
  - destruct (cleared_stored (intercepted o w)) as (_ & -> & _). done.
  - change (localStorage (booted (cleared (intercepted o w))))
      with (localStorage (cleared (intercepted o w))).
    destruct (cleared_stored (intercepted o w)) as (_ & -> & _). done.
  - destruct (intercepted_fields o w) as (_ & _ & _ & _ & _ & ->). apply H.
Qed.

(** C6, counterexample. The response holds the role [SUPERADMIN], which is
    outside the enum, at its top level; the claims of its token hold
    [PUBLISHER].  In a session that has just mounted it derives the role
    [PUBLISHER], sets it in the state and stores it. *)
Lemma invalid_role_beside_valid_one :
  get mixed_role_response "role" = JStr "SUPERADMIN"
  /\ isEmployeeRole (JStr "SUPERADMIN") = false
  /\ get (claims_of mixed_role_response) "role" = JStr "PUBLISHER"
  /\ (applyAuthResponse mixed_role_response (mount ∅)).1
     = Return (mkDerived (Some "PUBLISHER") None None)
  /\ role (applyAuthResponse mixed_role_response (mount ∅)).2 = Some "PUBLISHER"
  /\ localStorage (applyAuthResponse mixed_role_response (mount ∅)).2
     !! "employeeRole" = Some "PUBLISHER"
  /\ ~ invalid_role_yields_null mixed_role_response (mount ∅).
Proof.
  repeat (split; [by vm_compute |]).
  intros H.
  destruct (applyAuthResponse mixed_role_response (mount ∅)) as [c w'] eqn:E.
  assert (exists d, c = Return d /\ d_role d = Some "PUBLISHER") as (d & -> & Hd).
  { apply (f_equal fst) in E. vm_compute in E. subst c. by eexists. }
  cbn [fst snd] in *.
  destruct (H ltac:(exists (JStr "SUPERADMIN");
                    split; [vm_compute; by apply list_elem_of_further, list_elem_of_here
                           | by split]) d w' E) as (Hnone & _).
  congruence.
Qed.

(** C6, as the code has it. The role of the session is one of the four
    values of the enum or null: at the first render, where the stored value
    is kept only if it is in the enum; after any sequence of operations; and
    in what [applyAuthResponse] returns.  What [localStorage] holds under the
    role key is in the enum, unless it is the value that was there when the
    provider mounted.  A role value outside the enum is never derived nor
    stored, but it does not spoil the response that holds it: each position
    is tested by itself, the role derived being that of the claims when it
    is in the enum, otherwise the one at the top level (that of the nested
    user object when the top level holds a falsy one) when it is in the
    enum, otherwise null; a derived role is set and stored, and without one
    the role of the state and of [localStorage] is left as it was.  So a
    response whose role values, in the claims, at the top level and in the
    nested user object, are all outside the enum yields a null derived role
    and leaves the role of the state and of [localStorage] untouched. *)
Theorem role_is_in_enum_or_null :
  (forall stored,
      role (mount stored)
      = match stored !! "employeeRole" with
        | Some s => if isEmployeeRole (JStr s) then Some s else None
        | None => None
        end)
  /\ (forall stored ops, role_ok (role (after stored ops)))
  /\ (forall stored ops v,
        localStorage (after stored ops) !! "employeeRole" = Some v ->
        isEmployeeRole (JStr v) = true \/ stored !! "employeeRole" = Some v)
  /\ (forall R w,
        exists d w',
          applyAuthResponse R w = (Return d, w')
          /\ role_ok (d_role d)
          /\ (role_ok (role w) -> role_ok (role w'))
          /\ (isEmployeeRole (get (claims_of R) "role") = false ->
              isEmployeeRole (get R "role") = false ->
              isEmployeeRole (opt_get (get R "user") "role") = false ->
              d_role d = None
              /\ role w' = role w
              /\ localStorage w' !! "employeeRole" = localStorage w !! "employeeRole"))
  /\ (forall R w,
        exists d w',
          applyAuthResponse R w = (Return d, w')
          /\ d_role d
             = first_some (as_role (get (claims_of R) "role"))
                 (as_role (or (get R "role") (opt_get (get R "user") "role")))
          /\ role w' = first_some (d_role d) (role w)
          /\ localStorage w' !! "employeeRole"
             = first_some (d_role d) (localStorage w !! "employeeRole"))
  /\ (forall v s,
        as_role v = Some s <-> v = JStr s /\ isEmployeeRole (JStr s) = true).
Proof.
  split; [apply mount_role |]. split; [| split; [| split; [| split]]]; cycle 3.
  - apply applyAuthResponse_role.
  - apply as_role_Some.
  - intros stored.
    apply (after_ind (fun w => role_ok (role w))).
    + rewrite mount_role. destruct (stored !! "employeeRole") as [s |]; [| done].
      by destruct (isEmployeeRole (JStr s)) eqn:E.
    + apply role_ok_step.
  - intros stored.
    apply (after_ind
             (fun w => forall v, localStorage w !! "employeeRole" = Some v ->
                                 isEmployeeRole (JStr v) = true
                                 \/ stored !! "employeeRole" = Some v)).
    + intros v. cbn [mount localStorage]. auto.
    + apply stored_role_step.
  - intros R w.
    destruct (applyAuthResponse_role R w) as (d & w' & E & Hd & Hr & Hs).
    exists d, w'. split; [done |].
    assert (role_ok (d_role d)) as Hok.
    { rewrite Hd. apply role_ok_first_some; apply role_ok_as_role. }
    split; [done |]. split.
    + intros Hw. rewrite Hr. by apply role_ok_first_some.
    + intros H1 H2 H3.
      assert (d_role d = None) as Hnone.
      { rewrite Hd. unfold claim_role, fallback_role, or.
        rewrite (as_role_None _ H1).
        by destruct (to_boolean (get R "role")); apply as_role_None. }
      by rewrite Hr, Hs, Hnone.
Qed.

(** A stored role of the enum is kept at the first render and one outside
    it is not; the login of scenario A stores ADMIN; in a session that stores
    no role, the response with SUPERADMIN everywhere derives none and stores
    none. *)
Lemma role_is_in_enum_or_null_witness :
  role (mount {["employeeRole" := "SUPERADMIN"]}) = None
  /\ role (mount {["employeeRole" := "DELIVERER"]}) = Some "DELIVERER"
  /\ (localStorage (after ∅ [Login JNull (Resolved scenario_A)]) !! "employeeRole"
      = Some "ADMIN"
      /\ (isEmployeeRole (JStr "ADMIN") = true
          \/ (∅ : gmap string string) !! "employeeRole" = Some "ADMIN"))
  /\ (isEmployeeRole (get (claims_of superadmin_response) "role") = false
      /\ isEmployeeRole (get superadmin_response "role") = false
      /\ isEmployeeRole (opt_get (get superadmin_response "user") "role") = false
      /\ exists d w',
           applyAuthResponse superadmin_response (mount ∅) = (Return d, w')
           /\ d_role d = None
           /\ role w' = None
           /\ localStorage w' !! "employeeRole" = None).
Proof.
  destruct role_is_in_enum_or_null as (Hmount & _ & Hstored & Happly & _).
  split; [by rewrite Hmount |]. split; [by rewrite Hmount |]. split.
  - assert (localStorage (after ∅ [Login JNull (Resolved scenario_A)])
            !! "employeeRole" = Some "ADMIN") as H by (vm_compute; reflexivity).
    split; [assumption | by apply (Hstored ∅ _ _ H)].
  - assert (isEmployeeRole (get (claims_of superadmin_response) "role") = false)
      as H1 by (vm_compute; reflexivity).
    assert (isEmployeeRole (get superadmin_response "role") = false)
      as H2 by (vm_compute; reflexivity).
    assert (isEmployeeRole (opt_get (get superadmin_response "user") "role") = false)
      as H3 by (vm_compute; reflexivity).
    repeat (split; [assumption |]).
    destruct (Happly superadmin_response (mount ∅)) as (d & w' & E & _ & _ & H).
    destruct (H H1 H2 H3) as (Hd & Hr & Hs).
    exists d, w'. split; [done |]. split; [done |].
    split; [by rewrite Hr, Hmount | by rewrite Hs].
Defined.

(** * Further properties of the code *)

(** ** What a successful login or refresh leaves behind *)

Lemma not_object_supplies_nothing (R : JsValue) :
  is_object R = false ->
  token_of R = None
  /\ claim_role R = None /\ claim_institutionId R = None /\ claim_employeeId R = None
  /\ fallback_role R = None /\ fallback_institutionId R = None
  /\ fallback_employeeId R = None.
Proof. destruct R; try discriminate; intros _; by repeat split. Qed.

Lemma applyAuthResponse_applied (R : JsValue) (w : World) :
  exists d w', applyAuthResponse R w = (Return d, w') /\ applied R w d w'.
Proof.
  destruct (applyAuthResponse_runs R w) as (d & w' & E & Hobj & Hnot).
  exists d, w'. split; [done |].
  destruct (is_object R) eqn:EO; [by apply Hobj |].
  destruct (Hnot eq_refl) as [-> ->].
  destruct (not_object_supplies_nothing R EO) as (Ht & H1 & H2 & H3 & H4 & H5 & H6).
  split; rewrite ?Ht, ?H1, ?H2, ?H3, ?H4, ?H5, ?H6; done.
Qed.

Lemma signed_in_applied (data : JsValue) (w : World) :
  exists d, applied data w d (applyAuthResponse data w).2
            /\ (applyAuthResponse data w).1 = Return d.
Proof.
  destruct (applyAuthResponse_applied data w) as (d & w' & E & Ha).
  exists d. by rewrite E.
Qed.

Lemma signed_in_not_object (data : JsValue) (w : World) :
  is_object data = false -> signed_in data w = (setIsAuthenticated true w).2.
Proof.
  intros H. unfold signed_in. by rewrite applyAuthResponse_not_object.
Qed.

(** The session after a successful [login] or [refresh], field by field. *)
Lemma signed_in_overlay (data : JsValue) (w : World) :
  let w' := signed_in data w in
  isAuthenticated w' = true
  /\ initializing w' = initializing w
  /\ role w'
     = first_some (claim_role data) (first_some (fallback_role data) (role w))
  /\ institutionId w'
     = first_some (fallback_institutionId data)
         (first_some (claim_institutionId data) (institutionId w))
  /\ employeeId w'
     = first_some (claim_employeeId data)
         (first_some (fallback_employeeId data) (employeeId w))
  /\ localStorage w' !! "employeeRole"
     = first_some (claim_role data)
         (first_some (fallback_role data) (localStorage w !! "employeeRole"))
  /\ localStorage w' !! "institutionId"
     = first_some (fallback_institutionId data)
         (first_some (claim_institutionId data) (localStorage w !! "institutionId"))
  /\ localStorage w' !! "employeeId"
     = first_some (claim_employeeId data)
         (first_some (fallback_employeeId data) (localStorage w !! "employeeId"))
  /\ headers_common w'
     = match token_of data with
       | Some t => <["Authorization" := "Bearer " ++ t]> (headers_common w)
       | None => headers_common w
       end.
Proof.
  cbv zeta.
  destruct (signed_in_fields data w) as (-> & -> & -> & -> & -> & -> & -> & _).
  destruct (signed_in_applied data w) as (d & [] & _).
  by repeat split.
Qed.

(** X1. A [login] or a [refresh] that the server answers with a 2xx
    response, whatever its body, does not throw and sets [isAuthenticated];
    the two do the same.  The session it leaves is the previous one overlaid
    with what the response supplies: the role and the employee id are those
    of the claims, else those of the fallback, else the previous ones; the
    institution id is that of the fallback, else that of the claims, else the
    previous one; and so for the three keys of [localStorage].  The
    [Authorization] header is replaced when the response has a non-empty
    string [accessToken] and stays as it was otherwise; [initializing] is not
    touched.  Nothing is ever cleared by a success. *)
Theorem sign_in_overlays_previous_session (payload data : JsValue) (w : World) :
  login payload (Resolved data) w = refresh (Resolved data) w
  /\ (login payload (Resolved data) w).1 = Return tt
  /\ (let w' := (login payload (Resolved data) w).2 in
      isAuthenticated w' = true
      /\ initializing w' = initializing w
      /\ role w'
         = first_some (claim_role data) (first_some (fallback_role data) (role w))
      /\ institutionId w'
         = first_some (fallback_institutionId data)
             (first_some (claim_institutionId data) (institutionId w))
      /\ employeeId w'
         = first_some (claim_employeeId data)
             (first_some (fallback_employeeId data) (employeeId w))
      /\ localStorage w' !! "employeeRole"
         = first_some (claim_role data)
             (first_some (fallback_role data) (localStorage w !! "employeeRole"))
      /\ localStorage w' !! "institutionId"
         = first_some (fallback_institutionId data)
             (first_some (claim_institutionId data) (localStorage w !! "institutionId"))
      /\ localStorage w' !! "employeeId"
         = first_some (claim_employeeId data)
             (first_some (fallback_employeeId data) (localStorage w !! "employeeId"))
      /\ headers_common w'
         = match token_of data with
           | Some t => <["Authorization" := "Bearer " ++ t]> (headers_common w)
           | None => headers_common w
           end).
Proof.
  rewrite login_resolved, refresh_resolved. split; [done |]. split; [done |].
  apply signed_in_overlay.
Qed.

(** X2. A 2xx response whose body is not an object (null, an empty string,
    a number, ...) still signs the session in: [login] and [refresh] do
    exactly what [setIsAuthenticated(true)] does.  The role, the institution
    id, the employee id, [localStorage] and the headers stay those of the
    previous session. *)
Theorem sign_in_with_empty_body_keeps_session (payload data : JsValue) (w : World) :
  is_object data = false ->
  login payload (Resolved data) w = setIsAuthenticated true w
  /\ refresh (Resolved data) w = setIsAuthenticated true w.
Proof.
  intros H. rewrite login_resolved, refresh_resolved, signed_in_not_object by done.
  done.
Qed.

(** After the administrator of scenario A, a login answered with an empty
    body: authenticated, and still ADMIN. *)
Lemma sign_in_with_empty_body_keeps_session_witness :
  is_object (JStr EmptyString) = false
  /\ isAuthenticated (login JNull (Resolved (JStr EmptyString)) admin_session).2 = true
  /\ role (login JNull (Resolved (JStr EmptyString)) admin_session).2 = Some "ADMIN".
Proof.
  assert (is_object (JStr EmptyString) = false) as H by reflexivity.
  split; [assumption |].
  rewrite (proj1 (sign_in_with_empty_body_keeps_session JNull (JStr EmptyString)
                    admin_session H)).
  split; vm_compute; reflexivity.
Defined.

Lemma first_some_twice {A} (a b c : option A) :
  first_some a (first_some b (first_some a (first_some b c)))
  = first_some a (first_some b c).
Proof. by destruct a, b. Qed.

(** X3. [applyAuthResponse] is idempotent on the session: applied a second
    time to the same response it returns the same triple and leaves the
    flags, the three fields, the three keys of [localStorage] and the
    headers as the first application left them. *)
Theorem applyAuthResponse_idempotent (R : JsValue) (w : World) :
  let w1 := (applyAuthResponse R w).2 in
  let w2 := (applyAuthResponse R w1).2 in
  (applyAuthResponse R w1).1 = (applyAuthResponse R w).1
  /\ isAuthenticated w2 = isAuthenticated w1
  /\ initializing w2 = initializing w1
  /\ institutionId w2 = institutionId w1
  /\ role w2 = role w1
  /\ employeeId w2 = employeeId w1
  /\ (forall k, k ∈ session_keys -> localStorage w2 !! k = localStorage w1 !! k)
  /\ headers_common w2 = headers_common w1.
Proof.
  cbv zeta.
  destruct (applyAuthResponse_applied R w) as (d & w1 & E1 & H1). rewrite E1. cbn [fst snd].
  destruct (applyAuthResponse_applied R w1) as (d2 & w2 & E2 & H2). rewrite E2. cbn [fst snd].
  destruct H1 as [-> _ _ Hi1 Hr1 He1 Hsi1 Hsr1 Hse1 Hh1].
  destruct H2 as [-> -> -> -> -> -> Hsi2 Hsr2 Hse2 ->].
  split; [done |]. split; [done |]. split; [done |].
  split; [by rewrite Hi1, first_some_twice |].
  split; [by rewrite Hr1, first_some_twice |].
  split; [by rewrite He1, first_some_twice |].
  split.
  - intros k Hk. unfold session_keys in Hk.
    rewrite !elem_of_cons, elem_of_nil in Hk.
    destruct Hk as [-> | [-> | [-> | []]]].
    + by rewrite Hsi2, Hsi1, first_some_twice.
    + by rewrite Hsr2, Hsr1, first_some_twice.
    + by rewrite Hse2, Hse1, first_some_twice.
  - rewrite Hh1. destruct (token_of R) as [t |]; [| done].
    apply insert_insert_eq.
Qed.

(** ** A login or refresh that fails *)

(** X4. A [login] or a [refresh] whose request fails, with any status or
    with no response at all, rejects with the very error of the HTTP client:
    its [ApiError], or the [TypeError] that the construction of the
    [ApiError] raises when the message of the body cannot be converted to a
    string.  Either way it leaves the session signed out: the flag false, the
    three fields null, the three keys removed from [localStorage], the
    [Authorization] header deleted; [initializing] is not touched.  So a
    failed attempt wipes a session that was stored before it. *)
Theorem failed_sign_in_clears_the_session (payload : JsValue) (o : HttpOutcome)
    (w : World) :
  failed o ->
  login payload o w = refresh o w
  /\ (exists e,
        (request o w).1 = Throw e
        /\ (login payload o w).1 = Throw e
        /\ ((exists status message details,
                e = ApiError status message details
                /\ ToString_throws message = false)
            \/ (e = TypeError
                /\ exists status data,
                     o = ErrorResponse status data
                     /\ ToString_throws (error_message data) = true)))
  /\ (let w' := (login payload o w).2 in
      isAuthenticated w' = false
      /\ initializing w' = initializing w
      /\ institutionId w' = None /\ role w' = None /\ employeeId w' = None
      /\ localStorage w'
         = delete "employeeId"
             (delete "employeeRole" (delete "institutionId" (localStorage w)))
      /\ headers_common w' = delete "Authorization" (headers_common w)).
Proof.
  intros Hf. rewrite login_failed, refresh_failed, request_failed by done.
  split; [done |]. split.
  - exists (rejection_of o). split; [done |]. split; [done |].
    destruct o as [data | status data |]; [done | |].
    + cbn [rejection_of rejection].
      destruct (ToString_throws (error_message data)) eqn:E; [right | left]; eauto 7.
    + left. by eexists _, _, _.
  - cbv zeta. cbn [snd cleared isAuthenticated initializing institutionId role
                   employeeId localStorage headers_common].
    destruct (intercepted_fields o w) as (_ & -> & _ & _ & _ & ->).
    repeat (split; [done |]).
    destruct o as [data | status data |]; [done | | done].
    cbn [intercepted]. destruct (status =? 401)%Z; [| done].
    cbn [without_credential headers_common]. apply delete_delete_eq.
Qed.

(** The administrator of scenario A tries to log in again while the server
    cannot be reached. *)
Lemma failed_sign_in_clears_the_session_witness :
  failed NoResponse
  /\ (login JNull NoResponse admin_session).1
     = Throw (ApiError None (JStr "تعذر الاتصال بالخادم") JUndefined)
  /\ role admin_session = Some "ADMIN"
  /\ role (login JNull NoResponse admin_session).2 = None
  /\ localStorage (login JNull NoResponse admin_session).2 !! "employeeRole" = None.
Proof.
  assert (failed NoResponse) as H by exact I.
  split; [assumption |].
  destruct (failed_sign_in_clears_the_session JNull NoResponse admin_session H)
    as (_ & (e & Hreq & -> & _) & _ & _ & _ & -> & _ & -> & _).
  vm_compute in Hreq. injection Hreq as <-.
  split; [reflexivity |]. split; [vm_compute; reflexivity |].
  split; [reflexivity |]. by rewrite lookup_delete_ne, lookup_delete_eq.
Defined.

(** ** Logout, then login *)

Lemma logout_cleared (o : HttpOutcome) (w : World) :
  exists w0, (logout o w).2 = cleared w0 /\ initializing w0 = initializing w
             /\ localStorage w0 = localStorage w.
Proof.
  destruct (outcome_cases o) as [[data ->] | Hf].
  - exists w. by rewrite logout_resolved.
  - exists (intercepted o w). rewrite logout_failed by done.
    destruct (intercepted_fields o w) as (_ & -> & _ & _ & _ & ->). done.
Qed.

(** X5. Nothing of a session survives its logout: whatever the session was
    and whatever the server did with the logout request, the login that
    follows leaves the role, the institution id and the employee id that its
    own response supplies, and null where it supplies none; the three keys of
    [localStorage] hold the same; and the [Authorization] header is the one
    of the token of that response, or absent. *)
Theorem login_after_logout_is_fresh (o : HttpOutcome) (payload data : JsValue)
    (w : World) :
  let w' := (login payload (Resolved data) (logout o w).2).2 in
  isAuthenticated w' = true
  /\ role w' = first_some (claim_role data) (fallback_role data)
  /\ institutionId w'
     = first_some (fallback_institutionId data) (claim_institutionId data)
  /\ employeeId w' = first_some (claim_employeeId data) (fallback_employeeId data)
  /\ localStorage w' !! "employeeRole" = role w'
  /\ localStorage w' !! "institutionId" = institutionId w'
  /\ localStorage w' !! "employeeId" = employeeId w'
  /\ headers_common w' !! "Authorization" = (fun t => "Bearer " ++ t) <$> token_of data.
Proof.
  cbv zeta. destruct (logout_cleared o w) as (w0 & -> & _).
  rewrite login_resolved. cbn [snd].
  destruct (signed_in_overlay data (cleared w0))
    as (-> & _ & -> & -> & -> & -> & -> & -> & ->).
  destruct (cleared_stored w0) as (-> & -> & ->).
  cbn [cleared role institutionId employeeId]. rewrite !first_some_None_r.
  repeat (split; [done |]).
  destruct (token_of data) as [t |]; cbn [fmap option_fmap option_map].
  - apply lookup_insert_eq.
  - apply cleared_no_credential.
Qed.

(** ** The boot effect *)

(** X6. The boot effect never throws: whatever the server does with the
    refresh request, it completes normally and leaves [initializing] false.
    Apart from that flag the session is the one that [refresh] leaves, so it
    is authenticated exactly when the request was resolved, and signed out,
    with the stored session wiped, when it was not. *)
Theorem boot_swallows_failure (o : HttpOutcome) (w : World) :
  let w1 := (refresh o w).2 in
  let w' := (boot o w).2 in
  (boot o w).1 = Return tt
  /\ initializing w' = false
  /\ (isAuthenticated w' = true <-> exists data, o = Resolved data)
  /\ isAuthenticated w' = isAuthenticated w1
  /\ institutionId w' = institutionId w1
  /\ role w' = role w1
  /\ employeeId w' = employeeId w1
  /\ localStorage w' = localStorage w1
  /\ headers_common w' = headers_common w1
  /\ effects w' = (effects w1 ++ [SetInitializing false])%list.
Proof.
  cbv zeta. rewrite boot_run. cbn [fst snd booted setInitializing].
  cbn [initializing isAuthenticated institutionId role employeeId localStorage
       headers_common effects].
  split; [done |]. split; [done |]. split; [| by repeat split].
  destruct (outcome_cases o) as [[data ->] | Hf].
  - rewrite refresh_resolved. cbn [snd].
    destruct (signed_in_overlay data w) as (-> & _). split; eauto.
  - rewrite refresh_failed by done. cbn [snd cleared isAuthenticated].
    split; [done |]. intros [data ->]. done.
Qed.

Lemma initializing_run (op : Op) (w : World) :
  initializing (run op w) = if is_boot op then false else initializing w.
Proof.
  assert (forall data, initializing (signed_in data w) = initializing w) as Hs.
  { intros data. by destruct (signed_in_overlay data w) as (_ & -> & _). }
  assert (forall o, initializing (cleared (intercepted o w)) = initializing w) as Hc.
  { intros o. cbn [cleared initializing].
    by destruct (intercepted_fields o w) as (_ & -> & _). }
  destruct op as [o | payload o | o | o | o]; cbn [run is_boot];
    destruct (outcome_cases o) as [[data ->] | Hf].
  - by rewrite boot_run.
  - by rewrite boot_run.
  - rewrite login_resolved. apply Hs.
  - rewrite login_failed by done. apply Hc.
  - by rewrite logout_resolved.
  - rewrite logout_failed by done. apply Hc.
  - rewrite refresh_resolved. apply Hs.
  - rewrite refresh_failed by done. apply Hc.
  - by rewrite request_resolved.
  - rewrite request_failed by done. cbn [snd].
    by destruct (intercepted_fields o w) as (_ & -> & _).
Qed.

(** X7. [initializing] is true from the first render until the boot effect
    has settled, and false ever after: [login], [logout], [refresh] and the
    requests of the resource services never change it, and a second run of
    the boot effect leaves it false. *)
Theorem initializing_until_boot_settles (stored : gmap string string) (ops : list Op) :
  initializing (after stored ops) = negb (existsb is_boot ops).
Proof.
  induction ops as [| op ops IH] using rev_ind; [done |].
  rewrite after_snoc, initializing_run, existsb_app, IH. cbn [existsb].
  destruct (is_boot op); [| by rewrite !orb_false_r].
  by rewrite orb_true_r.
Qed.

(** ** The state and the store *)

Lemma stored_role_overlay (a b c : option string) :
  role_ok a -> role_ok b ->
  stored_role (first_some a (first_some b c))
  = first_some a (first_some b (stored_role c)).
Proof.
  destruct a as [x |]; cbn [first_some stored_role role_ok].
  - by intros -> _.
  - intros _. destruct b as [y |]; cbn [first_some stored_role role_ok]; [| done].
    by intros ->.
Qed.

Lemma mirrors_storage_mount (stored : gmap string string) :
  mirrors_storage (mount stored).
Proof. split; [done |]. split; [apply mount_role | done]. Qed.

Lemma mirrors_storage_run (op : Op) (w : World) :
  mirrors_storage w -> mirrors_storage (run op w).
Proof.
  intros (Hi & Hr & He).
  assert (forall data, mirrors_storage (signed_in data w)) as Hs.
  { intros data.
    destruct (signed_in_overlay data w) as (_ & _ & R1 & R2 & R3 & S1 & S2 & S3 & _).
    split; [by rewrite R2, S2, Hi |]. split; [| by rewrite R3, S3, He].
    rewrite R1, S1, Hr. symmetry. apply stored_role_overlay; apply role_ok_as_role. }
  assert (forall w0, mirrors_storage (cleared w0)) as Hc.
  { intros w0. destruct (cleared_stored w0) as (H1 & H2 & H3).
    split; [by rewrite H1 |]. split; [by rewrite H2 | by rewrite H3]. }
  destruct (run_cases op w)
    as [[data ->] | [[data ->] | [[o ->] | [[o ->] | [o ->]]]]].
  - apply Hs.
  - apply (Hs data).
  - apply Hc.
  - apply (Hc (intercepted o w)).
  - destruct (intercepted_fields o w) as (_ & _ & E1 & E2 & E3 & E4).
    unfold mirrors_storage. by rewrite E1, E2, E3, E4.
Qed.

(** X8. The state never diverges from the store: after any sequence of
    operations the institution id and the employee id of the state are what
    [localStorage] holds under their keys, and the role is the stored role
    when that one is in the enum and null otherwise.  So a reload of the
    page, which mounts the provider anew over the same [localStorage], starts
    with the same three fields; it starts signed out and initializing, and
    without the [Authorization] header. *)
Theorem session_fields_mirror_storage (stored : gmap string string) (ops : list Op) :
  let w := after stored ops in
  (institutionId w = localStorage w !! "institutionId"
   /\ role w = stored_role (localStorage w !! "employeeRole")
   /\ employeeId w = localStorage w !! "employeeId")
  /\ (institutionId (mount (localStorage w)) = institutionId w
      /\ role (mount (localStorage w)) = role w
      /\ employeeId (mount (localStorage w)) = employeeId w
      /\ isAuthenticated (mount (localStorage w)) = false
      /\ initializing (mount (localStorage w)) = true
      /\ headers_common (mount (localStorage w)) !! "Authorization" = None).
Proof.
  cbv zeta.
  assert (mirrors_storage (after stored ops)) as (Hi & Hr & He).
  { apply (after_ind mirrors_storage);
      [apply mirrors_storage_mount | apply mirrors_storage_run]. }
  split; [done |].
  rewrite mount_role, Hi, He, Hr. by repeat split.
Qed.

(** ** What the operations touch *)

Lemma session_key_institutionId : "institutionId" ∈ session_keys.
Proof. apply list_elem_of_here. Qed.

Lemma session_key_employeeRole : "employeeRole" ∈ session_keys.
Proof. apply list_elem_of_further, list_elem_of_here. Qed.

Lemma session_key_employeeId : "employeeId" ∈ session_keys.
Proof. do 2 apply list_elem_of_further. apply list_elem_of_here. Qed.

(** An invariant that is kept by the setters of the state, by a write of a
    non-empty value or a removal under one of the three keys, and by setting
    the [Authorization] header to a bearer credential or deleting it, is kept
    by every statement of the provider and by every operation. *)
Section Footprint.
Variable I : World -> Prop.
Hypothesis I_setIsAuthenticated : forall b, maintains I (setIsAuthenticated b).
Hypothesis I_setInitializing : forall b, maintains I (setInitializing b).
Hypothesis I_setInstitutionId : forall v, maintains I (setInstitutionId v).
Hypothesis I_setRole : forall v, maintains I (setRole v).
Hypothesis I_setEmployeeId : forall v, maintains I (setEmployeeId v).
Hypothesis I_removeItem :
  forall k, k ∈ session_keys -> maintains I (localStorage_removeItem k).
Hypothesis I_setItem :
  forall k v, k ∈ session_keys -> v <> "" -> maintains I (localStorage_setItem k v).
Hypothesis I_set_header :
  forall t, t <> "" -> maintains I (set_default_header "Authorization" ("Bearer " ++ t)).
Hypothesis I_delete_header : maintains I (delete_default_header "Authorization").

#[local] Hint Resolve I_setIsAuthenticated I_setInitializing I_setInstitutionId
  I_setRole I_setEmployeeId I_delete_header : maintains.

Lemma setAuthToken_footprint token : maintains I (setAuthToken token).
Proof.
  unfold setAuthToken. maintains_split; auto with maintains.
  by apply I_set_header, truthy_to_string.
Qed.

Lemma persistInstitutionId_footprint v : maintains I (persistInstitutionId v).
Proof.
  unfold persistInstitutionId. maintains_split; auto with maintains.
  - apply I_setItem; [apply session_key_institutionId | by apply truthy_to_string].
  - apply I_removeItem, session_key_institutionId.
Qed.

Lemma persistRole_footprint v : maintains I (persistRole v).
Proof.
  unfold persistRole. maintains_split; auto with maintains.
  - apply I_setItem; [apply session_key_employeeRole | by apply truthy_to_string].
  - apply I_removeItem, session_key_employeeRole.
Qed.

Lemma persistEmployeeId_footprint v : maintains I (persistEmployeeId v).
Proof.
  unfold persistEmployeeId. maintains_split; auto with maintains.
  - apply I_setItem; [apply session_key_employeeId | by apply truthy_to_string].
  - apply I_removeItem, session_key_employeeId.
Qed.

#[local] Hint Resolve setAuthToken_footprint persistInstitutionId_footprint
  persistRole_footprint persistEmployeeId_footprint : maintains.

Lemma apply_claims_footprint claims : maintains I (apply_claims claims).
Proof. unfold apply_claims. cbv zeta. maintains_split; auto with maintains. Qed.

#[local] Hint Resolve apply_claims_footprint : maintains.

Lemma applyAuthResponse_footprint R : maintains I (applyAuthResponse R).
Proof. unfold applyAuthResponse. cbv zeta. maintains_split; auto with maintains. Qed.

Lemma clear_session_footprint : maintains I clear_session.
Proof. unfold clear_session. maintains_split; auto with maintains. Qed.

Lemma response_interceptor_footprint o : maintains I (response_interceptor o).
Proof.
  unfold response_interceptor. cbv zeta. maintains_split; auto with maintains.
Qed.

#[local] Hint Resolve applyAuthResponse_footprint clear_session_footprint
  response_interceptor_footprint : maintains.

Lemma refresh_footprint o : maintains I (refresh o).
Proof.
  unfold refresh, institutionAuthService_refresh, post.
  maintains_split; auto with maintains.
Qed.

Lemma login_footprint payload o : maintains I (login payload o).
Proof.
  unfold login, institutionAuthService_login, post.
  maintains_split; auto with maintains.
Qed.

Lemma logout_footprint o : maintains I (logout o).
Proof.
  unfold logout, institutionAuthService_logout, post.
  maintains_split; auto with maintains.
Qed.

#[local] Hint Resolve refresh_footprint : maintains.

Lemma boot_footprint o : maintains I (boot o).
Proof. unfold boot. maintains_split; auto with maintains. Qed.

Lemma run_footprint op w : I w -> I (run op w).
Proof.
  destruct op; simpl.
  - apply boot_footprint.
  - apply login_footprint.
  - apply logout_footprint.
  - apply refresh_footprint.
  - apply response_interceptor_footprint.
Qed.
End Footprint.

Lemma untouched_run (m m' : gmap string string) (op : Op) (w : World) :
  untouched m m' w -> untouched m m' (run op w).
Proof.
  apply (run_footprint (untouched m m')); unfold untouched.
  - by intros b w0 Hw.
  - by intros b w0 Hw.
  - by intros v w0 Hw.
  - by intros v w0 Hw.
  - by intros v w0 Hw.
  - intros k Hk w0 [H1 H2]. split; [| done]. intros k' Hk'.
    cbn [localStorage_removeItem snd localStorage].
    rewrite lookup_delete_ne; [by apply H1 | by intros ->].
  - intros k v Hk _ w0 [H1 H2]. split; [| done]. intros k' Hk'.
    cbn [localStorage_setItem snd localStorage].
    rewrite lookup_insert_ne; [by apply H1 | by intros ->].
  - intros t _ w0 [H1 H2]. split; [done |]. intros h Hh.
    cbn [set_default_header snd headers_common].
    rewrite lookup_insert_ne; [by apply H2 | done].
  - intros w0 [H1 H2]. split; [done |]. intros h Hh.
    cbn [delete_default_header snd headers_common].
    rewrite lookup_delete_ne; [by apply H2 | done].
Qed.

Lemma untouched_fold (m m' : gmap string string) (ops : list Op) (w : World) :
  untouched m m' w -> untouched m m' (fold_left (fun w op => run op w) ops w).
Proof.
  revert w. induction ops as [| op ops IH]; intros w H; [done |].
  cbn [fold_left]. by apply IH, untouched_run.
Qed.

(** X9. The boot effect, [login], [logout], [refresh] and the requests of
    the resource services touch three keys of [localStorage] and one default
    header only: every other entry of [localStorage] and every other default
    header is after the operation what it was before it, and so after any
    sequence of operations what it was when the provider mounted. *)
Theorem session_touches_only_its_keys :
  (forall (op : Op) (w : World),
      (forall k, k ∉ session_keys ->
                 localStorage (run op w) !! k = localStorage w !! k)
      /\ (forall h, h <> "Authorization" ->
                    headers_common (run op w) !! h = headers_common w !! h))
  /\ (forall (stored : gmap string string) (ops : list Op),
        (forall k, k ∉ session_keys ->
                   localStorage (after stored ops) !! k = stored !! k)
        /\ (forall h, h <> "Authorization" ->
                      headers_common (after stored ops) !! h = None)).
Proof.
  split.
  - intros op w. by apply (untouched_run (localStorage w) (headers_common w)).
  - intros stored ops.
    assert (untouched stored ∅ (after stored ops)) as [H1 H2].
    { apply (after_ind (untouched stored ∅)); [by split | apply untouched_run]. }
    split; [done |]. intros h Hh. by rewrite H2, lookup_empty.
Qed.

(** ** Where the credential comes from *)

Lemma token_of_nonempty (data : JsValue) (t : string) : token_of data = Some t -> t <> "".
Proof. unfold token_of. by intros [_ ?]%nonempty_string_Some. Qed.

Lemma credential_run (op : Op) (w : World) (v : string) :
  headers_common (run op w) !! "Authorization" = Some v ->
  headers_common w !! "Authorization" = Some v
  \/ exists t, supplied_token op = Some t /\ v = "Bearer " ++ t.
Proof.
  assert (forall data,
             headers_common (signed_in data w) !! "Authorization" = Some v ->
             headers_common w !! "Authorization" = Some v
             \/ exists t, token_of data = Some t /\ v = "Bearer " ++ t) as Hs.
  { intros data.
    destruct (signed_in_overlay data w) as (_ & _ & _ & _ & _ & _ & _ & _ & ->).
    destruct (token_of data) as [t |]; [| by left].
    rewrite lookup_insert_eq. intros [= <-]. right. by exists t. }
  assert (forall o,
             headers_common (intercepted o w) !! "Authorization" = Some v ->
             headers_common w !! "Authorization" = Some v) as Hi.
  { intros [data | status data |]; try done. cbn [intercepted].
    destruct (status =? 401)%Z; [| done].
    cbn [without_credential headers_common]. by rewrite lookup_delete_eq. }
  destruct op as [o | payload o | o | o | o]; cbn [run];
    destruct (outcome_cases o) as [[data ->] | Hf].
  - rewrite boot_run, refresh_resolved. apply Hs.
  - rewrite boot_run. rewrite (refresh_failed o w Hf). cbn [snd].
    change (headers_common (booted (cleared (intercepted o w))))
      with (headers_common (cleared (intercepted o w))).
    by rewrite cleared_no_credential.
  - rewrite login_resolved. apply Hs.
  - rewrite login_failed by done. cbn [snd]. by rewrite cleared_no_credential.
  - rewrite logout_resolved. cbn [snd]. by rewrite cleared_no_credential.
  - rewrite logout_failed by done. cbn [snd]. by rewrite cleared_no_credential.
  - rewrite refresh_resolved. apply Hs.
  - rewrite refresh_failed by done. cbn [snd]. by rewrite cleared_no_credential.
  - rewrite request_resolved. by left.
  - rewrite request_failed by done. cbn [snd]. intros H. left. by apply (Hi o).
Qed.

(** X10. The [Authorization] default header, whenever it is set, is
    [Bearer ] followed by a non-empty string that an earlier [login],
    [refresh] or boot refresh of this session received as the [accessToken]
    of a 2xx response: the client never sends a credential of another
    origin, and never an empty one. *)
Theorem credential_is_a_received_token (stored : gmap string string) (ops : list Op)
    (v : string) :
  headers_common (after stored ops) !! "Authorization" = Some v ->
  exists op t,
    op ∈ ops /\ supplied_token op = Some t /\ t <> "" /\ v = "Bearer " ++ t.
Proof.
  induction ops as [| op ops IH] using rev_ind.
  - cbn. by rewrite lookup_empty.
  - rewrite after_snoc. intros [H | (t & Ht & ->)]%credential_run.
    + destruct (IH H) as (op' & t & Hin & Ht & Hne & ->).
      exists op', t. split; [| done]. apply elem_of_app. by left.
    + exists op, t. split; [apply elem_of_app; right; by apply list_elem_of_singleton |].
      split; [done |]. split; [| done].
      destruct op as [[] | ? [] | | [] |]; try done; by apply token_of_nonempty in Ht.
Qed.

(** The login of scenario A, then a request that fails with a 500: the
    header is still the one of the token of scenario A. *)
Lemma credential_is_a_received_token_witness :
  headers_common
    (after ∅ [Login JNull (Resolved scenario_A); Request (ErrorResponse 500 JNull)])
  !! "Authorization"
  = Some "Bearer h.eyJzdWIiOiJlbXAtMSIsInJvbGUiOiJBRE1JTiIsImluc3RpdHV0aW9uSWQiOiJpbnN0LTkifQ.s"
  /\ exists op t,
       op ∈ [Login JNull (Resolved scenario_A); Request (ErrorResponse 500 JNull)]
       /\ supplied_token op = Some t /\ t <> EmptyString
       /\ "Bearer h.eyJzdWIiOiJlbXAtMSIsInJvbGUiOiJBRE1JTiIsImluc3RpdHV0aW9uSWQiOiJpbnN0LTkifQ.s"
          = "Bearer " ++ t.
Proof.
  assert (headers_common
            (after ∅ [Login JNull (Resolved scenario_A);
                      Request (ErrorResponse 500 JNull)])
          !! "Authorization"
          = Some "Bearer h.eyJzdWIiOiJlbXAtMSIsInJvbGUiOiJBRE1JTiIsImluc3RpdHV0aW9uSWQiOiJpbnN0LTkifQ.s")
    as H by (vm_compute; reflexivity).
  split; [assumption |].
  exact (credential_is_a_received_token _ _ _ H).
Defined.

(** ** The rejection of a failed request *)

Lemma error_message_first_truthy (data : JsValue) :
  error_message data
  = default (JStr "حدث خطأ غير متوقع") (first_truthy (message_sources data)).
Proof.
  unfold error_message, message_sources, first_truthy, or. cbn [List.find].
  destruct (to_boolean (opt_get data "message")) eqn:E1; rewrite ?E1; [done |].
  destruct (to_boolean (opt_get data "error")) eqn:E2; rewrite ?E2; [done |].
  by destruct (to_boolean (opt_get data "title")) eqn:E3; rewrite ?E3.
Qed.

Lemma first_truthy_truthy (l : list JsValue) (v : JsValue) :
  first_truthy l = Some v -> to_boolean v = true.
Proof. unfold first_truthy. by intros [_ ?]%find_some. Qed.

Lemma first_truthy_elem (l : list JsValue) (v : JsValue) :
  first_truthy l = Some v -> v ∈ l.
Proof. unfold first_truthy. intros [H _]%find_some. by apply list_elem_of_In. Qed.

Lemma ToString_cases (engine : Engine) (v : JsValue) :
  if ToString_throws v then ToString engine v = Throw TypeError
  else exists text, ToString engine v = Return text.
Proof.
  revert v. fix IH 1. intros [| | b | m e | s | items | props |];
    cbn [ToString_throws ToString]; try by eexists.
  - induction items as [| x r IHr]; cbn [existsb]; [by eexists |].
    pose proof (IH x) as Hx.
    assert (if ToString_throws x
            then match x with
                 | JUndefined | JNull => Return ""
                 | _ => ToString engine x
                 end = Throw TypeError
            else exists text, match x with
                              | JUndefined | JNull => Return ""
                              | _ => ToString engine x
                              end = Return text) as Hx'.
    { destruct x; try exact Hx; by eexists. }
    clear Hx. destruct (ToString_throws x); cbn [orb].
    + by rewrite Hx'.
    + destruct Hx' as [next ->]. cbn [cbind].
      destruct r as [| y r']; [by eexists |].
      destruct (existsb ToString_throws (y :: r')).
      * by rewrite IHr.
      * destruct IHr as [rest ->]. by eexists.
  - destruct (props !! "toString"); [done | by eexists].
Qed.

(** X11. Every request that fails is rejected and never resolved.  With a
    response, the constructor of [ApiError] receives the status, the body,
    and as its message the first truthy one of the [message], [error] and
    [title] of the body, or the fixed text when none is: a value that is
    always truthy.  The message of the error is [ToString] of that value.
    When the value is a string the message is that string, which is not
    empty, and this is so whenever the three fields are strings or absent, as
    the type of the body declares them.  When [ToString] throws (an object
    with a [toString] of its own), the construction fails and the request is
    rejected with the [TypeError] instead of an [ApiError].  With no
    response, the status is undefined and the message is the fixed text of
    the unreachable server.  Unless the status is 401 the client changes
    nothing: the headers, the session and [localStorage] stay as they
    were. *)
Theorem rejection_is_normalised (engine : Engine) (o : HttpOutcome) (w : World) :
  failed o ->
  match o with
  | ErrorResponse status data =>
      let message :=
        default (JStr "حدث خطأ غير متوقع") (first_truthy (message_sources data)) in
      to_boolean message = true
      /\ match ToString engine message with
         | Return text =>
             (request o w).1 = Throw (ApiError (Some status) message data)
             /\ (forall s, message = JStr s -> text = s /\ s <> "")
         | Throw e => e = TypeError /\ (request o w).1 = Throw TypeError
         end
      /\ (Forall (fun v => v = JUndefined \/ exists s, v = JStr s)
            (message_sources data) ->
          exists s, message = JStr s /\ s <> "")
      /\ (status <> 401%Z -> (request o w).2 = w)
  | _ =>
      (request o w).1
      = Throw (ApiError None (JStr "تعذر الاتصال بالخادم") JUndefined)
      /\ ToString engine (JStr "تعذر الاتصال بالخادم")
         = Return "تعذر الاتصال بالخادم"
      /\ (request o w).2 = w
  end.
Proof.
  intros Hf. rewrite request_failed by done. cbn [fst snd].
  destruct o as [data | st data |]; [done | | done].
  cbn [rejection_of rejection intercepted]. rewrite error_message_first_truthy.
  set (message := default _ (first_truthy (message_sources data))).
  cbv zeta.
  assert (to_boolean message = true) as Ht.
  { subst message.
    destruct (first_truthy (message_sources data)) as [v |] eqn:E; cbn [default].
    - by apply first_truthy_truthy in E.
    - reflexivity. }
  split; [done |]. split; [| split].
  - pose proof (ToString_cases engine message) as H.
    destruct (ToString_throws message).
    + by rewrite H.
    + destruct H as [text H]. rewrite H. split; [done |].
      intros s Es. rewrite Es in H, Ht. cbn in H. injection H as <-.
      split; [done |]. intros ->. discriminate.
  - intros Hs. subst message.
    destruct (first_truthy (message_sources data)) as [v |] eqn:E; cbn [default] in *.
    + rewrite Forall_forall in Hs.
      destruct (Hs v (first_truthy_elem _ _ E)) as [-> | [s ->]]; [discriminate |].
      exists s. split; [done |]. intros ->. discriminate.
    + by eexists.
  - intros Hne. destruct (Z.eqb_spec st 401) as [-> | _]; done.
Qed.

(** A 422 whose body has no [message]: the [error] of the body is the
    message.  A message that is the empty array is truthy, and the error is
    constructed with the empty string as its message.  A message that is an
    object with a [toString] of its own: the request is rejected with a
    [TypeError]. *)
Lemma rejection_is_normalised_witness :
  failed unprocessable
  /\ (request unprocessable admin_session).1
     = Throw (ApiError (Some 422%Z) (JStr "bad input")
                (obj [("error", JStr "bad input"); ("title", JStr "t")]))
  /\ ToString sample_engine (JStr "bad input") = Return "bad input"
  /\ failed empty_array_message
  /\ (request empty_array_message admin_session).1
     = Throw (ApiError (Some 500%Z) (JArr []) (obj [("message", JArr [])]))
  /\ ToString sample_engine (JArr []) = Return ""
  /\ failed unprintable_message
  /\ (request unprintable_message admin_session).1 = Throw TypeError.
Proof.
  assert (failed unprocessable) as H1 by exact I.
  assert (failed empty_array_message) as H2 by exact I.
  assert (failed unprintable_message) as H3 by exact I.
  pose proof (rejection_is_normalised sample_engine unprocessable admin_session H1)
    as (_ & E1 & _).
  pose proof (rejection_is_normalised sample_engine empty_array_message
                admin_session H2) as (_ & E2 & _).
  pose proof (rejection_is_normalised sample_engine unprintable_message
                admin_session H3) as (_ & E3 & _).
  split; [assumption |]. split; [exact (proj1 E1) |]. split; [reflexivity |].
  split; [assumption |]. split; [exact (proj1 E2) |]. split; [reflexivity |].
  split; [assumption |]. exact (proj2 E3).
Defined.

(** ** What the token decoder reads *)

Lemma split_nonempty (sep : ascii) (s : string) : split sep s <> [].
Proof.
  destruct s as [| c r]; cbn [split]; [done |].
  destruct (Ascii.eqb c sep); [done |]. by destruct (split sep r).
Qed.

Lemma split_dot_free (s : string) : dot_free s = true -> split "." s = [s].
Proof.
  induction s as [| c r IH]; [done |].
  unfold dot_free. cbn [list_ascii_of_string forallb split].
  intros [Hc Hr]%andb_true_iff. apply negb_true_iff in Hc. rewrite Hc.
  by rewrite (IH Hr).
Qed.

Lemma split_segment (h rest : string) :
  dot_free h = true -> split "." (h ++ String "." rest) = h :: split "." rest.
Proof.
  induction h as [| c r IH]; [done |].
  unfold dot_free. cbn [list_ascii_of_string forallb].
  intros [Hc Hr]%andb_true_iff. apply negb_true_iff in Hc.
  change (String c r ++ String "." rest) with (String c (r ++ String "." rest)).
  cbn [split]. rewrite Hc. by rewrite (IH Hr).
Qed.

(** Case analysis on the comparisons of characters. *)
Ltac ascii_cases :=
  repeat match goal with
         | |- context [Ascii.eqb ?u ?v] =>
             is_var u; is_var v; destruct (Ascii.eqb_spec u v); cbv iota
         end;
  subst; congruence.

Lemma replace_all_absent (a b : ascii) (s : string) :
  a <> b -> replace_all a b (replace_all a b s) = replace_all a b s.
Proof.
  intros Hne. induction s as [| c r IH]; [done |].
  cbn [replace_all]. rewrite IH. f_equal. ascii_cases.
Qed.

Lemma replace_all_comm (a b c d : ascii) (s : string) :
  a <> c -> a <> d -> c <> b ->
  replace_all a b (replace_all c d s) = replace_all c d (replace_all a b s).
Proof.
  intros H1 H2 H3. induction s as [| x r IH]; [done |].
  cbn [replace_all]. rewrite IH. f_equal. ascii_cases.
Qed.

Lemma normalized_idem (p : string) : normalized (normalized p) = normalized p.
Proof.
  unfold normalized.
  rewrite (replace_all_comm "-" "+" "_" "/" (replace_all "-" "+" p)) by done.
  rewrite (replace_all_absent "-" "+" p) by done.
  by rewrite (replace_all_absent "_" "/") by done.
Qed.

Lemma normalized_empty (p : string) : normalized p = "" <-> p = "".
Proof. destruct p; [done |]. split; discriminate. Qed.

Lemma decodeJwt_segment (token : string) :
  decodeJwt token = decode_segment (split "." token !! 1%nat).
Proof.
  unfold decodeJwt, decodeJwt_try, decode_segment.
  destruct (split "." token) as [| h [| p rest]]; cbn [lookup list_lookup];
    try reflexivity.
  destruct (String.eqb p ""); reflexivity.
Qed.

Lemma decode_segment_normalized (p : option string) :
  decode_segment (normalized <$> p) = decode_segment p.
Proof.
  destruct p as [p |]; [| reflexivity].
  cbn [fmap option_fmap option_map decode_segment].
  rewrite normalized_idem.
  destruct (String.eqb_spec p "") as [-> | Hne]; [reflexivity |].
  destruct (String.eqb_spec (normalized p) "") as [E | _]; [| reflexivity].
  by apply (proj1 (normalized_empty p)) in E.
Qed.

(** X12. [decodeJwt] reads the second dot-separated segment of the token
    and nothing else: two tokens whose second segments are equal, or differ
    only in the alphabet ([-] for [+], [_] for [/]), decode to the same
    value, whatever their first segment, their third segment and the
    segments after it, and also when there is no third segment.  The
    signature is never looked at.  In particular, for a header and a payload
    that hold no dot, the second segment of [header.payload.rest] is the
    payload. *)
Theorem decodeJwt_reads_the_second_segment_only :
  (forall token token' : string,
      normalized <$> (split "." token !! 1%nat)
      = normalized <$> (split "." token' !! 1%nat) ->
      decodeJwt token = decodeJwt token')
  /\ (forall h p rest : string,
        dot_free h = true -> dot_free p = true ->
        split "." (h ++ "." ++ p ++ "." ++ rest) !! 1%nat = Some p
        /\ split "." (h ++ "." ++ p) !! 1%nat = Some p).
Proof.
  split.
  - intros token token' H. rewrite !decodeJwt_segment.
    by rewrite <- (decode_segment_normalized (split "." token !! 1%nat)), H,
      decode_segment_normalized.
  - intros h p rest Hh Hp. split.
    + change (h ++ "." ++ p ++ "." ++ rest)
        with (h ++ String "." (p ++ String "." rest)).
      by rewrite (split_segment h _ Hh), (split_segment p _ Hp).
    + change (h ++ "." ++ p) with (h ++ String "." p).
      by rewrite (split_segment h _ Hh), (split_dot_free p Hp).
Qed.

(** The token of the publisher, and a token of two segments with another
    header and the same payload. *)
Lemma decodeJwt_reads_the_second_segment_only_witness :
  normalized <$> (split "." "h.eyJyb2xlIjoiUFVCTElTSEVSIn0.s" !! 1%nat)
  = normalized <$> (split "." "forged.eyJyb2xlIjoiUFVCTElTSEVSIn0" !! 1%nat)
  /\ decodeJwt "h.eyJyb2xlIjoiUFVCTElTSEVSIn0.s"
     = decodeJwt "forged.eyJyb2xlIjoiUFVCTElTSEVSIn0"
  /\ decodeJwt "forged.eyJyb2xlIjoiUFVCTElTSEVSIn0"
     = Return (obj [("role", JStr "PUBLISHER")]).
Proof.
  assert (normalized <$> (split "." "h.eyJyb2xlIjoiUFVCTElTSEVSIn0.s" !! 1%nat)
          = normalized <$> (split "." "forged.eyJyb2xlIjoiUFVCTElTSEVSIn0" !! 1%nat))
    as H by (vm_compute; reflexivity).
  split; [assumption |].
  split; [exact (proj1 decodeJwt_reads_the_second_segment_only _ _ H) |].
  vm_compute; reflexivity.
Defined.

(** ** Navigation *)

Lemma role_ok_cases (role : option string) :
  role_ok role -> role = None \/ exists r, role = Some (role_name r).
Proof.
  destruct role as [s |]; [| by left]. cbn [role_ok].
  intros [r [= ->]]%isEmployeeRole_spec. right. by exists r.
Qed.

Lemma branches_AppRouter :
  branches AppRouter
  = [ mkBranch "/login" [] (PageElement LoginPage);
      mkBranch "/unauthorized" [] (PageElement UnauthorizedPage);
      mkBranch "/" [ProtectedRouteElement (Some ["ADMIN"])] (PageElement InstitutionPage);
      mkBranch "/employees" [ProtectedRouteElement (Some ["ADMIN"])]
        (PageElement EmployeesPage);
      mkBranch "/beneficiaries" [ProtectedRouteElement (Some ["ADMIN"])]
        (PageElement BeneficiariesPage);
      mkBranch "/beneficiaries/:beneficiaryId" [ProtectedRouteElement (Some ["ADMIN"])]
        (PageElement BeneficiaryDetailsPage);
      mkBranch "/notifications" [ProtectedRouteElement (Some ["ADMIN"])]
        (PageElement NotificationsPage);
      mkBranch "/deliver" [ProtectedRouteElement (Some ["DELIVERER"])]
        (PageElement DeliveryPage);
      mkBranch "/posts" [ProtectedRouteElement (Some ["PUBLISHER"])]
        (PageElement PostsPage);
      mkBranch "/distribution" [ProtectedRouteElement (Some ["DISTRIBUTER"])]
        (PageElement DistributerPage);
      mkBranch "/distribution/:distributionId"
        [ProtectedRouteElement (Some ["DISTRIBUTER"])]
        (PageElement DistributionDetailsPage);
      mkBranch "/distribution/:distributionId/round/:roundId"
        [ProtectedRouteElement (Some ["DISTRIBUTER"])] (PageElement RoundDetailsPage);
      mkBranch "*" [] (NavigateElement "/login" true) ].
Proof. reflexivity. Qed.

(** Membership in a list that is written out. *)
Ltac list_member :=
  repeat first [apply list_elem_of_here | apply list_elem_of_further].

(** X13. Navigation never loops.  Whatever route of [AppRouter] a location
    matches, and whatever the session is (its role being null or one of the
    enum), following the navigations that the guard, the catch-all route and
    the effect of the login page make comes to rest after three navigations
    at most, on a route of the table that shows the loading placeholder
    (only while the session initializes) or a page.  The page is the login
    form only when the session is neither initializing nor authenticated; and
    it is under a guard only when the session is authenticated, is not
    initializing, and has a role of the allow-list of that guard.  Every
    target of a navigation is a path that the table declares. *)
Theorem navigation_settles (auth : AuthContextValue) (b : Branch) :
  role_ok (ctx_role auth) ->
  b ∈ branches AppRouter ->
  exists b' v,
    settle 3 auth b = Some (b', v)
    /\ b' ∈ branches AppRouter
    /\ v = branch_view b' auth
    /\ ((v = ViewLoading /\ ctx_initializing auth = true)
        \/ (exists page,
              v = ViewPage page
              /\ branch_element b' = PageElement page
              /\ (page = LoginPage ->
                  ctx_initializing auth = false /\ ctx_isAuthenticated auth = false)
              /\ (forall roles,
                    ProtectedRouteElement (Some roles) ∈ branch_layouts b' ->
                    ctx_initializing auth = false
                    /\ ctx_isAuthenticated auth = true
                    /\ exists r, ctx_role auth = Some r /\ r ∈ roles))).
Proof.
  intros Hrole Hb. rewrite branches_AppRouter in Hb.
  destruct auth as [authd init inst role emp]. cbn [ctx_role] in Hrole.
  apply role_ok_cases in Hrole as [-> | [r ->]]; [| destruct r];
    repeat (apply elem_of_cons in Hb as [-> | Hb]); try (by apply elem_of_nil in Hb);
    destruct authd, init.
  all: eexists _, _; split; [vm_compute; reflexivity |].
  all: split; [rewrite branches_AppRouter; list_member |].
  all: split; [vm_compute; reflexivity |].
  all: first [ left; split; reflexivity
             | right; eexists; split; [reflexivity |]; split; [reflexivity |];
               split; [try discriminate; done |];
               intros roles Hin; cbn [branch_layouts] in Hin;
               first [ by apply elem_of_nil in Hin
                     | apply list_elem_of_singleton in Hin; injection Hin as ->;
                       split; [reflexivity |]; split; [reflexivity |];
                       eexists; split; [reflexivity | apply list_elem_of_here] ] ].
Qed.

(** A session that is authenticated without a role, at a location that no
    route declares: the catch-all route sends it to the login page, the
    login page to the home path, the guard of the home path to the
    unauthorized page, which shows.  Two navigations do not suffice. *)
Lemma navigation_settles_witness :
  role_ok (ctx_role roleless_auth)
  /\ catch_all ∈ branches AppRouter
  /\ settle 3 roleless_auth catch_all
     = Some (mkBranch "/unauthorized" [] (PageElement UnauthorizedPage),
             ViewPage UnauthorizedPage)
  /\ settle 2 roleless_auth catch_all = None.
Proof.
  assert (role_ok (ctx_role roleless_auth)) as H1 by exact I.
  assert (catch_all ∈ branches AppRouter) as H2.
  { rewrite branches_AppRouter. unfold catch_all. list_member. }
  split; [assumption |]. split; [assumption |].
  destruct (navigation_settles roleless_auth catch_all H1 H2) as (b' & v & E & _).
  split; [| vm_compute; reflexivity].
  rewrite E. vm_compute in E. symmetry. exact E.
Defined.

(** ** The header *)

Lemma prefix_cons (a : ascii) (p : string) (s : string) :
  String.prefix (String a p) s = true ->
  exists r, s = String a r /\ String.prefix p r = true.
Proof.
  destruct s as [| b r]; cbn [String.prefix]; [done |].
  destruct (ascii_dec a b) as [<- | ?]; [| done]. eauto.
Qed.

(** Two targets that differ in their second character are not both the
    start of one path. *)
Lemma prefix_exclusive (a b : ascii) (p q : string) (s : string) :
  a <> b ->
  String.prefix (String "/" (String a p)) s = true ->
  String.prefix (String "/" (String b q)) s = true -> False.
Proof.
  intros Hne (r1 & -> & (r2 & -> & _)%prefix_cons)%prefix_cons
    (r3 & [= <-] & (r4 & [= <- _] & _)%prefix_cons)%prefix_cons.
  done.
Qed.

Lemma prefix_not_home (a : ascii) (p : string) (s : string) :
  String.prefix (String "/" (String a p)) s = true -> String.eqb s "/" = false.
Proof.
  intros (r1 & -> & (r2 & -> & _)%prefix_cons)%prefix_cons. cbn.
  by destruct (Ascii.eqb "/" "/").
Qed.

(** X14. The [<nav>] of the header is rendered only in a session that is
    authenticated and no longer initializing.  Each of its links leads to a
    route that [AppRouter] declares and whose guard lets this session in: the
    link shows a page, it does not redirect.  The landing route of the role
    is among the links.  And at any location at most one link is drawn as
    active. *)
Theorem header_links_are_admitted (auth : AuthContextValue) (pathname : string)
    (items : list (string * string * bool)) :
  role_ok (ctx_role auth) ->
  Header_nav auth pathname = Some items ->
  ctx_isAuthenticated auth = true
  /\ ctx_initializing auth = false
  /\ (forall to label active,
        (to, label, active) ∈ items ->
        exists b page,
          route_at AppRouter to = Some b /\ branch_view b auth = ViewPage page)
  /\ (exists label active,
        (getDefaultRouteForRole (ctx_role auth), label, active) ∈ items)
  /\ (length (List.filter (fun item => item.2) items) <= 1)%nat.
Proof.
  intros Hrole. destruct auth as [authd init inst role emp]. cbn [ctx_role] in *.
  unfold Header_nav, showPrivateSection.
  cbn [ctx_isAuthenticated ctx_initializing ctx_role].
  destruct authd; [| done]. destruct init; [done |]. cbn [andb negb].
  apply role_ok_cases in Hrole as [-> | [r ->]]; [done |].
  set (ap := activePath pathname).
  destruct r; cbn; intros [= <-].
  all: split; [reflexivity |]; split; [reflexivity |].
  all: split;
    [ intros to label active Hin;
      repeat (apply elem_of_cons in Hin as [[= -> -> ->] | Hin]);
      try (by apply elem_of_nil in Hin);
      eexists _, _; (split; [vm_compute; reflexivity |]); vm_compute; reflexivity |].
  all: split; [eexists _, _; apply list_elem_of_here |].
  all: cbn [List.filter snd].
  2-4: destruct (String.prefix _ ap); cbn; lia.
  destruct (String.eqb ap "/") eqn:E0;
    destruct (String.prefix "/employees" ap) eqn:E1;
    destruct (String.prefix "/beneficiaries" ap) eqn:E2;
    destruct (String.prefix "/notifications" ap) eqn:E3;
    cbn [length]; try lia.
  all: try (apply prefix_not_home in E1; congruence).
  all: try (apply prefix_not_home in E2; congruence).
  all: try (apply prefix_not_home in E3; congruence).
  all: exfalso.
  all: first [ refine (prefix_exclusive _ _ _ _ _ _ E1 E2); discriminate
             | refine (prefix_exclusive _ _ _ _ _ _ E1 E3); discriminate
             | refine (prefix_exclusive _ _ _ _ _ _ E2 E3); discriminate ].
Qed.

(** The administrator of scenario A on the page of a beneficiary. *)
Lemma header_links_are_admitted_witness :
  role_ok (ctx_role (useAuth admin_session))
  /\ Header_nav (useAuth admin_session) "/beneficiaries/7"
     = Some [("/", "الرئيسية", false); ("/employees", "الموظفون", false);
             ("/beneficiaries", "المستفيدون", true); ("/notifications", "الرسائل", false)]
  /\ exists b page,
       route_at AppRouter "/beneficiaries" = Some b
       /\ branch_view b (useAuth admin_session) = ViewPage page.
Proof.
  assert (role_ok (ctx_role (useAuth admin_session))) as H1 by (vm_compute; reflexivity).
  assert (Header_nav (useAuth admin_session) "/beneficiaries/7"
          = Some [("/", "الرئيسية", false); ("/employees", "الموظفون", false);
                  ("/beneficiaries", "المستفيدون", true);
                  ("/notifications", "الرسائل", false)]) as H2
    by (vm_compute; reflexivity).
  split; [assumption |]. split; [assumption |].
  destruct (header_links_are_admitted _ _ _ H1 H2) as (_ & _ & H & _).
  apply (H "/beneficiaries" "المستفيدون" true). list_member.
Defined.

Lemma logout_signed_out (o : HttpOutcome) (w : World) :
  isAuthenticated (logout o w).2 = false
  /\ initializing (logout o w).2 = initializing w.
Proof.
  destruct (logout_cleared o w) as (w0 & -> & Hi & _). by rewrite <- Hi.
Qed.

Lemma handleLogout_run (o : HttpOutcome) (s : Screen) (c : Completion unit)
    (w' : World) :
  loggingOut s = false ->
  logout o (session s) = (c, w') ->
  handleLogout o s
  = (c, mkScreen w' false (login_error s) (rememberMe s) (email_field s)
          (match c with
           | Return _ => navigations s ++ [("/login", false)]
           | Throw _ => navigations s
           end)%list).
Proof.
  intros Hl E. unfold handleLogout. rewrite Hl.
  unfold ui_bind, ui_try_finally, in_session, setLoggingOut, navigate.
  cbn [session]. rewrite E. by destruct c as [[] | e].
Qed.

(** X15. [handleLogout] does nothing while a logout is under way: with
    [loggingOut] true it returns at once, sends no request and changes
    nothing.  Otherwise, whatever the server does with the request, when the
    handler settles [loggingOut] is false again and the session is the one
    [logout] leaves; the states of the login form are not touched.  It
    navigates to [/login] exactly when the request was resolved; when it was
    not, the rejection of [logout] is rethrown to the caller and no
    navigation is made, yet the session is signed out, so that the guard of
    every route redirects to [/login] once initializing is over. *)
Theorem handleLogout_settles (o : HttpOutcome) (s : Screen) :
  (loggingOut s = true -> handleLogout o s = (Return tt, s))
  /\ (loggingOut s = false ->
      let s' := (handleLogout o s).2 in
      loggingOut s' = false
      /\ session s' = (logout o (session s)).2
      /\ login_error s' = login_error s
      /\ rememberMe s' = rememberMe s
      /\ email_field s' = email_field s
      /\ match o with
         | Resolved _ =>
             (handleLogout o s).1 = Return tt
             /\ navigations s' = (navigations s ++ [("/login", false)])%list
         | _ =>
             (exists e, (logout o (session s)).1 = Throw e
                        /\ (handleLogout o s).1 = Throw e)
             /\ navigations s' = navigations s
         end
      /\ (initializing (session s) = false ->
          forall allowedRoles,
            ProtectedRoute allowedRoles (useAuth (session s')) = Navigate "/login" true)).
Proof.
  split; [by unfold handleLogout; intros -> |].
  intros Hl. cbv zeta.
  destruct (logout o (session s)) as [c w'] eqn:E.
  rewrite (handleLogout_run o s c w' Hl E).
  cbn [fst snd session loggingOut login_error rememberMe email_field navigations].
  repeat (split; [reflexivity |]). split.
  - destruct (outcome_cases o) as [[data ->] | Hf].
    + rewrite logout_resolved in E. by injection E as <- _.
    + rewrite logout_failed in E by done. injection E as <- _.
      destruct o; [done | |]; split; eauto.
  - intros Hi allowedRoles.
    destruct (logout_signed_out o (session s)) as (Ha & Hi').
    rewrite E in Ha, Hi'. cbn [snd] in Ha, Hi'.
    rewrite ProtectedRoute_signed_out by done. by rewrite Hi', Hi.
Qed.

(** ** The login page *)

Lemma onSubmit_resolved (email password : string) (data : JsValue) (s : Screen) :
  exists w',
    onSubmit email password (Resolved data) s
    = (Return tt,
       mkScreen w' (loggingOut s) "" (rememberMe s) (email_field s) (navigations s))
    /\ localStorage w'
       = remembered (rememberMe s) email (localStorage (signed_in data (session s)))
    /\ isAuthenticated w' = true
    /\ initializing w' = initializing (session s)
    /\ institutionId w' = institutionId (signed_in data (session s))
    /\ role w' = role (signed_in data (session s))
    /\ employeeId w' = employeeId (signed_in data (session s))
    /\ headers_common w' = headers_common (signed_in data (session s)).
Proof.
  unfold onSubmit, ui_bind, ui_try_catch, in_session, setError. cbn [session].
  rewrite login_resolved. cbn [rememberMe session].
  destruct (signed_in_overlay data (session s)) as (Ha & Hi & _).
  destruct (rememberMe s); cbn; eexists; (split; [reflexivity |]); by repeat split.
Qed.

Lemma onSubmit_failed (email password : string) (o : HttpOutcome) (s : Screen) :
  failed o ->
  onSubmit email password o s
  = (Return tt,
     mkScreen (login (credentials email password) o (session s)).2 (loggingOut s)
       "فشل تسجيل الدخول، تأكد من صحة بياناتك" (rememberMe s) (email_field s)
       (navigations s)).
Proof.
  intros Hf.
  unfold onSubmit, ui_bind, ui_try_catch, in_session, setError. cbn [session].
  by rewrite login_failed.
Qed.

(** X16. [onSubmit] never rejects: a failure of the login is caught and
    shown as the error of the form, the session being the signed-out one
    that [login] leaves, and what is stored under the keys of the remembered
    email is not touched.  On success the error of the form is empty, the
    session is the one [login] leaves, and the keys of the remembered email
    are written when the box is ticked ([rememberMe] is the text [true],
    [rememberEmail] the email) and removed when it is not.  The handler makes
    no navigation by itself. *)
Theorem onSubmit_never_rejects (email password : string) (o : HttpOutcome)
    (s : Screen) :
  let w1 := (login (credentials email password) o (session s)).2 in
  let s' := (onSubmit email password o s).2 in
  (onSubmit email password o s).1 = Return tt
  /\ loggingOut s' = loggingOut s
  /\ rememberMe s' = rememberMe s
  /\ email_field s' = email_field s
  /\ navigations s' = navigations s
  /\ isAuthenticated (session s') = isAuthenticated w1
  /\ institutionId (session s') = institutionId w1
  /\ role (session s') = role w1
  /\ employeeId (session s') = employeeId w1
  /\ headers_common (session s') = headers_common w1
  /\ match o with
     | Resolved _ =>
         login_error s' = ""
         /\ isAuthenticated w1 = true
         /\ localStorage (session s') = remembered (rememberMe s) email (localStorage w1)
     | _ =>
         login_error s' = "فشل تسجيل الدخول، تأكد من صحة بياناتك"
         /\ isAuthenticated w1 = false
         /\ localStorage (session s') = localStorage w1
     end.
Proof.
  cbv zeta. destruct (outcome_cases o) as [[data ->] | Hf].
  - destruct (onSubmit_resolved email password data s)
      as (w' & -> & Hs & Ha & Hi & H1 & H2 & H3 & H4).
    rewrite login_resolved.
    cbn [fst snd session loggingOut rememberMe email_field navigations login_error].
    destruct (signed_in_overlay data (session s)) as (Ha' & _).
    by rewrite Ha, Ha'.
  - rewrite onSubmit_failed by done.
    cbn [fst snd session loggingOut rememberMe email_field navigations login_error].
    repeat (split; [done |]).
    rewrite login_failed by done.
    destruct o; [done | |]; by repeat split.
Qed.

Lemma remember_keys_not_session :
  ("rememberMe" ∉ session_keys) /\ ("rememberEmail" ∉ session_keys).
Proof.
  unfold session_keys. rewrite !not_elem_of_cons.
  repeat split; try done; apply not_elem_of_nil.
Qed.

Lemma Login_mount_fields (w : World) :
  let s := Login_mount w in
  let restored :=
    bool_decide (localStorage w !! "rememberMe" = Some "true")
    && truthy (localStorage w !! "rememberEmail") in
  session s = w
  /\ rememberMe s = restored
  /\ email_field s = (if restored then localStorage w !! "rememberEmail" else None)
  /\ login_error s = "" /\ loggingOut s = false /\ navigations s = [].
Proof.
  cbv zeta. unfold Login_mount, Login_restore. cbn [session localStorage].
  destruct (bool_decide (localStorage w !! "rememberMe" = Some "true"));
    cbn [andb]; [| done].
  destruct (localStorage w !! "rememberEmail") as [e |]; cbn [truthy to_string default];
    [| done].
  destruct (String.eqb_spec e "") as [-> | Hne]; cbn [negb id]; [done |].
  destruct (String.eqb_spec e "") as [-> | _]; done.
Qed.

(** X17. The remembered email survives the session.  After a login from
    the form that succeeded, and after any operations of the session that
    follow it (a logout, a failed refresh, ...), the login page, when it
    mounts again, in the same page or after a reload, fills in the email of
    that login and ticks the box, provided the box was ticked and the email
    was not empty; otherwise it fills in nothing and leaves the box
    unticked. *)
Theorem remembered_email_is_restored (email password : string) (data : JsValue)
    (s : Screen) (ops : list Op) :
  let w1 := session (onSubmit email password (Resolved data) s).2 in
  let w2 := fold_left (fun w op => run op w) ops w1 in
  let here := Login_mount w2 in
  let reloaded := Login_mount (mount (localStorage w2)) in
  if rememberMe s && negb (String.eqb email "")
  then email_field here = Some email /\ rememberMe here = true
       /\ email_field reloaded = Some email /\ rememberMe reloaded = true
  else email_field here = None /\ rememberMe here = false
       /\ email_field reloaded = None /\ rememberMe reloaded = false.
Proof.
  cbv zeta.
  destruct (onSubmit_resolved email password data s) as (w' & -> & Hs & _).
  cbn [snd session].
  set (w2 := fold_left (fun w op => run op w) ops w').
  assert (forall w, localStorage w = localStorage w2 ->
            if rememberMe s && negb (String.eqb email "")
            then email_field (Login_mount w) = Some email
                 /\ rememberMe (Login_mount w) = true
            else email_field (Login_mount w) = None
                 /\ rememberMe (Login_mount w) = false) as H.
  { intros w Hw.
    destruct (untouched_fold (localStorage w') (headers_common w') ops w') as [Hk _];
      [done |].
    destruct (Login_mount_fields w) as (_ & -> & -> & _).
    destruct remember_keys_not_session as [K1 K2].
    rewrite Hw. unfold w2. rewrite (Hk _ K1), (Hk _ K2), Hs.
    unfold remembered. destruct (rememberMe s); cbn [andb].
    - rewrite lookup_insert_eq, lookup_insert_ne, lookup_insert_eq by done.
      rewrite bool_decide_eq_true_2 by done. cbn [andb truthy].
      by destruct (negb (String.eqb email "")).
    - rewrite lookup_delete_ne, lookup_delete_eq by done.
      by rewrite bool_decide_eq_false_2. }
  pose proof (H w2 eq_refl) as H1.
  pose proof (H (mount (localStorage w2)) eq_refl) as H2.
  destruct (rememberMe s && negb (String.eqb email "")); tauto.
Qed.
(** ** The token decoder inverts the encoding of the issuer *)

Section Encoding.

Import Platform.
#[local] Open Scope Z_scope.

Lemma code_chr (n : Z) : 0 <= n < 256 -> code (chr n) = n.
Proof.
  intros H. unfold code, chr. rewrite N_ascii_embedding by lia. lia.
Qed.

Lemma chr_code (c : ascii) : chr (code c) = c.
Proof. unfold code, chr. by rewrite N2Z.id, ascii_N_embedding. Qed.

Lemma code_range (c : ascii) : 0 <= code c < 256.
Proof.
  unfold code. pose proof (N_ascii_bounded c). lia.
Qed.

Lemma testbit_small (y i : Z) : 0 <= y < 2 ^ i -> 0 <= i -> Z.testbit y i = false.
Proof.
  intros Hy Hi. apply Z.testbit_false; [done |].
  by rewrite Z.div_small.
Qed.

Lemma lor_disjoint (x y m : Z) :
  0 <= m -> 0 <= y < 2 ^ m -> Z.lor (x * 2 ^ m) y = x * 2 ^ m + y.
Proof.
  intros Hm Hy. symmetry. apply Z.add_nocarry_lor.
  apply Z.bits_inj'. intros i Hi. rewrite Z.land_spec, Z.bits_0.
  destruct (Z.lt_ge_cases i m) as [Hlt | Hge].
  - by rewrite Z.mul_pow2_bits_low.
  - rewrite (testbit_small y i); [apply andb_false_r | | done].
    split; [lia |]. apply Z.lt_le_trans with (2 ^ m); [lia |].
    apply Z.pow_le_mono_r; lia.
Qed.

Lemma lor_add (m x y : Z) :
  0 <= m -> x mod 2 ^ m = 0 -> 0 <= y < 2 ^ m -> Z.lor x y = x + y.
Proof.
  intros Hm Hx Hy.
  assert (x = x / 2 ^ m * 2 ^ m) as E.
  { pose proof (Z.div_mod x (2 ^ m)). lia. }
  rewrite E. by apply lor_disjoint.
Qed.

Lemma land_3 (a : Z) : Z.land a 3 = a mod 4.
Proof. change 3 with (Z.ones 2). by rewrite Z.land_ones. Qed.
Lemma land_15 (a : Z) : Z.land a 15 = a mod 16.
Proof. change 15 with (Z.ones 4). by rewrite Z.land_ones. Qed.
Lemma land_63 (a : Z) : Z.land a 63 = a mod 64.
Proof. change 63 with (Z.ones 6). by rewrite Z.land_ones. Qed.
Lemma land_255 (a : Z) : Z.land a 255 = a mod 256.
Proof. change 255 with (Z.ones 8). by rewrite Z.land_ones. Qed.

Ltac shifts :=
  rewrite ?land_3, ?land_15, ?land_63, ?land_255;
  rewrite ?Z.shiftl_mul_pow2, ?Z.shiftr_div_pow2 by lia;
  change (2 ^ 2) with 4; change (2 ^ 4) with 16; change (2 ^ 6) with 64;
  change (2 ^ 8) with 256; change (2 ^ 10) with 1024; change (2 ^ 12) with 4096;
  change (2 ^ 16) with 65536; change (2 ^ 18) with 262144.

Ltac euclid := Z.div_mod_to_equations; lia.

Lemma second_sextet (a b : Z) :
  0 <= b < 256 -> Z.lor (a mod 4 * 16) (b / 16) = a mod 4 * 16 + b / 16.
Proof.
  intros Hb. apply (lor_add 4); [lia | change (2 ^ 4) with 16; euclid ..].
Qed.

Lemma third_sextet (b c : Z) :
  0 <= c < 256 -> Z.lor (b mod 16 * 4) (c / 64) = b mod 16 * 4 + c / 64.
Proof.
  intros Hb. apply (lor_add 2); [lia | change (2 ^ 2) with 4; euclid ..].
Qed.

Lemma four_sextets (a b c d : Z) :
  0 <= b < 64 -> 0 <= c < 64 -> 0 <= d < 64 ->
  Z.lor (Z.lor (a * 262144) (b * 4096)) (Z.lor (c * 64) d)
  = a * 262144 + b * 4096 + c * 64 + d.
Proof.
  intros Hb Hc Hd.
  rewrite (lor_add 6 (c * 64) d); [| lia | change (2 ^ 6) with 64; euclid ..].
  rewrite (lor_add 18 (a * 262144) (b * 4096));
    [| lia | change (2 ^ 18) with 262144; euclid ..].
  rewrite (lor_add 12); [lia | lia | change (2 ^ 12) with 4096; euclid ..].
Qed.

Lemma three_sextets (a b c : Z) :
  0 <= b < 64 -> 0 <= c < 64 ->
  Z.lor (Z.lor (a * 4096) (b * 64)) c = a * 4096 + b * 64 + c.
Proof.
  intros Hb Hc.
  rewrite (lor_add 12 (a * 4096) (b * 64));
    [| lia | change (2 ^ 12) with 4096; euclid ..].
  rewrite (lor_add 6); [lia | lia | change (2 ^ 6) with 64; euclid ..].
Qed.

Lemma two_sextets (a b : Z) :
  0 <= b < 64 -> Z.lor (a * 64) b = a * 64 + b.
Proof.
  intros Hb.
  rewrite (lor_add 6); [lia | lia | change (2 ^ 6) with 64; euclid ..].
Qed.

Lemma list_ind3 {A} (P : list A -> Prop) :
  P [] -> (forall a, P [a]) -> (forall a b, P [a; b]) ->
  (forall a b c r, P r -> P (a :: b :: c :: r)) ->
  forall l, P l.
Proof.
  intros H0 H1 H2 H3. fix IH 1.
  intros [| a [| b [| c r]]]; [done | done | done |]. apply H3, IH.
Qed.

Lemma b64_bytes_sextets_of (bytes : list Z) :
  octets bytes -> b64_bytes (sextets_of bytes) = bytes.
Proof.
  unfold octets.
  induction bytes as [| a | a b | a b c r IH] using list_ind3; intros H.
  - done.
  - apply Forall_cons_1 in H as [Ha _]. cbn [sextets_of b64_bytes]. cbv zeta.
    shifts. rewrite two_sextets by euclid. f_equal. euclid.
  - apply Forall_cons_1 in H as [Ha [Hb _]%Forall_cons_1].
    cbn [sextets_of b64_bytes]. cbv zeta. shifts.
    rewrite second_sextet by done.
    rewrite three_sextets by euclid.
    f_equal; [euclid |]. f_equal. euclid.
  - apply Forall_cons_1 in H as [Ha [Hb [Hc Hr]%Forall_cons_1]%Forall_cons_1].
    cbn [sextets_of b64_bytes]. cbv zeta. shifts.
    rewrite second_sextet, third_sextet by done.
    rewrite four_sextets by euclid. rewrite (IH Hr).
    f_equal; [euclid |]. f_equal; [euclid |]. f_equal. euclid.
Qed.

Lemma replace_all_chars (a b : ascii) (l : list ascii) :
  replace_all a b (string_of_list_ascii l)
  = string_of_list_ascii ((fun c => if Ascii.eqb c a then b else c) <$> l).
Proof. induction l as [| c r IH]; [done |]. cbn. by rewrite IH. Qed.

Lemma normalized_chars (l : list ascii) :
  list_ascii_of_string (normalized (string_of_list_ascii l)) = norm_char <$> l.
Proof.
  unfold normalized. rewrite !replace_all_chars, list_ascii_of_string_of_list_ascii.
  by rewrite <- list_fmap_compose.
Qed.

Lemma below_64 (P : Z -> bool) :
  forallb P (seqZ 0 64) = true -> forall v, 0 <= v < 64 -> P v = true.
Proof.
  intros H v Hv. rewrite forallb_forall in H. apply H.
  apply list_elem_of_In, elem_of_seqZ. lia.
Qed.

Lemma alphabet (v : Z) :
  0 <= v < 64 ->
  b64_value (norm_char (base64url_char v)) = Some v
  /\ is_ascii_whitespace (norm_char (base64url_char v)) = false
  /\ norm_char (base64url_char v) <> "="%char
  /\ Ascii.eqb (base64url_char v) "." = false.
Proof.
  intros Hv. assert (alphabet_ok v = true) as H.
  { revert v Hv. apply below_64. vm_compute. reflexivity. }
  unfold alphabet_ok in H.
  apply andb_true_iff in H as [[[H1 H2]%andb_true_iff H3]%andb_true_iff H4].
  apply bool_decide_eq_true_1 in H1. apply negb_true_iff in H2, H3, H4.
  by apply Ascii.eqb_neq in H3.
Qed.

Lemma sextets_of_range (bytes : list Z) :
  octets bytes -> Forall (fun v => 0 <= v < 64) (sextets_of bytes).
Proof.
  unfold octets.
  induction bytes as [| a | a b | a b c r IH] using list_ind3; intros H.
  - done.
  - apply Forall_cons_1 in H as [Ha _]. cbn [sextets_of]. shifts.
    repeat constructor; euclid.
  - apply Forall_cons_1 in H as [Ha [Hb _]%Forall_cons_1].
    cbn [sextets_of]. shifts. rewrite second_sextet by done.
    repeat constructor; euclid.
  - apply Forall_cons_1 in H as [Ha [Hb [Hc Hr]%Forall_cons_1]%Forall_cons_1].
    cbn [sextets_of]. shifts. rewrite second_sextet, third_sextet by done.
    repeat (apply Forall_cons; split); [euclid .. | by apply IH].
Qed.

Lemma sextets_of_length (bytes : list Z) :
  (length (sextets_of bytes) mod 4 =? 1)%nat = false.
Proof.
  induction bytes as [| a | a b | a b c r IH] using list_ind3; [done .. |].
  cbn [sextets_of length].
  change (S (S (S (S (length (sextets_of r))))))
    with (4 + length (sextets_of r))%nat.
  by rewrite <- Nat.Div0.add_mod_idemp_l.
Qed.

Lemma sextets_alphabet (vs : list Z) :
  Forall (fun v => 0 <= v < 64) vs ->
  sextets (norm_char <$> (base64url_char <$> vs)) = Some vs.
Proof.
  induction 1 as [| v vs Hv _ IH]; [done |].
  cbn [fmap list_fmap sextets]. fold (@fmap list _ _ _ base64url_char vs).
  fold (@fmap list _ _ _ norm_char (base64url_char <$> vs)).
  rewrite IH. by rewrite (proj1 (alphabet v Hv)).
Qed.

Lemma no_whitespace (vs : list Z) :
  Forall (fun v => 0 <= v < 64) vs ->
  filter (fun c => negb (is_ascii_whitespace c))
    (norm_char <$> (base64url_char <$> vs))
  = norm_char <$> (base64url_char <$> vs).
Proof.
  induction 1 as [| v vs Hv _ IH]; [done |].
  rewrite !fmap_cons, filter_cons, IH.
  destruct (alphabet v Hv) as (_ & Ha & _).
  rewrite decide_True; [done |]. apply Is_true_true. by rewrite Ha.
Qed.

Lemma strip_padding_none (data : list ascii) :
  Forall (fun c => c <> "="%char) data -> strip_padding data = data.
Proof.
  intros H. unfold strip_padding.
  destruct (length data mod 4 =? 0)%nat; [| done].
  destruct (rev data) as [| c r] eqn:E; [done |].
  assert (c <> "="%char) as Hc.
  { rewrite Forall_forall in H. apply H, list_elem_of_In, in_rev.
    rewrite E. by left. }
  destruct c as [[] [] [] [] [] [] [] []]; try reflexivity. done.
Qed.

Lemma no_padding (vs : list Z) :
  Forall (fun v => 0 <= v < 64) vs ->
  Forall (fun c => c <> "="%char) (norm_char <$> (base64url_char <$> vs)).
Proof.
  induction 1 as [| v vs Hv _ IH]; [done |].
  rewrite !fmap_cons. apply Forall_cons; split; [| done].
  by destruct (alphabet v Hv) as (_ & _ & Ha & _).
Qed.

Lemma atob_base64url (bytes : list Z) :
  octets bytes -> atob (normalized (base64url bytes)) = Return bytes.
Proof.
  intros H. pose proof (sextets_of_range bytes H) as Hv.
  unfold atob, base64url. rewrite normalized_chars.
  rewrite (no_whitespace _ Hv), (strip_padding_none _ (no_padding _ Hv)).
  rewrite !length_fmap, sextets_of_length, (sextets_alphabet _ Hv).
  cbn [fmap option_fmap option_map of_option].
  by rewrite b64_bytes_sextets_of.
Qed.

Lemma escape_codes (l : list ascii) :
  escape (code <$> l) = flat_map escaped l.
Proof.
  induction l as [| c r IH]; [done |].
  rewrite fmap_cons. cbn [escape flat_map]. rewrite IH. unfold escaped.
  rewrite chr_code. destruct (escape_unreserved (code c)); [done |].
  pose proof (code_range c) as Hc.
  destruct (Z.ltb_spec (code c) 256); [done | lia].
Qed.

Lemma uri_items_escaped (c : ascii) (s : list ascii) :
  uri_items (escaped c ++ s) = cons (item c) <$> uri_items s.
Proof.
  destruct c as [[] [] [] [] [] [] [] []];
    match goal with
    | |- uri_items (escaped ?c ++ _) = _ =>
        let e := eval vm_compute in (escaped c) in
        let i := eval vm_compute in (item c) in
        change (escaped c) with e; change (item c) with i
    end;
    cbn [app uri_items];
    repeat match goal with
           | |- context [hex_value ?h] =>
               let v := eval vm_compute in (hex_value h) in
               change (hex_value h) with v
           end;
    destruct (uri_items s); reflexivity.
Qed.

Lemma uri_items_escape (l : list ascii) :
  uri_items (escape (code <$> l)) = Some (item <$> l).
Proof.
  rewrite escape_codes.
  induction l as [| c r IH]; [done |].
  cbn [flat_map]. by rewrite uri_items_escaped, IH.
Qed.

Ltac range_cases :=
  unfold in_range, is_cont;
  repeat match goal with
         | |- context [(?a <? ?b)%Z] => destruct (Z.ltb_spec a b); try lia
         | |- context [(?a <=? ?b)%Z] => destruct (Z.leb_spec a b); try lia
         | |- context [(?a =? ?b)%Z] => destruct (Z.eqb_spec a b); try lia
         end;
  cbn [andb orb]; try reflexivity.

Lemma item_high (x : Z) : 128 <= x < 256 -> item (chr x) = Pct x.
Proof.
  intros Hx. unfold item. rewrite code_chr by lia.
  unfold escape_unreserved. by range_cases.
Qed.

Lemma uri_utf8_item_low (x : Z) (r : list UriItem) :
  0 <= x < 128 -> uri_utf8 (item (chr x) :: r) = cons (chr x) <$> uri_utf8 r.
Proof.
  intros Hx. unfold item. rewrite code_chr by lia.
  destruct (escape_unreserved x); cbn [uri_utf8]; [done |]. by range_cases.
Qed.

Lemma in_range_true (lo hi n : Z) : lo <= n <= hi -> in_range lo hi n = true.
Proof. intros H. by range_cases. Qed.

Lemma in_range_false (lo hi n : Z) : n < lo \/ hi < n -> in_range lo hi n = false.
Proof. intros H. by range_cases. Qed.

Lemma uri_utf8_2 (b0 b1 : Z) (r : list UriItem) :
  194 <= b0 <= 223 -> 128 <= b1 <= 191 ->
  uri_utf8 (Pct b0 :: Pct b1 :: r)
  = (fun t => chr b0 :: chr b1 :: t) <$> uri_utf8 r.
Proof.
  intros H0 H1. cbn [uri_utf8]. unfold is_cont.
  rewrite (proj2 (Z.ltb_ge b0 128)) by lia.
  by rewrite (in_range_true 194 223 b0), (in_range_true 128 191 b1) by lia.
Qed.

Lemma uri_utf8_3 (b0 b1 b2 : Z) (r : list UriItem) :
  224 <= b0 <= 239 -> 128 <= b1 <= 191 -> 128 <= b2 <= 191 ->
  (b0 = 224 -> 160 <= b1) -> (b0 = 237 -> b1 <= 159) ->
  uri_utf8 (Pct b0 :: Pct b1 :: Pct b2 :: r)
  = (fun t => chr b0 :: chr b1 :: chr b2 :: t) <$> uri_utf8 r.
Proof.
  intros H0 H1 H2 Hlo Hhi. cbn [uri_utf8]. cbv zeta. unfold is_cont.
  rewrite (proj2 (Z.ltb_ge b0 128)) by lia.
  rewrite (in_range_false 194 223 b0), (in_range_true 224 239 b0) by lia.
  rewrite (in_range_true 128 191 b2) by lia.
  by destruct (Z.eqb_spec b0 224), (Z.eqb_spec b0 237);
    rewrite in_range_true by lia.
Qed.

Lemma uri_utf8_4 (b0 b1 b2 b3 : Z) (r : list UriItem) :
  240 <= b0 <= 244 -> 128 <= b1 <= 191 -> 128 <= b2 <= 191 -> 128 <= b3 <= 191 ->
  (b0 = 240 -> 144 <= b1) -> (b0 = 244 -> b1 <= 143) ->
  uri_utf8 (Pct b0 :: Pct b1 :: Pct b2 :: Pct b3 :: r)
  = (fun t => chr b0 :: chr b1 :: chr b2 :: chr b3 :: t) <$> uri_utf8 r.
Proof.
  intros H0 H1 H2 H3 Hlo Hhi. cbn [uri_utf8]. cbv zeta. unfold is_cont.
  rewrite (proj2 (Z.ltb_ge b0 128)) by lia.
  rewrite (in_range_false 194 223 b0), (in_range_false 224 239 b0),
    (in_range_true 240 244 b0) by lia.
  rewrite (in_range_true 128 191 b2), (in_range_true 128 191 b3) by lia.
  by destruct (Z.eqb_spec b0 240), (Z.eqb_spec b0 244);
    rewrite in_range_true by lia.
Qed.

Lemma lor_128 (y : Z) : 0 <= y < 64 -> Z.lor 128 y = 128 + y.
Proof. intros H. apply (lor_add 6); [lia | done | change (2 ^ 6) with 64; lia]. Qed.
Lemma lor_192 (y : Z) : 0 <= y < 32 -> Z.lor 192 y = 192 + y.
Proof. intros H. apply (lor_add 5); [lia | done | change (2 ^ 5) with 32; lia]. Qed.
Lemma lor_224 (y : Z) : 0 <= y < 16 -> Z.lor 224 y = 224 + y.
Proof. intros H. apply (lor_add 4); [lia | done | change (2 ^ 4) with 16; lia]. Qed.
Lemma lor_240 (y : Z) : 0 <= y < 8 -> Z.lor 240 y = 240 + y.
Proof. intros H. apply (lor_add 3); [lia | done | change (2 ^ 3) with 8; lia]. Qed.

Lemma uri_utf8_encoded (cp : Z) (r : list UriItem) :
  scalar_value cp ->
  uri_utf8 ((item <$> Json.utf8_encode cp) ++ r)
  = app (Json.utf8_encode cp) <$> uri_utf8 r.
Proof.
  intros Hcp. unfold scalar_value in Hcp. unfold Json.utf8_encode.
  destruct (Z.ltb_spec cp 128); [| destruct (Z.ltb_spec cp 2048);
                                   [| destruct (Z.ltb_spec cp 65536)]].
  - cbn [fmap list_fmap app]. rewrite uri_utf8_item_low by lia.
    by destruct (uri_utf8 r).
  - shifts. rewrite lor_192, lor_128 by euclid.
    cbn [fmap list_fmap app]. rewrite !item_high by euclid.
    rewrite uri_utf8_2 by euclid. by destruct (uri_utf8 r).
  - shifts. rewrite lor_224, !lor_128 by euclid.
    cbn [fmap list_fmap app]. rewrite !item_high by euclid.
    rewrite uri_utf8_3 by euclid. by destruct (uri_utf8 r).
  - shifts. rewrite lor_240, !lor_128 by euclid.
    cbn [fmap list_fmap app]. rewrite !item_high by euclid.
    rewrite uri_utf8_4 by euclid. by destruct (uri_utf8 r).
Qed.

Lemma uri_utf8_text (cps : list Z) :
  Forall scalar_value cps -> uri_utf8 (item <$> utf8 cps) = Some (utf8 cps).
Proof.
  induction 1 as [| cp cps Hcp _ IH]; [done |].
  unfold utf8 in *. cbn [flat_map].
  by rewrite fmap_app, (uri_utf8_encoded _ _ Hcp), IH.
Qed.

Lemma octets_codes (l : list ascii) : octets (code <$> l).
Proof. apply Forall_fmap, Forall_forall. intros c _. apply code_range. Qed.

Lemma decode_segment_base64url (cps : list Z) :
  Forall scalar_value cps ->
  decode_segment (Some (base64url (code <$> utf8 cps)))
  = try_catch_pure (Json.JSON_parse (string_of_list_ascii (utf8 cps)))
      (fun _ => Return JNull).
Proof.
  intros H. unfold decode_segment.
  destruct (String.eqb_spec (base64url (code <$> utf8 cps)) "") as [E | _].
  - destruct cps as [| cp cps]; [reflexivity |]. exfalso.
    apply Forall_cons_1 in H as [Hcp _]. revert E.
    unfold utf8. cbn [flat_map]. unfold Json.utf8_encode.
    repeat match goal with |- context [(?a <? ?b)%Z] => destruct (a <? b)%Z end;
      cbn [app fmap list_fmap];
      match goal with
      | |- context [code ?c :: ?l] => by destruct l as [| ? [| ? ?]]
      end.
  - rewrite (atob_base64url _ (octets_codes _)). cbn [cbind].
    unfold decodeURIComponent.
    by rewrite uri_items_escape; cbn [mbind option_bind]; rewrite (uri_utf8_text _ H).
Qed.

Lemma base64url_dot_free (bytes : list Z) :
  octets bytes -> dot_free (base64url bytes) = true.
Proof.
  intros H. pose proof (sextets_of_range bytes H) as Hv.
  unfold dot_free, base64url. rewrite list_ascii_of_string_of_list_ascii.
  induction Hv as [| v vs Hv _ IH]; [done |].
  rewrite fmap_cons. cbn [forallb]. rewrite IH, andb_true_r.
  destruct (alphabet v Hv) as (_ & _ & _ & Ha). by rewrite Ha.
Qed.

(** X18. [decodeJwt] inverts the encoding of the issuer.  For a token whose
    second segment is the unpadded base64url form of the UTF-8 octets of a
    text (any sequence of Unicode scalar values, of any length), whatever
    the header without a dot and whatever the signature, also when there is
    no signature, [decodeJwt] returns what [JSON.parse] returns for that
    text, and [null] where [JSON.parse] throws: neither [atob], nor
    [escape], nor [decodeURIComponent] fails or alters a character. *)
Theorem decodeJwt_inverts_base64url :
  forall (header signature : string) (cps : list Z),
    dot_free header = true ->
    Forall scalar_value cps ->
    let text := string_of_list_ascii (utf8 cps) in
    let payload := base64url (code <$> utf8 cps) in
    decodeJwt (header ++ "." ++ payload ++ "." ++ signature)
    = try_catch_pure (Json.JSON_parse text) (fun _ => Return JNull)
    /\ decodeJwt (header ++ "." ++ payload)
       = try_catch_pure (Json.JSON_parse text) (fun _ => Return JNull).
Proof.
  intros header signature cps Hh Hcps text payload.
  pose proof (base64url_dot_free _ (octets_codes (utf8 cps))) as Hp.
  fold payload in Hp. rewrite !decodeJwt_segment.
  change (header ++ "." ++ payload ++ "." ++ signature)
    with (header ++ String "." (payload ++ String "." signature)).
  change (header ++ "." ++ payload) with (header ++ String "." payload).
  rewrite !(split_segment header _ Hh), (split_segment payload _ Hp),
    (split_dot_free payload Hp).
  cbn [lookup list_lookup]. split; by apply decode_segment_base64url.
Qed.

(** A payload with characters of one, two, three and four octets. *)
Lemma decodeJwt_inverts_base64url_witness :
  dot_free "eyJhbGciOiJIUzI1NiJ9" = true
  /\ Forall scalar_value sample_text
  /\ base64url (code <$> utf8 sample_text)
     = "eyJuYW1lIjoi2YbYqNmK2YQiLCJyb2xlIjoiUFVCTElTSEVSIiwibWFyayI6IuKCrPCfmIAifQ"
  /\ decodeJwt ("eyJhbGciOiJIUzI1NiJ9" ++ "."
                ++ base64url (code <$> utf8 sample_text) ++ "." ++ "sig")
     = Return (obj [("name", JStr (string_of_list_ascii (utf8 [1606; 1576; 1610; 1604])));
                    ("role", JStr "PUBLISHER");
                    ("mark", JStr (string_of_list_ascii (utf8 [8364; 128512])))]).
Proof.
  assert (Forall scalar_value sample_text) as Hs.
  { unfold sample_text, scalar_value. repeat constructor; lia. }
  split; [reflexivity |]. split; [exact Hs |]. split; [vm_compute; reflexivity |].
  etrans.
  - exact (proj1 (decodeJwt_inverts_base64url "eyJhbGciOiJIUzI1NiJ9" "sig"
                    sample_text eq_refl Hs)).
  - vm_compute. reflexivity.
Defined.

End Encoding.

(** ** The forms of the rounds *)

Lemma trimStart_id (s : Text) :
  (forall u r, s = u :: r -> is_white_space u = false) -> trimStart s = s.
Proof.
  destruct s as [| u r]; [done |]. intros H. cbn. by rewrite (H u r eq_refl).
Qed.

Lemma trim_id (s : Text) :
  Forall (fun u => is_white_space u = false) s -> trim s = s.
Proof.
  intros H. unfold trim, trimEnd.
  rewrite (trimStart_id s).
  - rewrite (trimStart_id (rev s)); [apply rev_involutive |].
    intros u r E. rewrite Forall_forall in H. apply H, list_elem_of_In, in_rev.
    rewrite E. by left.
  - intros u r ->. by apply Forall_cons_1 in H as [H _].
Qed.

Lemma separator_white_space (u : Z) :
  separator u = false -> is_white_space u = false.
Proof. unfold separator. by intros [_ H]%orb_false_iff. Qed.

Lemma split_runs_pieces (in_run : bool) (s : Text) :
  Forall (Forall (fun u => separator u = false)) (split_runs in_run s).
Proof.
  revert in_run. induction s as [| u r IH]; intros in_run; cbn [split_runs].
  - by repeat constructor.
  - destruct (separator u) eqn:E.
    + destruct in_run; [apply IH |]. apply Forall_cons; split; [done | apply IH].
    + specialize (IH false). destruct (split_runs false r) as [| p ps].
      * by repeat constructor.
      * apply Forall_cons_1 in IH as [Hp Hps].
        apply Forall_cons; split; [| done]. by apply Forall_cons.
Qed.

Lemma trim_pieces (in_run : bool) (s : Text) :
  trim <$> split_runs in_run s = split_runs in_run s.
Proof.
  pose proof (split_runs_pieces in_run s) as H.
  induction H as [| p ps Hp _ IH]; [done |].
  rewrite fmap_cons, IH. f_equal. apply trim_id.
  eapply Forall_impl; [exact Hp |]. apply separator_white_space.
Qed.

Lemma allocation_ids_pieces (s : Text) : allocation_ids s = ids_from false s.
Proof. unfold allocation_ids. by rewrite trim_pieces. Qed.

Lemma ids_from_run (s : Text) : ids_from true s = ids_from false s.
Proof.
  unfold ids_from. destruct s as [| u r]; [done |]. cbn [split_runs].
  by destruct (separator u).
Qed.

Lemma ids_from_separator (u : Z) (s : Text) (in_run : bool) :
  separator u = true -> ids_from in_run (u :: s) = ids_from false s.
Proof.
  intros E. rewrite <- (ids_from_run s). unfold ids_from. cbn [split_runs].
  rewrite E. by destruct in_run.
Qed.

Lemma split_runs_cons (s : Text) : exists p ps, split_runs false s = p :: ps.
Proof.
  destruct s as [| u r]; cbn [split_runs]; [by eexists _, _ |].
  destruct (separator u); [by eexists _, _ |].
  destruct (split_runs false r); by eexists _, _.
Qed.

Lemma split_runs_append (a b : Text) (c : Z) :
  separator c = true ->
  exists p ps ps',
    split_runs false a = p :: ps
    /\ split_runs false (a ++ c :: b)%list = p :: ps'
    /\ List.filter nonempty ps' = (List.filter nonempty ps ++ ids_from false b)%list.
Proof.
  intros Hc. induction a as [| u r (p & ps & ps' & E1 & E2 & E3)].
  - exists [], [], (split_runs true b). cbn [app split_runs]. rewrite Hc.
    repeat split. apply ids_from_run.
  - cbn [app split_runs]. destruct (separator u) eqn:E.
    + exists [], (split_runs true r), (split_runs true (r ++ c :: b)%list).
      repeat split. fold (ids_from true (r ++ c :: b)%list). fold (ids_from true r).
      rewrite !ids_from_run. unfold ids_from at 1 2. rewrite E1, E2.
      cbn [List.filter]. rewrite E3. by destruct (nonempty p).
    + rewrite E1, E2. by exists (u :: p), ps, ps'.
Qed.

Lemma ids_from_append (a b : Text) (c : Z) :
  separator c = true ->
  ids_from false (a ++ c :: b)%list = (ids_from false a ++ ids_from false b)%list.
Proof.
  intros Hc. destruct (split_runs_append a b c Hc) as (p & ps & ps' & E1 & E2 & E3).
  unfold ids_from at 1 2. rewrite E1, E2. cbn [List.filter]. rewrite E3.
  by destruct (nonempty p).
Qed.

Lemma split_runs_identifier (s : Text) :
  Forall (fun u => separator u = false) s -> split_runs false s = [s].
Proof.
  induction 1 as [| u r Hu _ IH]; [done |]. cbn [split_runs]. by rewrite Hu, IH.
Qed.

Lemma ids_from_identifier (s : Text) : identifier s -> ids_from false s = [s].
Proof.
  intros [Hne H]. unfold ids_from. rewrite (split_runs_identifier s H).
  by destruct s.
Qed.

Lemma ids_from_identifiers (in_run : bool) (s : Text) :
  Forall identifier (ids_from in_run s).
Proof.
  unfold ids_from. pose proof (split_runs_pieces in_run s) as H.
  induction H as [| p ps Hp _ IH]; [done |]. cbn [List.filter].
  destruct p as [| u r]; [done |]. cbn [nonempty]. by apply Forall_cons.
Qed.

Lemma ids_from_concat (in_run : bool) (s : Text) :
  concat (ids_from in_run s) = List.filter (fun u => negb (separator u)) s.
Proof.
  assert (forall l : list Text, concat (List.filter nonempty l) = concat l) as Hc.
  { induction l as [| [| u r] l IH]; cbn; [done | done | by rewrite <- IH]. }
  unfold ids_from. rewrite Hc.
  revert in_run. induction s as [| u r IH]; intros in_run; [done |].
  cbn [split_runs List.filter]. destruct (separator u) eqn:E; cbn [negb].
  - destruct in_run; cbn [concat app]; apply IH.
  - specialize (IH false). destruct (split_runs false r) as [| p ps].
    + cbn in IH. by rewrite <- IH.
    + cbn [concat] in *. cbn [app]. by rewrite IH.
Qed.

Lemma trimStart_spec (s : Text) :
  exists lead : Text,
    s = (lead ++ trimStart s)%list /\ blank lead
    /\ is_white_space <$> head (trimStart s) <> Some true.
Proof.
  induction s as [| u r (lead & E & Hb & Hh)].
  - exists []. split; [done |]. split; [apply Forall_nil_2 | done].
  - cbn [trimStart]. destruct (is_white_space u) eqn:Eu.
    + exists (u :: lead). split; [cbn [app]; by rewrite <- E |].
      split; [by apply Forall_cons | done].
    + exists []. split; [done |]. split; [apply Forall_nil_2 |].
      cbn. by rewrite Eu.
Qed.

Lemma head_rev (s : Text) : head (rev s) = last s.
Proof.
  induction s as [| u r _] using rev_ind; [done |].
  by rewrite rev_app_distr, last_snoc.
Qed.

Lemma trimEnd_spec (s : Text) :
  exists trail : Text,
    s = (trimEnd s ++ trail)%list /\ blank trail
    /\ is_white_space <$> last (trimEnd s) <> Some true.
Proof.
  destruct (trimStart_spec (rev s)) as (lead & E & Hb & Hh).
  exists (rev lead). unfold trimEnd. split.
  - by rewrite <- rev_app_distr, <- E, rev_involutive.
  - split.
    + unfold blank in *. rewrite Forall_forall in *. intros u Hu. apply Hb.
      by apply list_elem_of_In, in_rev, list_elem_of_In.
    + by rewrite <- head_rev, rev_involutive.
Qed.

Lemma trim_spec (s : Text) : trimmed s (trim s).
Proof.
  destruct (trimStart_spec s) as (lead & E1 & Hl & Hh).
  destruct (trimEnd_spec (trimStart s)) as (trail & E2 & Ht & Hlast).
  exists lead, trail. unfold trim. split; [by rewrite <- E2 |].
  split; [done |]. split; [done |]. split; [| done].
  destruct (trimEnd (trimStart s)) as [| u r] eqn:E; [done |].
  rewrite E2 in Hh. by cbn in *.
Qed.

Lemma blank_trimStart (s : Text) : blank s -> trimStart s = [].
Proof.
  induction 1 as [| u r Hu _ IH]; [done |]. cbn [trimStart]. by rewrite Hu.
Qed.

Lemma trim_blank (s : Text) : nonempty (trim s) = false <-> blank s.
Proof.
  split.
  - intros H. destruct (trim_spec s) as (lead & trail & E & Hl & Ht & _).
    destruct (trim s); [| done]. rewrite E. by apply Forall_app.
  - intros H. unfold trim. by rewrite (blank_trimStart s H).
Qed.

Lemma trimmed_unique (s r : Text) : trimmed s r -> r = trim s.
Proof.
  intros (lead & trail & -> & Hl & Ht & Hh & Hlast).
  assert (r = [] \/ head r <> None) as [-> | Hne]
    by (destruct r; [by left | by right]).
  { assert (blank (lead ++ [] ++ trail)%list) as Hb by (by apply Forall_app).
    apply trim_blank in Hb. by destruct (trim (lead ++ [] ++ trail)%list). }
  assert (forall t : Text, trimStart (lead ++ r ++ t)%list = (r ++ t)%list) as E1.
  { intros t. induction Hl as [| u l Hu _ IH]; cbn [app trimStart].
    - destruct r as [| u r']; [done |]. cbn [app trimStart].
      cbn in Hh. by destruct (is_white_space u).
    - by rewrite Hu. }
  assert (trimStart (rev trail ++ rev r)%list = rev r) as E2.
  { assert (blank (rev trail)) as Hb.
    { unfold blank in *. rewrite Forall_forall in *. intros u Hu. apply Ht.
      by apply list_elem_of_In, in_rev, list_elem_of_In. }
    induction Hb as [| u l Hu _ IH]; cbn [app trimStart].
    - rewrite <- head_rev in Hlast. destruct (rev r) as [| u r'] eqn:E; [done |].
      cbn [trimStart]. cbn in Hlast. by destruct (is_white_space u).
    - by rewrite Hu. }
  unfold trim. rewrite E1.
  unfold trimEnd. by rewrite !rev_app_distr, E2, rev_involutive.
Qed.

(** X19. The identifiers that [handleAllocationSubmit] reads are the runs
    of characters between the commas and the white space of the text area:
    a comma or a white-space character cuts the text in two parts that are
    read independently, whatever stands next to it (more separators, the
    start or the end of the text); a text without any separator is one
    identifier, read as it is; the empty text holds none. *)
Theorem allocation_ids_split_at_separators :
  (forall (a b : Text) (c : Z),
      separator c = true ->
      allocation_ids (a ++ c :: b)%list = (allocation_ids a ++ allocation_ids b)%list)
  /\ (forall id : Text, identifier id -> allocation_ids id = [id])
  /\ allocation_ids [] = [].
Proof.
  split; [| split].
  - intros a b c Hc. rewrite !allocation_ids_pieces. by apply ids_from_append.
  - intros id Hid. rewrite allocation_ids_pieces. by apply ids_from_identifier.
  - reflexivity.
Qed.

(** A blank, an identifier, a comma and a blank, an identifier, a line
    feed. *)
Lemma allocation_ids_split_at_separators_witness :
  separator 44 = true
  /\ identifier id_2
  /\ split_runs false typed_ids = [[]; id_1; id_2; []]
  /\ allocation_ids typed_ids = [id_1; id_2].
Proof.
  assert (identifier id_2) as Hid.
  { split; [discriminate |]. by repeat constructor. }
  split; [reflexivity |]. split; [exact Hid |]. split; [reflexivity |].
  destruct allocation_ids_split_at_separators as (Hcut & Hone & Hnone).
  change typed_ids with (([32%Z] ++ id_1) ++ 44%Z :: ([32%Z] ++ id_2 ++ [10%Z]))%list.
  rewrite (Hcut _ _ 44%Z eq_refl).
  change ([32%Z] ++ id_1)%list with ([] ++ 32%Z :: id_1)%list.
  change ([32%Z] ++ id_2 ++ [10%Z])%list with ([] ++ 32%Z :: (id_2 ++ 10%Z :: []))%list.
  rewrite !(Hcut _ _ 32%Z eq_refl), (Hcut _ _ 10%Z eq_refl), Hnone.
  rewrite (Hone id_2 Hid).
  rewrite (Hone id_1); [reflexivity |].
  split; [discriminate |]. by repeat constructor.
Defined.

(** X20. [handleAllocationSubmit] starts the mutation exactly when the text
    area holds a character that is neither a comma nor white space, and
    shows its message otherwise.  Every identifier it sends is non-empty
    and free of commas and white space, and the identifiers, put end to
    end, are the characters of the text area without its separators:
    nothing is dropped, added or reordered. *)
Theorem allocation_submits_identifiers_only :
  forall s : Text,
    handleAllocationSubmit s
    = (if forallb separator s
       then SetAllocationFeedback "يرجى إدخال معرف مستفيد واحد على الأقل"
       else AllocateMutate (allocation_ids s))
    /\ Forall identifier (allocation_ids s)
    /\ concat (allocation_ids s) = List.filter (fun u => negb (separator u)) s.
Proof.
  intros s. unfold handleAllocationSubmit. rewrite !allocation_ids_pieces.
  pose proof (ids_from_concat false s) as Hc.
  pose proof (ids_from_identifiers false s) as Hi.
  split; [| done].
  destruct (forallb separator s) eqn:E.
  - replace (ids_from false s) with (@nil Text); [done |].
    destruct (ids_from false s) as [| [| u r] l]; [done | |].
    + by apply Forall_cons_1 in Hi as [[? _] _].
    + exfalso. rewrite forallb_forall in E.
      assert (In u (List.filter (fun u => negb (separator u)) s)) as Hu.
      { rewrite <- Hc. by left. }
      apply filter_In in Hu as [Hu1 Hu2]. by rewrite (E u Hu1) in Hu2.
  - destruct (ids_from false s) as [| p l]; [| done]. exfalso.
    cbn [concat] in Hc. symmetry in Hc.
    assert (forallb separator s = true); [| congruence].
    apply forallb_forall. intros u Hu.
    destruct (separator u) eqn:Eu; [done |].
    assert (In u (List.filter (fun u => negb (separator u)) s)) as Hin.
    { apply filter_In. by rewrite Eu. }
    by rewrite Hc in Hin.
Qed.

(** X21. [handleVerify] shows its message exactly when one of the two fields
    is blank (empty or white space only).  Otherwise the mutation posts the
    two fields without the white space around them: each value sent is
    non-empty, neither begins nor ends with white space, differs from the
    field by white space at the two ends only, and is the only string that
    does. *)
Theorem delivery_sends_trimmed_fields :
  forall roundId couponCode : Text,
    match handleVerify roundId couponCode with
    | SetError _ => blank roundId \/ blank couponCode
    | Deliver r c =>
        r <> [] /\ c <> [] /\ trimmed roundId r /\ trimmed couponCode c
        /\ (forall r', trimmed roundId r' -> r' = r)
        /\ (forall c', trimmed couponCode c' -> c' = c)
    end.
Proof.
  intros roundId couponCode. unfold handleVerify, deliverMutation.
  destruct (nonempty (trim roundId)) eqn:Er; cbn [negb orb].
  - destruct (nonempty (trim couponCode)) eqn:Ec; cbn [negb].
    + split; [by destruct (trim roundId) |].
      split; [by destruct (trim couponCode) |].
      split; [apply trim_spec |]. split; [apply trim_spec |].
      split; intros ? ?; by apply trimmed_unique.
    + right. by apply trim_blank.
  - left. by apply trim_blank.
Qed.

